(** * Core engine of the multi-exchange OMS: a shallow embedding

    The development follows the C++ sources under [src/core]:
    - [include/ring_buffer.h]           -> module [RingBuffer]
    - [src/risk/risk_engine.cpp]        -> module [Risk]
    - [engine/order_manager.cpp]        -> module [OrderMgr]
    - [src/strategies/arbitrage_detector.cpp] -> module [Arbitrage]
    - [src/strategies/market_maker.cpp] -> module [MarketMaker]

    Conventions.
    - [size_t], [uint64_t] and [uint32_t] values are integers in [Z] and
      every operation that can wrap is written with [wrap64] / [wrap32].
    - [double] values are exact rationals ([Q]): the order relations and
      the field operations are the mathematical ones, so rounding,
      infinities and NaN are outside the model; a quotient by zero is
      [0], as [Qdiv] has it. Where the behaviour of the code turns on a
      NaN or on a division by zero, the function is read once more over
      IEEE 754 binary64 numbers (modules [RiskIEEE] and
      [ArbitrageIEEE]).
    - [std::atomic] cells are plain fields; a call runs atomically.
    - Clock readings are arguments of the functions that read the clock. *)

From Stdlib Require Import ZArith QArith Qabs Lqa Lia Ascii String.
From Stdlib Require PrimFloat.
From stdpp Require Import gmap strings list fin_maps pretty.

#[local] Set Warnings "-inexact-float".

Local Open Scope Z_scope.

(** ** Machine integers *)

Definition wrap64 (x : Z) : Z := x mod 2 ^ 64.
Definition wrap32 (x : Z) : Z := x mod 2 ^ 32.

(** ** Domain types ([include/types.h]) *)

Inductive Side := BUY | SELL.

Inductive OrderType :=
  MARKET | LIMIT | STOP | STOP_LIMIT | TAKE_PROFIT | TAKE_PROFIT_LIMIT.

Inductive OrderStatus :=
  NEW | PARTIALLY_FILLED | FILLED | CANCELED | REJECTED | EXPIRED.

Inductive TimeInForce := GTC | IOC | FOK | GTX.

Inductive ExchangeType :=
  | BINANCE_SPOT | BINANCE_FUTURES | BYBIT_SPOT | BYBIT_FUTURES
  | OKX_SPOT | OKX_FUTURES | UPBIT.

Record Order := {
  id : Z;
  client_order_id : string;
  exchange : ExchangeType;
  symbol : string;
  side : Side;
  type : OrderType;
  price : Q;
  quantity : Q;
  executed_quantity : Q;
  status : OrderStatus;
  time_in_force : TimeInForce;
  created_at : Z;
  updated_at : Z
}.

#[global] Instance Side_eq_dec : EqDecision Side.
Proof. solve_decision. Defined.

#[global] Instance ExchangeType_eq_dec : EqDecision ExchangeType.
Proof. solve_decision. Defined.

(** ** [include/ring_buffer.h] *)

Module RingBuffer.

Section Ring.

(** The element type and the value a value-initialised slot holds
    ([std::make_unique<T[]>] value-initialises the array). *)
Context {T : Type} (dflt : T).

Record t := {
  producer_head : Z;
  consumer_tail : Z;
  buffer_ : list T;
  capacity_ : Z;
  mask_ : Z
}.

(** [next_power_of_two]: decrement, smear the top bit to the right,
    increment; the decrement and the increment wrap in [size_t]. *)
Definition next_power_of_two (n : Z) : Z :=
  let n := wrap64 (n - 1) in
  let n := Z.lor n (Z.shiftr n 1) in
  let n := Z.lor n (Z.shiftr n 2) in
  let n := Z.lor n (Z.shiftr n 4) in
  let n := Z.lor n (Z.shiftr n 8) in
  let n := Z.lor n (Z.shiftr n 16) in
  let n := Z.lor n (Z.shiftr n 32) in
  wrap64 (n + 1).

(** The constructor. *)
Definition make (capacity : Z) : t :=
  let c := next_power_of_two capacity in
  {| producer_head := 0;
     consumer_tail := 0;
     buffer_ := replicate (Z.to_nat c) dflt;
     capacity_ := c;
     mask_ := wrap64 (c - 1) |}.

(** [push]: the result is the returned flag and the buffer afterwards.
    The slot written is [buffer_[current_head]]; the source indexes a
    raw array, so an index outside it is undefined there; the list
    update leaves the list alone in that case. *)
Definition push (r : t) (item : T) : bool * t :=
  let current_head := producer_head r in
  let next_head := Z.land (wrap64 (current_head + 1)) (mask_ r) in
  if next_head =? consumer_tail r then (false, r)
  else (true,
        {| producer_head := next_head;
           consumer_tail := consumer_tail r;
           buffer_ := <[Z.to_nat current_head := item]> (buffer_ r);
           capacity_ := capacity_ r;
           mask_ := mask_ r |}).

(** [pop]: [None] is the [false] return (the out-parameter is left
    alone), [Some x] is the [true] return with [item = x]. *)
Definition pop (r : t) : option T * t :=
  let current_tail := consumer_tail r in
  if current_tail =? producer_head r then (None, r)
  else (Some (nth (Z.to_nat current_tail) (buffer_ r) dflt),
        {| producer_head := producer_head r;
           consumer_tail := Z.land (wrap64 (current_tail + 1)) (mask_ r);
           buffer_ := buffer_ r;
           capacity_ := capacity_ r;
           mask_ := mask_ r |}).

Definition size (r : t) : Z :=
  Z.land (wrap64 (producer_head r - consumer_tail r)) (mask_ r).

Definition empty (r : t) : bool := producer_head r =? consumer_tail r.

Definition capacity (r : t) : Z := capacity_ r.

(** *** Histories of one producer and one consumer

    In the sequential reading a history is a list of calls; the
    producer's are [OpPush], the consumer's are [OpPop]. *)

Inductive op := OpPush (item : T) | OpPop.

Definition step (r : t) (o : op) : t :=
  match o with
  | OpPush item => snd (push r item)
  | OpPop => snd (pop r)
  end.

Definition run (capacity : Z) (ops : list op) : t :=
  fold_left step ops (make capacity).

(** Push every element of [items], in order; [None] as soon as one
    push returns [false]. *)
Fixpoint push_all (r : t) (items : list T) : option t :=
  match items with
  | [] => Some r
  | x :: rest =>
      match push r x with
      | (true, r') => push_all r' rest
      | (false, _) => None
      end
  end.

(** Pop [n] times, collecting the items; [None] as soon as one pop
    returns [false]. *)
Fixpoint pop_n (r : t) (n : nat) : option (list T * t) :=
  match n with
  | O => Some ([], r)
  | S n' =>
      match pop r with
      | (Some x, r') =>
          match pop_n r' n' with
          | Some (xs, r'') => Some (x :: xs, r'')
          | None => None
          end
      | (None, _) => None
      end
  end.

(** The queued elements, oldest first: the [size r] slots from
    [consumer_tail] on, wrapping at the capacity. *)
Definition contents (r : t) : list T :=
  (fun i => nth (Z.to_nat ((consumer_tail r + i) mod capacity_ r)) (buffer_ r) dflt)
    <$> seqZ 0 (size r).

(** The representation invariant established by the constructor. *)
Definition inv (r : t) : Prop :=
  (exists k, 0 <= k <= 63 /\ capacity_ r = 2 ^ k) /\
  mask_ r = capacity_ r - 1 /\
  length (buffer_ r) = Z.to_nat (capacity_ r) /\
  0 <= producer_head r < capacity_ r /\
  0 <= consumer_tail r < capacity_ r.

End Ring.

Arguments t : clear implicits.

(** [smeared n a x]: bit [i] of [x] is set exactly when one of the [a]
    bits of [n] from position [i] upwards is set. This is what the
    shift-and-or steps of [next_power_of_two] maintain, with [a]
    doubling at each step. *)
Definition smeared (n a x : Z) : Prop :=
  forall i, 0 <= i ->
    (Z.testbit x i = true <-> exists d, 0 <= d < a /\ Z.testbit n (i + d) = true).

End RingBuffer.

(** ** [std::min], [std::max] and [std::abs] on [double]

    [std::min(a, b)] is [(b < a) ? b : a] and [std::max(a, b)] is
    [(a < b) ? b : a]. *)

Definition std_min (a b : Q) : Q := if Qlt_le_dec b a then b else a.
Definition std_max (a b : Q) : Q := if Qlt_le_dec a b then b else a.
Definition std_abs (a : Q) : Q := Qabs a.

(** ** [src/risk/risk_engine.cpp] *)

Module Risk.

Definition MAX_SYMBOLS : Z := 1000.

Record PositionInfo := {
  pos_quantity : Q;
  pos_value : Q;
  pos_avg_price : Q
}.

Record RiskConfig := {
  max_position_value : Q;
  max_order_value : Q;
  daily_loss_limit : Q;
  max_open_orders : Z;
  max_leverage : Q
}.

(** The default constructor of [RiskConfig]. *)
Definition default_config : RiskConfig :=
  {| max_position_value := 100000 # 1;
     max_order_value := 10000 # 1;
     daily_loss_limit := 5000 # 1;
     max_open_orders := 100;
     max_leverage := 10 # 1 |}.

(** The messages handed to [log]. The source renders the number with
    [std::to_string]; the model keeps the number. *)
Inductive LogMsg :=
  | MsgStarted
  | MsgStopped
  | MsgOrderValue (v : Q)
  | MsgPositionValue (v : Q)
  | MsgDailyLoss (v : Q)
  | MsgOpenOrders (n : Z)
  | MsgPnLReset.

(** The function-local statics of [RiskEngine::log]. *)
Record Log := {
  log_index : Z;
  log_buffer : list (option LogMsg)
}.

Definition empty_log : Log :=
  {| log_index := 0; log_buffer := replicate 1000 None |}.

Definition log (m : LogMsg) (l : Log) : Log :=
  let idx := log_index l mod 1000 in
  {| log_index := wrap64 (log_index l + 1);
     log_buffer := <[Z.to_nat idx := Some m]> (log_buffer l) |}.

Record RiskEngine := {
  config_ : RiskConfig;
  positions_ : list PositionInfo;
  daily_pnl_ : Q;
  open_orders_ : Z;
  total_checks_ : Z;
  total_latency_ns_ : Z;
  running_ : bool
}.

Definition zero_position : PositionInfo :=
  {| pos_quantity := 0; pos_value := 0; pos_avg_price := 0 |}.

(** The constructor. *)
Definition make (config : RiskConfig) : RiskEngine :=
  {| config_ := config;
     positions_ := replicate (Z.to_nat MAX_SYMBOLS) zero_position;
     daily_pnl_ := 0;
     open_orders_ := 0;
     total_checks_ := 0;
     total_latency_ns_ := 0;
     running_ := false |}.

(** [char] is signed on the platforms the engine targets; a byte
    above 127 enters the sum as a negative [int]. *)
Definition char_value (c : ascii) : Z :=
  let n := Z.of_N (N_of_ascii c) in
  if n <? 128 then n else n - 256.

Fixpoint hash_from (hash : Z) (s : string) : Z :=
  match s with
  | EmptyString => hash
  | String c rest => hash_from (wrap64 (hash * 31 + char_value c)) rest
  end.

Definition hashSymbol (symbol : string) : Z := hash_from 0 symbol.

Definition slot_of (symbol : string) : nat :=
  Z.to_nat (hashSymbol symbol mod MAX_SYMBOLS).

Definition position_at (e : RiskEngine) (symbol : string) : PositionInfo :=
  nth (slot_of symbol) (positions_ e) zero_position.

Definition set_running (b : bool) (e : RiskEngine) : RiskEngine :=
  {| config_ := config_ e;
     positions_ := positions_ e;
     daily_pnl_ := daily_pnl_ e;
     open_orders_ := open_orders_ e;
     total_checks_ := total_checks_ e;
     total_latency_ns_ := total_latency_ns_ e;
     running_ := b |}.

Definition start (e : RiskEngine) (l : Log) : RiskEngine * Log :=
  (set_running true e, log MsgStarted l).

Definition stop (e : RiskEngine) (l : Log) : RiskEngine * Log :=
  (set_running false e, log MsgStopped l).

(** [open_orders_ += delta] on a [std::atomic<int>]: two's complement
    wrap-around in 32 bits. *)
Definition wrap_int32 (x : Z) : Z := (x + 2 ^ 31) mod 2 ^ 32 - 2 ^ 31.

Definition updateOrderCount (delta : Z) (e : RiskEngine) : RiskEngine :=
  {| config_ := config_ e;
     positions_ := positions_ e;
     daily_pnl_ := daily_pnl_ e;
     open_orders_ := wrap_int32 (open_orders_ e + delta);
     total_checks_ := total_checks_ e;
     total_latency_ns_ := total_latency_ns_ e;
     running_ := running_ e |}.

(** The value of the order entering the position gate, signed by side. *)
Definition signed_value (s : Side) (order_value : Q) : Q :=
  match s with BUY => order_value | SELL => - order_value end.

(** The metrics update that ends [checkOrder]. *)
Definition record_check (latency : Z) (e : RiskEngine) : RiskEngine :=
  {| config_ := config_ e;
     positions_ := positions_ e;
     daily_pnl_ := daily_pnl_ e;
     open_orders_ := open_orders_ e;
     total_checks_ := wrap64 (total_checks_ e + 1);
     total_latency_ns_ := wrap64 (total_latency_ns_ e + latency);
     running_ := running_ e |}.

(** [checkOrder]. [t_start] and [t_end] are the two readings of the
    steady clock. The result is the returned flag, the engine and the
    log afterwards. *)
Definition checkOrder (t_start t_end : Z) (order : Order)
    (e : RiskEngine) (l : Log) : bool * RiskEngine * Log :=
  if negb (running_ e) then (false, e, l)
  else
    let passed := true in
    (* 1. order value limit *)
    let order_value := (price order * quantity order)%Q in
    let '(passed, l) :=
      if Qlt_le_dec (max_order_value (config_ e)) order_value
      then (false, log (MsgOrderValue order_value) l)
      else (passed, l) in
    (* 2. position limit *)
    let '(passed, l) :=
      if passed then
        let pos := position_at e (symbol order) in
        let new_position_value :=
          (pos_value pos + signed_value (side order) order_value)%Q in
        if Qlt_le_dec (max_position_value (config_ e)) (std_abs new_position_value)
        then (false, log (MsgPositionValue new_position_value) l)
        else (passed, l)
      else (passed, l) in
    (* 3. daily loss limit *)
    let '(passed, l) :=
      if passed then
        if Qlt_le_dec (daily_pnl_ e) (- daily_loss_limit (config_ e))
        then (false, log (MsgDailyLoss (daily_pnl_ e)) l)
        else (passed, l)
      else (passed, l) in
    (* 4. open orders limit *)
    let '(passed, l) :=
      if passed then
        if open_orders_ e >=? max_open_orders (config_ e)
        then (false, log (MsgOpenOrders (open_orders_ e)) l)
        else (passed, l)
      else (passed, l) in
    (* metrics *)
    let latency := t_end - t_start in
    (passed, record_check latency e, l).

Definition getTotalChecks (e : RiskEngine) : Z := total_checks_ e.

Definition getAverageLatencyUs (e : RiskEngine) : Q :=
  let checks := total_checks_ e in
  if checks =? 0 then 0%Q
  else (inject_Z (total_latency_ns_ e) / inject_Z checks / (1000 # 1))%Q.


(** The four gates as the specification words them. *)
Definition gate_order_value (o : Order) (e : RiskEngine) : Prop :=
  (price o * quantity o <= max_order_value (config_ e))%Q.

Definition gate_position_value (o : Order) (e : RiskEngine) : Prop :=
  (Qabs (pos_value (position_at e (symbol o))
         + signed_value (side o) (price o * quantity o))
   <= max_position_value (config_ e))%Q.




(** *** Position and order-count updates *)

Definition calculateRealizedPnL (old_quantity old_price new_quantity new_price : Q) : Q :=
  (* PnL of the closed portion *)
  let closed_quantity := std_min (std_abs old_quantity) (std_abs new_quantity) in
  if Qlt_le_dec 0 old_quantity
  then (closed_quantity * (new_price - old_price))%Q
  else (closed_quantity * (old_price - new_price))%Q.

(** [updatePosition]. The stores to [quantity] and [value] come
    first, then the realized PnL of a reduction, then the average
    price; [avg_price] is read before it is written. *)
Definition updatePosition (symbol : string) (quantity price : Q)
    (e : RiskEngine) : RiskEngine :=
  let pos := position_at e symbol in
  let old_quantity := pos_quantity pos in
  let old_avg := pos_avg_price pos in
  let new_quantity := (old_quantity + quantity)%Q in
  (* realized PnL if reducing the position *)
  let daily_pnl :=
    if Qlt_le_dec (old_quantity * quantity) 0
    then (daily_pnl_ e + calculateRealizedPnL old_quantity old_avg quantity price)%Q
    else daily_pnl_ e in
  (* average price *)
  let avg_price :=
    if Qeq_dec new_quantity 0 then old_avg
    else if Qlt_le_dec 0 (old_quantity * new_quantity)
         then ((old_quantity * old_avg + quantity * price) / new_quantity)%Q
         else price in
  let pos' :=
    {| pos_quantity := new_quantity;
       pos_value := (new_quantity * price)%Q;
       pos_avg_price := avg_price |} in
  {| config_ := config_ e;
     positions_ := <[slot_of symbol := pos']> (positions_ e);
     daily_pnl_ := daily_pnl;
     open_orders_ := open_orders_ e;
     total_checks_ := total_checks_ e;
     total_latency_ns_ := total_latency_ns_ e;
     running_ := running_ e |}.

Definition getTotalExposure (e : RiskEngine) : Q :=
  fold_left (fun total pos => (total + std_abs (pos_value pos))%Q) (positions_ e) 0%Q.

Definition resetDailyPnL (e : RiskEngine) (l : Log) : RiskEngine * Log :=
  ({| config_ := config_ e;
      positions_ := positions_ e;
      daily_pnl_ := 0;
      open_orders_ := open_orders_ e;
      total_checks_ := total_checks_ e;
      total_latency_ns_ := total_latency_ns_ e;
      running_ := running_ e |},
   log MsgPnLReset l).

(** *** Histories of an engine

    The calls of the public interface, in the order they run. *)
Inductive op :=
  | OpStart
  | OpStop
  | OpCheck (t_start t_end : Z) (order : Order)
  | OpUpdatePosition (symbol : string) (quantity price : Q)
  | OpUpdateOrderCount (delta : Z)
  | OpResetDailyPnL.

Definition step (s : RiskEngine * Log) (o : op) : RiskEngine * Log :=
  let '(e, l) := s in
  match o with
  | OpStart => start e l
  | OpStop => stop e l
  | OpCheck t_start t_end order =>
      let '(_, e', l') := checkOrder t_start t_end order e l in (e', l')
  | OpUpdatePosition symbol quantity price => (updatePosition symbol quantity price e, l)
  | OpUpdateOrderCount delta => (updateOrderCount delta e, l)
  | OpResetDailyPnL => resetDailyPnL e l
  end.

Definition run (config : RiskConfig) (ops : list op) : RiskEngine * Log :=
  fold_left step ops (make config, empty_log).


End Risk.

(** ** [checkOrder] in binary64

    An order's price and quantity, the limits and the position values
    are [double]s. Here the four comparisons of [checkOrder] are read
    over IEEE 754 binary64 numbers, NaN and the infinities included:
    [a > b] is [b <? a], which is false when either side is NaN. The
    function takes what [checkOrder] reads of the engine and of the
    order and gives the returned flag; the counters and the log are as
    in [Risk.checkOrder]. *)

Module RiskIEEE.

Import PrimFloat.

Record RiskConfig := {
  max_position_value : float;
  max_order_value : float;
  daily_loss_limit : float;
  max_open_orders : Z;
  max_leverage : float
}.

(** The default constructor. *)
Definition default_config : RiskConfig :=
  {| max_position_value := 100000%float;
     max_order_value := 10000%float;
     daily_loss_limit := 5000%float;
     max_open_orders := 100;
     max_leverage := 10%float |}.

(** What [checkOrder] reads of the engine: the running flag, [value] of
    the slot [positions_[hashSymbol(order.symbol) % MAX_SYMBOLS]], the
    daily PnL and the open-order count. *)
Record EngineView := {
  running_ : bool;
  pos_value : float;
  daily_pnl_ : float;
  open_orders_ : Z
}.

(** What it reads of the order. *)
Record OrderView := {
  side : Side;
  price : float;
  quantity : float
}.

Definition checkOrder (config : RiskConfig) (e : EngineView) (order : OrderView) : bool :=
  if negb (running_ e) then false
  else
    let passed := true in
    (* 1. order value limit *)
    let order_value := mul (price order) (quantity order) in
    let passed := if ltb (max_order_value config) order_value then false else passed in
    (* 2. position limit *)
    let passed :=
      if passed then
        let new_position_value :=
          add (pos_value e)
              (match side order with BUY => order_value | SELL => opp order_value end) in
        if ltb (max_position_value config) (abs new_position_value) then false else passed
      else passed in
    (* 3. daily loss limit *)
    let passed :=
      if passed then
        if ltb (daily_pnl_ e) (opp (daily_loss_limit config)) then false else passed
      else passed in
    (* 4. open orders limit *)
    let passed :=
      if passed then
        if (open_orders_ e >=? max_open_orders config)%Z then false else passed
      else passed in
    passed.

(** The first two gates as the specification words them, with [<=] on
    binary64 numbers. *)
Definition gate_order_value (config : RiskConfig) (order : OrderView) : bool :=
  leb (mul (price order) (quantity order)) (max_order_value config).

Definition gate_position_value (config : RiskConfig) (e : EngineView)
    (order : OrderView) : bool :=
  let v := mul (price order) (quantity order) in
  leb (abs (add (pos_value e) (match side order with BUY => v | SELL => opp v end)))
      (max_position_value config).

(** A running engine with no position, no loss and no open order, and
    a buy order for one unit whose price is NaN. *)
Definition idle_engine : EngineView :=
  {| running_ := true; pos_value := 0%float; daily_pnl_ := 0%float; open_orders_ := 0 |}.

Definition nan_order : OrderView :=
  {| side := BUY; price := nan; quantity := 1%float |}.

End RiskIEEE.

(** ** [engine/order_manager.cpp] *)

Module OrderMgr.

Record Config := {
  ring_buffer_size : Z;
  max_orders_per_second : Z;
  max_active_orders : Z;
  cpu_cores : list Z
}.

Record Stats := {
  orders_processed : Z;
  orders_rejected : Z;
  total_latency_us : Z;
  min_latency_us : Z;
  max_latency_us : Z
}.

(** A value-initialised [Order], the content of a fresh queue slot. *)
Definition zero_order : Order :=
  {| id := 0; client_order_id := ""; exchange := BINANCE_SPOT;
     symbol := ""; side := BUY; type := MARKET;
     price := 0; quantity := 0; executed_quantity := 0;
     status := NEW; time_in_force := GTC;
     created_at := 0; updated_at := 0 |}.

(** The manager. [order_queues_] has an entry for each of the seven
    venues from the constructor on and none is ever removed, so the
    map is a total function on [ExchangeType]. *)
Record OrderManager := {
  config_ : Config;
  stats_ : Stats;
  order_queues_ : ExchangeType -> RingBuffer.t Order;
  orders_ : gmap Z Order;
  exchange_orders_ : ExchangeType -> list Z;
  running_ : bool;
  next_order_id_ : Z;
  orders_this_second_ : Z;
  last_rate_check_ : Z
}.

Definition initial_stats : Stats :=
  {| orders_processed := 0;
     orders_rejected := 0;
     total_latency_us := 0;
     min_latency_us := 2 ^ 64 - 1;
     max_latency_us := 0 |}.

(** The constructor; [now] is the reading of the steady clock. *)
Definition make (config : Config) (now : Z) : OrderManager :=
  {| config_ := config;
     stats_ := initial_stats;
     order_queues_ := fun _ => RingBuffer.make zero_order (ring_buffer_size config);
     orders_ := ∅;
     exchange_orders_ := fun _ => [];
     running_ := false;
     next_order_id_ := 1;
     orders_this_second_ := 0;
     last_rate_check_ := now |}.

Definition ONE_SECOND_NS : Z := 1000000000.

Definition reject (s : Stats) : Stats :=
  {| orders_processed := orders_processed s;
     orders_rejected := wrap64 (orders_rejected s + 1);
     total_latency_us := total_latency_us s;
     min_latency_us := min_latency_us s;
     max_latency_us := max_latency_us s |}.

Definition set_queue (q : ExchangeType -> RingBuffer.t Order)
    (e : ExchangeType) (r : RingBuffer.t Order) : ExchangeType -> RingBuffer.t Order :=
  fun e' => if decide (e' = e) then r else q e'.

(** [SubmitOrder]. [now] is the reading of the steady clock, in
    nanoseconds. [fetch_add] yields the counter before the addition. *)
Definition SubmitOrder (now : Z) (order : Order) (m : OrderManager)
    : bool * OrderManager :=
  (* rate limiting check *)
  let '(count, last) :=
    if now - last_rate_check_ m >=? ONE_SECOND_NS
    then (0, now)
    else (orders_this_second_ m, last_rate_check_ m) in
  let old := count in
  let count := wrap32 (count + 1) in
  if old >=? max_orders_per_second (config_ m) then
    (false,
     {| config_ := config_ m;
        stats_ := reject (stats_ m);
        order_queues_ := order_queues_ m;
        orders_ := orders_ m;
        exchange_orders_ := exchange_orders_ m;
        running_ := running_ m;
        next_order_id_ := next_order_id_ m;
        orders_this_second_ := count;
        last_rate_check_ := last |})
  else
    (* submit to the venue's queue *)
    let queue := order_queues_ m (exchange order) in
    let '(ok, queue') := RingBuffer.push queue order in
    if negb ok then
      (false,
       {| config_ := config_ m;
          stats_ := reject (stats_ m);
          order_queues_ := set_queue (order_queues_ m) (exchange order) queue';
          orders_ := orders_ m;
          exchange_orders_ := exchange_orders_ m;
          running_ := running_ m;
          next_order_id_ := next_order_id_ m;
          orders_this_second_ := count;
          last_rate_check_ := last |})
    else
      (true,
       {| config_ := config_ m;
          stats_ := stats_ m;
          order_queues_ := set_queue (order_queues_ m) (exchange order) queue';
          orders_ := orders_ m;
          exchange_orders_ := exchange_orders_ m;
          running_ := running_ m;
          next_order_id_ := next_order_id_ m;
          orders_this_second_ := count;
          last_rate_check_ := last |}).

(** Submit a batch, one clock reading per order; the flags come back
    in submission order. *)
Fixpoint submit_all (batch : list (Z * Order)) (m : OrderManager)
    : list bool * OrderManager :=
  match batch with
  | [] => ([], m)
  | (now, o) :: rest =>
      let '(b, m') := SubmitOrder now o m in
      let '(bs, m'') := submit_all rest m' in
      (b :: bs, m'')
  end.

(** Every venue ring is well formed and has at least [k] free slots. *)
Definition rings_room (k : Z) (m : OrderManager) : Prop :=
  forall e, RingBuffer.inv (order_queues_ m e) /\
            RingBuffer.size (order_queues_ m e) + k
            <= RingBuffer.capacity (order_queues_ m e) - 1.

(** *** The order index and the dispatch worker *)

Definition with_index (orders : gmap Z Order) (by_exchange : ExchangeType -> list Z)
    (next_id : Z) (m : OrderManager) : OrderManager :=
  {| config_ := config_ m;
     stats_ := stats_ m;
     order_queues_ := order_queues_ m;
     orders_ := orders;
     exchange_orders_ := by_exchange;
     running_ := running_ m;
     next_order_id_ := next_id;
     orders_this_second_ := orders_this_second_ m;
     last_rate_check_ := last_rate_check_ m |}.

Definition with_stats (s : Stats) (m : OrderManager) : OrderManager :=
  {| config_ := config_ m;
     stats_ := s;
     order_queues_ := order_queues_ m;
     orders_ := orders_ m;
     exchange_orders_ := exchange_orders_ m;
     running_ := running_ m;
     next_order_id_ := next_order_id_ m;
     orders_this_second_ := orders_this_second_ m;
     last_rate_check_ := last_rate_check_ m |}.

Definition with_queues (q : ExchangeType -> RingBuffer.t Order) (m : OrderManager)
    : OrderManager :=
  {| config_ := config_ m;
     stats_ := stats_ m;
     order_queues_ := q;
     orders_ := orders_ m;
     exchange_orders_ := exchange_orders_ m;
     running_ := running_ m;
     next_order_id_ := next_order_id_ m;
     orders_this_second_ := orders_this_second_ m;
     last_rate_check_ := last_rate_check_ m |}.

Definition set_id_created (new_id now_us : Z) (o : Order) : Order :=
  {| id := new_id; client_order_id := client_order_id o; exchange := exchange o;
     symbol := symbol o; side := side o; type := type o; price := price o;
     quantity := quantity o; executed_quantity := executed_quantity o;
     status := status o; time_in_force := time_in_force o;
     created_at := now_us; updated_at := updated_at o |}.

Definition set_canceled (now_us : Z) (o : Order) : Order :=
  {| id := id o; client_order_id := client_order_id o; exchange := exchange o;
     symbol := symbol o; side := side o; type := type o; price := price o;
     quantity := quantity o; executed_quantity := executed_quantity o;
     status := CANCELED; time_in_force := time_in_force o;
     created_at := created_at o; updated_at := now_us |}.

(** [ProcessCancellation]; [now_us] is the reading of the system
    clock, in microseconds. The stored record is the one every holder
    of the pointer sees, so writing through the pointer is replacing
    the value under the key. *)
Definition ProcessCancellation (order_id : Z) (venue : ExchangeType) (now_us : Z)
    (m : OrderManager) : OrderManager :=
  match orders_ m !! order_id with
  | Some o =>
      if decide (exchange o = venue)
      then with_index (<[order_id := set_canceled now_us o]> (orders_ m))
             (exchange_orders_ m) (next_order_id_ m) m
      else m
  | None => m
  end.

Definition append_id (by_exchange : ExchangeType -> list Z) (venue : ExchangeType)
    (order_id : Z) : ExchangeType -> list Z :=
  fun e => if decide (e = venue) then by_exchange e ++ [order_id] else by_exchange e.

(** [ProcessOrder]. *)
Definition ProcessOrder (order : Order) (now_us : Z) (m : OrderManager) : OrderManager :=
  match status order with
  | CANCELED => ProcessCancellation (id order) (exchange order) now_us m
  | _ =>
      let new_id := next_order_id_ m in
      let stored := set_id_created new_id now_us order in
      with_index (<[new_id := stored]> (orders_ m))
        (append_id (exchange_orders_ m) (exchange order) new_id)
        (wrap64 (new_id + 1)) m
  end.

(** [UpdateOrder]. *)
Definition UpdateOrder (order : Order) (m : OrderManager) : bool * OrderManager :=
  match orders_ m !! id order with
  | None => (false, m)
  | Some _ =>
      (true, with_index (<[id order := order]> (orders_ m))
               (exchange_orders_ m) (next_order_id_ m) m)
  end.

(** [GetOrder]: [None] is the null pointer. *)
Definition GetOrder (order_id : Z) (m : OrderManager) : option Order :=
  orders_ m !! order_id.

(** [GetOrdersByExchange]: the identifiers of the venue in index
    order, those without a record skipped. *)
Definition GetOrdersByExchange (venue : ExchangeType) (m : OrderManager) : list Order :=
  omap (fun order_id => orders_ m !! order_id) (exchange_orders_ m venue).

(** [UpdateLatencyStats]. Run alone, each compare-and-swap loop
    stores the new value when it is strictly better and stops. *)
Definition UpdateLatencyStats (latency_us : Z) (s : Stats) : Stats :=
  {| orders_processed := orders_processed s;
     orders_rejected := orders_rejected s;
     total_latency_us := wrap64 (total_latency_us s + latency_us);
     min_latency_us :=
       if latency_us <? min_latency_us s then latency_us else min_latency_us s;
     max_latency_us :=
       if latency_us >? max_latency_us s then latency_us else max_latency_us s |}.

Definition count_processed (s : Stats) : Stats :=
  {| orders_processed := wrap64 (orders_processed s + 1);
     orders_rejected := orders_rejected s;
     total_latency_us := total_latency_us s;
     min_latency_us := min_latency_us s;
     max_latency_us := max_latency_us s |}.

(** The clock readings one dispatched order takes: the two readings
    around [ProcessOrder] and the one inside it. *)
Record Readings := {
  t_start_ns : Z;
  t_end_ns : Z;
  now_us : Z
}.

(** The latency handed to [UpdateLatencyStats]: the difference of the
    two readings in whole microseconds (truncated towards zero),
    converted to [uint64_t]. *)
Definition latency_of (c : Readings) : Z :=
  wrap64 (Z.quot (t_end_ns c - t_start_ns c) 1000).

(** The body of the [for] loop of [ProcessingLoop] for one venue: the
    result says whether an order was processed. *)
Definition dispatch_venue (clock : ExchangeType -> Readings) (venue : ExchangeType)
    (m : OrderManager) : bool * OrderManager :=
  match RingBuffer.pop zero_order (order_queues_ m venue) with
  | (Some order, queue') =>
      let m := with_queues (set_queue (order_queues_ m) venue queue') m in
      let m := ProcessOrder order (now_us (clock venue)) m in
      let m := with_stats (UpdateLatencyStats (latency_of (clock venue)) (stats_ m)) m in
      (true, with_stats (count_processed (stats_ m)) m)
  | (None, _) => (false, m)
  end.

(** One pass of the [while] loop over the venues, in the order the
    map yields them ([venues]); the flag is [processed]. *)
Fixpoint dispatch_pass (clock : ExchangeType -> Readings) (venues : list ExchangeType)
    (m : OrderManager) : bool * OrderManager :=
  match venues with
  | [] => (false, m)
  | v :: rest =>
      let '(b, m') := dispatch_venue clock v m in
      let '(bs, m'') := dispatch_pass clock rest m' in
      (b || bs, m'')
  end.

(** [CancelOrder]. The record is default-initialised: its strings are
    empty and its other fields hold whatever was there ([junk]) but for
    the three that are assigned. *)
Definition CancelOrder (junk : Order) (order_id : Z) (venue : ExchangeType)
    (now : Z) (m : OrderManager) : bool * OrderManager :=
  let cancel_order :=
    {| id := order_id; client_order_id := ""; exchange := venue;
       symbol := ""; side := side junk; type := type junk; price := price junk;
       quantity := quantity junk; executed_quantity := executed_quantity junk;
       status := CANCELED; time_in_force := time_in_force junk;
       created_at := created_at junk; updated_at := updated_at junk |} in
  SubmitOrder now cancel_order m.

(** The index invariant: every stored record sits under its own
    identifier, identifiers are positive and below the next one to be
    assigned, and the per-venue lists hold stored identifiers only. *)
Definition index_ok (m : OrderManager) : Prop :=
  1 <= next_order_id_ m < 2 ^ 64 /\
  (forall k o, orders_ m !! k = Some o -> id o = k /\ 1 <= k < next_order_id_ m) /\
  (forall v k, In k (exchange_orders_ m v) -> is_Some (orders_ m !! k)).

(** The orders a dispatcher processes, each with its clock reading. *)
Definition process_all (batch : list (Order * Z)) (m : OrderManager) : OrderManager :=
  fold_left (fun m x => ProcessOrder (fst x) (snd x) m) batch m.

End OrderMgr.

(** ** Fixed-size character arrays

    [strncpy(dst, src, sizeof(dst) - 1)] into a [char[16]] keeps at most
    fifteen characters; [snprintf] into a [char[64]] keeps at most
    sixty-three. *)

Definition strncpy15 (src : string) : string := String.substring 0 15 src.
Definition snprintf64 (src : string) : string := String.substring 0 63 src.

(** ** [src/strategies/arbitrage_detector.cpp] *)

Module Arbitrage.

Definition OPPORTUNITY_BUFFER_SIZE : Z := 1024.

Record PriceFeed := {
  feed_exchange : string;
  feed_symbol : string;
  bid_price : Q;
  bid_quantity : Q;
  ask_price : Q;
  ask_quantity : Q;
  timestamp_ns : Z
}.

Record ArbitrageOpportunity := {
  opp_id : string;
  opp_symbol : string;
  buy_exchange : string;
  sell_exchange : string;
  buy_price : Q;
  sell_price : Q;
  max_quantity : Q;
  profit_rate : Q;
  net_profit : Q;
  detected_at_ns : Z;
  valid_until_ns : Z
}.

Record ArbitrageConfig := {
  min_profit_rate : Q;
  min_profit_amount : Q;
  max_position_size : Q;
  opportunity_ttl_ns : Z;
  taker_fees : gmap string Q;
  maker_fees : gmap string Q
}.

(** The default constructor of [ArbitrageOpportunity]. *)
Definition zero_opportunity : ArbitrageOpportunity :=
  {| opp_id := ""; opp_symbol := ""; buy_exchange := ""; sell_exchange := "";
     buy_price := 0; sell_price := 0; max_quantity := 0;
     profit_rate := 0; net_profit := 0;
     detected_at_ns := 0; valid_until_ns := 0 |}.

(** The detector: the configuration, the outbound ring and the
    counters. The price matrix, which [checkArbitrageOpportunity] does
    not read, is left out. *)
Record ArbitrageDetector := {
  config_ : ArbitrageConfig;
  opportunity_buffer_ : RingBuffer.t ArbitrageOpportunity;
  detected_count_ : Z;
  processed_prices_ : Z;
  running_ : bool
}.

(** The constructor. *)
Definition make (config : ArbitrageConfig) : ArbitrageDetector :=
  {| config_ := config;
     opportunity_buffer_ := RingBuffer.make zero_opportunity OPPORTUNITY_BUFFER_SIZE;
     detected_count_ := 0;
     processed_prices_ := 0;
     running_ := false |}.

Definition calculateFee (config : ArbitrageConfig) (exchange : string)
    (price : Q) (is_taker : bool) : Q :=
  let table := if is_taker then taker_fees config else maker_fees config in
  match table !! exchange with
  | Some rate => (price * rate)%Q
  | None => (price * (1 # 1000))%Q
  end.

(** The part of [checkArbitrageOpportunity] before the push: the
    gates, one early return each, and the record that is built when all
    of them are passed. [timestamp] is the clock reading taken for the
    identifier. *)
Definition evaluate (config : ArbitrageConfig) (buy sell : PriceFeed)
    (symbol : string) (timestamp : Z) : option ArbitrageOpportunity :=
  (* gross profit *)
  let price_diff := (bid_price sell - ask_price buy)%Q in
  if Qlt_le_dec 0 price_diff then
    (* profit rate *)
    let profit_rate := (price_diff / ask_price buy)%Q in
    if Qlt_le_dec profit_rate (min_profit_rate config) then None
    else
      (* fees *)
      let buy_fee := calculateFee config (feed_exchange buy) (ask_price buy) true in
      let sell_fee := calculateFee config (feed_exchange sell) (bid_price sell) true in
      let total_fee_rate := ((buy_fee + sell_fee) / ask_price buy)%Q in
      (* net profit rate *)
      let net_profit_rate := (profit_rate - total_fee_rate)%Q in
      if Qlt_le_dec net_profit_rate (min_profit_rate config) then None
      else
        (* maximum quantity, under the position size limit *)
        let max_quantity := std_min (ask_quantity buy) (bid_quantity sell) in
        let max_value := (max_quantity * ask_price buy)%Q in
        let max_quantity :=
          if Qlt_le_dec (max_position_size config) max_value
          then (max_position_size config / ask_price buy)%Q
          else max_quantity in
        (* net profit amount *)
        let net_profit :=
          (max_quantity * price_diff - max_quantity * (buy_fee + sell_fee))%Q in
        if Qlt_le_dec net_profit (min_profit_amount config) then None
        else
          Some {| opp_id :=
                    snprintf64 (symbol +:+ "_" +:+ feed_exchange buy +:+ "_"
                                +:+ feed_exchange sell +:+ "_" +:+ pretty timestamp);
                  opp_symbol := strncpy15 symbol;
                  buy_exchange := strncpy15 (feed_exchange buy);
                  sell_exchange := strncpy15 (feed_exchange sell);
                  buy_price := ask_price buy;
                  sell_price := bid_price sell;
                  max_quantity := max_quantity;
                  profit_rate := net_profit_rate;
                  net_profit := net_profit;
                  detected_at_ns := timestamp;
                  valid_until_ns := wrap64 (timestamp + opportunity_ttl_ns config) |}
  else None.

(** [checkArbitrageOpportunity]: an opportunity that passes every gate
    is pushed to the outbound ring and counted when the push succeeds. *)
Definition checkArbitrageOpportunity (buy sell : PriceFeed) (symbol : string)
    (timestamp : Z) (d : ArbitrageDetector) : ArbitrageDetector :=
  match evaluate (config_ d) buy sell symbol timestamp with
  | None => d
  | Some opportunity =>
      let '(ok, ring) := RingBuffer.push (opportunity_buffer_ d) opportunity in
      {| config_ := config_ d;
         opportunity_buffer_ := ring;
         detected_count_ :=
           if ok then wrap64 (detected_count_ d + 1) else detected_count_ d;
         processed_prices_ := processed_prices_ d;
         running_ := running_ d |}
  end.

Definition getNextOpportunity (d : ArbitrageDetector)
    : option ArbitrageOpportunity * ArbitrageDetector :=
  let '(item, ring) := RingBuffer.pop zero_opportunity (opportunity_buffer_ d) in
  (item,
   {| config_ := config_ d;
      opportunity_buffer_ := ring;
      detected_count_ := detected_count_ d;
      processed_prices_ := processed_prices_ d;
      running_ := running_ d |}).

(** The opportunities waiting in the outbound ring. *)
Definition pending (d : ArbitrageDetector) : list ArbitrageOpportunity :=
  RingBuffer.contents zero_opportunity (opportunity_buffer_ d).

(** A history of the detector: checks made by the detection thread
    and reads made by the consumer of the ring. *)
Inductive call :=
  | CallCheck (buy sell : PriceFeed) (symbol : string) (timestamp : Z)
  | CallNext.

Definition step (d : ArbitrageDetector) (c : call) : ArbitrageDetector :=
  match c with
  | CallCheck buy sell symbol timestamp =>
      checkArbitrageOpportunity buy sell symbol timestamp d
  | CallNext => snd (getNextOpportunity d)
  end.

Definition run (config : ArbitrageConfig) (calls : list call) : ArbitrageDetector :=
  fold_left step calls (make config).

(** *** The price matrix *)

Definition MAX_EXCHANGES : Z := 10.
Definition MAX_SYMBOLS : Z := 100.
Definition STALE_AFTER_NS : Z := 1000000000.

(** The default constructor of [PriceFeed]. *)
Definition zero_feed : PriceFeed :=
  {| feed_exchange := ""; feed_symbol := "";
     bid_price := 0; bid_quantity := 0; ask_price := 0; ask_quantity := 0;
     timestamp_ns := 0 |}.

Record SymbolPrices := {
  feeds : list PriceFeed;
  exchange_count : Z;
  sp_symbol : string
}.

Definition zero_symbol_prices : SymbolPrices :=
  {| feeds := replicate (Z.to_nat MAX_EXCHANGES) zero_feed;
     exchange_count := 0;
     sp_symbol := "" |}.

(** The three members of the detector that hold the prices. *)
Record PriceMatrix := {
  symbol_index_ : gmap string Z;
  symbol_prices_ : list SymbolPrices;
  symbol_count_ : Z
}.

Definition empty_matrix : PriceMatrix :=
  {| symbol_index_ := ∅;
     symbol_prices_ := replicate (Z.to_nat MAX_SYMBOLS) zero_symbol_prices;
     symbol_count_ := 0 |}.

Definition symbol_row (pm : PriceMatrix) (sym_idx : Z) : SymbolPrices :=
  nth (Z.to_nat sym_idx) (symbol_prices_ pm) zero_symbol_prices.

Definition feed_at (sp : SymbolPrices) (i : Z) : PriceFeed :=
  nth (Z.to_nat i) (feeds sp) zero_feed.

(** [getOrCreateSymbolIndex]: the index and the matrix afterwards. At
    the limit the counter is raised and put back, and [MAX_SYMBOLS]
    comes back. *)
Definition getOrCreateSymbolIndex (symbol : string) (pm : PriceMatrix)
    : Z * PriceMatrix :=
  match symbol_index_ pm !! symbol with
  | Some idx => (idx, pm)
  | None =>
      let new_idx := symbol_count_ pm in
      if new_idx >=? MAX_SYMBOLS then (MAX_SYMBOLS, pm)
      else
        let row := symbol_row pm new_idx in
        let row' :=
          {| feeds := feeds row;
             exchange_count := exchange_count row;
             sp_symbol := strncpy15 symbol |} in
        (new_idx,
         {| symbol_index_ := <[symbol := new_idx]> (symbol_index_ pm);
            symbol_prices_ := <[Z.to_nat new_idx := row']> (symbol_prices_ pm);
            symbol_count_ := wrap64 (new_idx + 1) |})
  end.

(** The linear search of [updatePriceFeed]: the first of the slots
    [i, i + 1, ...] in [slots] whose venue name compares equal. *)
Fixpoint find_exchange (exchange : string) (slots : list PriceFeed) (i : Z) : option Z :=
  match slots with
  | [] => None
  | f :: rest =>
      if String.eqb (feed_exchange f) exchange then Some i
      else find_exchange exchange rest (i + 1)
  end.

Definition wrap8 (x : Z) : Z := x mod 2 ^ 8.

Definition count_price (d : ArbitrageDetector) : ArbitrageDetector :=
  {| config_ := config_ d;
     opportunity_buffer_ := opportunity_buffer_ d;
     detected_count_ := detected_count_ d;
     processed_prices_ := wrap64 (processed_prices_ d + 1);
     running_ := running_ d |}.

(** [updatePriceFeed]; [now] is the clock reading stamped on the
    slot. The matrix and the detector (for [processed_prices_]) come
    back. *)
Definition updatePriceFeed (exchange symbol : string)
    (bid_price bid_quantity ask_price ask_quantity : Q) (now : Z)
    (pm : PriceMatrix) (d : ArbitrageDetector) : PriceMatrix * ArbitrageDetector :=
  let '(sym_idx, pm) := getOrCreateSymbolIndex symbol pm in
  if sym_idx >=? MAX_SYMBOLS then (pm, d)
  else
    let sym_prices := symbol_row pm sym_idx in
    let count := exchange_count sym_prices in
    (* the slot of the venue: the one found, or the next free one *)
    let slot :=
      match find_exchange exchange (take (Z.to_nat count) (feeds sym_prices)) 0 with
      | Some i => Some (i, count)
      | None =>
          if count <? MAX_EXCHANGES then Some (count, wrap8 (count + 1)) else None
      end in
    match slot with
    | None => (pm, d)
    | Some (exchange_idx, count') =>
        let feed :=
          {| feed_exchange := strncpy15 exchange;
             feed_symbol := strncpy15 symbol;
             bid_price := bid_price;
             bid_quantity := bid_quantity;
             ask_price := ask_price;
             ask_quantity := ask_quantity;
             timestamp_ns := now |} in
        let row' :=
          {| feeds := <[Z.to_nat exchange_idx := feed]> (feeds sym_prices);
             exchange_count := count';
             sp_symbol := sp_symbol sym_prices |} in
        ({| symbol_index_ := symbol_index_ pm;
            symbol_prices_ := <[Z.to_nat sym_idx := row']> (symbol_prices_ pm);
            symbol_count_ := symbol_count_ pm |},
         count_price d)
    end.

(** A feed is stale when [current_time - timestamp_ns], computed in
    [uint64_t], exceeds one second. *)
Definition stale (current_time : Z) (f : PriceFeed) : bool :=
  wrap64 (current_time - timestamp_ns f) >? STALE_AFTER_NS.

(** The innermost loop body of [detectOpportunities]: the pair
    [(i, j)] of one symbol, both directions. [stamp buy sell] is the
    clock reading a check of that direction takes. *)
Definition detect_pair (current_time : Z) (stamp : Z -> Z -> Z)
    (sp : SymbolPrices) (i : Z) (d : ArbitrageDetector) (j : Z) : ArbitrageDetector :=
  let feed_i := feed_at sp i in
  let feed_j := feed_at sp j in
  if stale current_time feed_j then d
  else
    let d := checkArbitrageOpportunity feed_i feed_j (sp_symbol sp) (stamp i j) d in
    checkArbitrageOpportunity feed_j feed_i (sp_symbol sp) (stamp j i) d.

Definition detect_from (current_time : Z) (stamp : Z -> Z -> Z)
    (sp : SymbolPrices) (d : ArbitrageDetector) (i : Z) : ArbitrageDetector :=
  if stale current_time (feed_at sp i) then d
  else
    fold_left (detect_pair current_time stamp sp i)
      (seqZ (i + 1) (exchange_count sp - (i + 1))) d.

Definition detect_symbol (current_time : Z) (stamp : Z -> Z -> Z -> Z)
    (pm : PriceMatrix) (d : ArbitrageDetector) (sym_idx : Z) : ArbitrageDetector :=
  let sp := symbol_row pm sym_idx in
  if exchange_count sp <? 2 then d
  else fold_left (detect_from current_time (stamp sym_idx) sp)
         (seqZ 0 (exchange_count sp)) d.

(** [detectOpportunities]; [current_time] is the reading taken at the
    start of the pass, [stamp sym buy sell] the one a check takes. *)
Definition detectOpportunities (current_time : Z) (stamp : Z -> Z -> Z -> Z)
    (pm : PriceMatrix) (d : ArbitrageDetector) : ArbitrageDetector :=
  if negb (running_ d) then d
  else fold_left (detect_symbol current_time stamp pm) (seqZ 0 (symbol_count_ pm)) d.

Definition set_running (b : bool) (d : ArbitrageDetector) : ArbitrageDetector :=
  {| config_ := config_ d;
     opportunity_buffer_ := opportunity_buffer_ d;
     detected_count_ := detected_count_ d;
     processed_prices_ := processed_prices_ d;
     running_ := b |}.

Definition start : ArbitrageDetector -> ArbitrageDetector := set_running true.
Definition stop : ArbitrageDetector -> ArbitrageDetector := set_running false.

(** The invariant of the matrix: the table sizes, the counters within
    their limits, an index that maps distinct symbols to distinct
    rows below [symbol_count_], and no venue in the rows not yet given
    out. *)
Definition matrix_ok (pm : PriceMatrix) : Prop :=
  length (symbol_prices_ pm) = Z.to_nat MAX_SYMBOLS /\
  0 <= symbol_count_ pm <= MAX_SYMBOLS /\
  (forall s i, symbol_index_ pm !! s = Some i -> 0 <= i < symbol_count_ pm) /\
  (forall s s' i, symbol_index_ pm !! s = Some i -> symbol_index_ pm !! s' = Some i ->
                  s = s') /\
  (forall i, 0 <= i < MAX_SYMBOLS ->
     length (feeds (symbol_row pm i)) = Z.to_nat MAX_EXCHANGES /\
     0 <= exchange_count (symbol_row pm i) <= MAX_EXCHANGES) /\
  (forall i, symbol_count_ pm <= i < MAX_SYMBOLS ->
     exchange_count (symbol_row pm i) = 0).

(** The slot contents [updatePriceFeed] writes. *)
Definition stored_feed (exchange symbol : string)
    (bid_price bid_quantity ask_price ask_quantity : Q) (now : Z) : PriceFeed :=
  {| feed_exchange := strncpy15 exchange;
     feed_symbol := strncpy15 symbol;
     bid_price := bid_price;
     bid_quantity := bid_quantity;
     ask_price := ask_price;
     ask_quantity := ask_quantity;
     timestamp_ns := now |}.

(** The venues of a row that are in use. *)
Definition venues (sp : SymbolPrices) : list PriceFeed :=
  take (Z.to_nat (exchange_count sp)) (feeds sp).

(** A history of price updates. *)
Record Update := {
  u_exchange : string;
  u_symbol : string;
  u_bid_price : Q;
  u_bid_quantity : Q;
  u_ask_price : Q;
  u_ask_quantity : Q;
  u_now : Z
}.

Definition apply_update (s : PriceMatrix * ArbitrageDetector) (u : Update)
    : PriceMatrix * ArbitrageDetector :=
  updatePriceFeed (u_exchange u) (u_symbol u) (u_bid_price u) (u_bid_quantity u)
    (u_ask_price u) (u_ask_quantity u) (u_now u) (fst s) (snd s).

Definition feed_history (config : ArbitrageConfig) (updates : list Update)
    : PriceMatrix * ArbitrageDetector :=
  fold_left apply_update updates (empty_matrix, make config).


(** [emits d d' new]: from [d] to [d'] the opportunities [new] were
    queued behind the ones waiting, each one counted, and nothing else
    of the detector changed. *)
Definition emits (d d' : ArbitrageDetector) (new : list ArbitrageOpportunity) : Prop :=
  config_ d' = config_ d /\
  running_ d' = running_ d /\
  processed_prices_ d' = processed_prices_ d /\
  RingBuffer.inv (opportunity_buffer_ d') /\
  pending d' = pending d ++ new /\
  (0 <= detected_count_ d < 2 ^ 64 ->
   0 <= detected_count_ d' < 2 ^ 64 /\
   detected_count_ d' = wrap64 (detected_count_ d + Z.of_nat (length new))).

(** No opportunity between two venues: one of the feeds is stale, or
    neither bid exceeds the other's ask. *)
Definition quiet_pair (current_time : Z) (a b : PriceFeed) : Prop :=
  stale current_time a = true \/ stale current_time b = true \/
  ((bid_price b - ask_price a <= 0)%Q /\ (bid_price a - ask_price b <= 0)%Q).

End Arbitrage.

(** ** [checkArbitrageOpportunity] in binary64

    The check divides by [buy.ask_price], which nothing keeps away from
    zero. Here it is read over IEEE 754 binary64 numbers: a quotient by
    zero is an infinity or NaN, and every [<] and [<=] with a NaN
    operand is false. Decimal literals stand for the nearest binary64
    number, as they do in the source. *)

Module ArbitrageIEEE.

Import PrimFloat.

Definition OPPORTUNITY_BUFFER_SIZE : Z := 1024.

Record PriceFeed := {
  feed_exchange : string;
  feed_symbol : string;
  bid_price : float;
  bid_quantity : float;
  ask_price : float;
  ask_quantity : float;
  timestamp_ns : Z
}.

Record ArbitrageOpportunity := {
  opp_id : string;
  opp_symbol : string;
  buy_exchange : string;
  sell_exchange : string;
  buy_price : float;
  sell_price : float;
  max_quantity : float;
  profit_rate : float;
  net_profit : float;
  detected_at_ns : Z;
  valid_until_ns : Z
}.

Record ArbitrageConfig := {
  min_profit_rate : float;
  min_profit_amount : float;
  max_position_size : float;
  opportunity_ttl_ns : Z;
  taker_fees : gmap string float;
  maker_fees : gmap string float
}.

(** The default constructors. *)
Definition default_config : ArbitrageConfig :=
  {| min_profit_rate := 0.001%float;
     min_profit_amount := 10%float;
     max_position_size := 10000%float;
     opportunity_ttl_ns := 500000000;
     taker_fees := ∅;
     maker_fees := ∅ |}.

Definition zero_opportunity : ArbitrageOpportunity :=
  {| opp_id := ""; opp_symbol := ""; buy_exchange := ""; sell_exchange := "";
     buy_price := 0%float; sell_price := 0%float; max_quantity := 0%float;
     profit_rate := 0%float; net_profit := 0%float;
     detected_at_ns := 0; valid_until_ns := 0 |}.

Record ArbitrageDetector := {
  config_ : ArbitrageConfig;
  opportunity_buffer_ : RingBuffer.t ArbitrageOpportunity;
  detected_count_ : Z;
  processed_prices_ : Z;
  running_ : bool
}.

Definition make (config : ArbitrageConfig) : ArbitrageDetector :=
  {| config_ := config;
     opportunity_buffer_ := RingBuffer.make zero_opportunity OPPORTUNITY_BUFFER_SIZE;
     detected_count_ := 0;
     processed_prices_ := 0;
     running_ := false |}.

(** [std::min(a, b)] is [(b < a) ? b : a]. *)
Definition std_min (a b : float) : float := if ltb b a then b else a.

Definition calculateFee (config : ArbitrageConfig) (exchange : string)
    (price : float) (is_taker : bool) : float :=
  let table := if is_taker then taker_fees config else maker_fees config in
  match table !! exchange with
  | Some rate => mul price rate
  | None => mul price 0.001%float
  end.

(** The part of [checkArbitrageOpportunity] before the push. *)
Definition evaluate (config : ArbitrageConfig) (buy sell : PriceFeed)
    (symbol : string) (timestamp : Z) : option ArbitrageOpportunity :=
  (* gross profit *)
  let price_diff := sub (bid_price sell) (ask_price buy) in
  if leb price_diff 0%float then None
  else
    (* profit rate *)
    let profit_rate := div price_diff (ask_price buy) in
    if ltb profit_rate (min_profit_rate config) then None
    else
      (* fees *)
      let buy_fee := calculateFee config (feed_exchange buy) (ask_price buy) true in
      let sell_fee := calculateFee config (feed_exchange sell) (bid_price sell) true in
      let total_fee_rate := div (add buy_fee sell_fee) (ask_price buy) in
      (* net profit rate *)
      let net_profit_rate := sub profit_rate total_fee_rate in
      if ltb net_profit_rate (min_profit_rate config) then None
      else
        (* maximum quantity, under the position size limit *)
        let max_quantity := std_min (ask_quantity buy) (bid_quantity sell) in
        let max_value := mul max_quantity (ask_price buy) in
        let max_quantity :=
          if ltb (max_position_size config) max_value
          then div (max_position_size config) (ask_price buy)
          else max_quantity in
        (* net profit amount *)
        let net_profit :=
          sub (mul max_quantity price_diff) (mul max_quantity (add buy_fee sell_fee)) in
        if ltb net_profit (min_profit_amount config) then None
        else
          Some {| opp_id :=
                    snprintf64 (symbol +:+ "_" +:+ feed_exchange buy +:+ "_"
                                +:+ feed_exchange sell +:+ "_" +:+ pretty timestamp);
                  opp_symbol := strncpy15 symbol;
                  buy_exchange := strncpy15 (feed_exchange buy);
                  sell_exchange := strncpy15 (feed_exchange sell);
                  buy_price := ask_price buy;
                  sell_price := bid_price sell;
                  max_quantity := max_quantity;
                  profit_rate := net_profit_rate;
                  net_profit := net_profit;
                  detected_at_ns := timestamp;
                  valid_until_ns := wrap64 (timestamp + opportunity_ttl_ns config) |}.

(** [checkArbitrageOpportunity]; [timestamp] is the clock reading
    taken for the identifier. *)
Definition checkArbitrageOpportunity (buy sell : PriceFeed) (symbol : string)
    (timestamp : Z) (d : ArbitrageDetector) : ArbitrageDetector :=
  match evaluate (config_ d) buy sell symbol timestamp with
  | None => d
  | Some opportunity =>
      let '(ok, ring) := RingBuffer.push (opportunity_buffer_ d) opportunity in
      {| config_ := config_ d;
         opportunity_buffer_ := ring;
         detected_count_ :=
           if ok then wrap64 (detected_count_ d + 1) else detected_count_ d;
         processed_prices_ := processed_prices_ d;
         running_ := running_ d |}
  end.

Definition pending (d : ArbitrageDetector) : list ArbitrageOpportunity :=
  RingBuffer.contents zero_opportunity (opportunity_buffer_ d).

(** [x != x] holds of NaN only. *)
Definition is_nan (x : float) : bool := negb (eqb x x).

(** What the specification asks of an emitted opportunity, with [>=]
    on binary64 numbers. *)
Definition profitable (config : ArbitrageConfig) (o : ArbitrageOpportunity) : bool :=
  leb (min_profit_amount config) (net_profit o)
  && leb (min_profit_rate config) (profit_rate o).

(** A venue with no ask side, stored as price 0, and a venue bidding
    100. *)
Definition feed_no_ask : PriceFeed :=
  {| feed_exchange := "A"; feed_symbol := "BTCUSDT";
     bid_price := 0%float; bid_quantity := 0%float;
     ask_price := 0%float; ask_quantity := 1%float;
     timestamp_ns := 1000 |}.

Definition feed_bid_100 : PriceFeed :=
  {| feed_exchange := "B"; feed_symbol := "BTCUSDT";
     bid_price := 100%float; bid_quantity := 1%float;
     ask_price := 101%float; ask_quantity := 1%float;
     timestamp_ns := 1000 |}.

End ArbitrageIEEE.

(** ** [src/strategies/market_maker.cpp] *)

Module MarketMaker.

Definition MAX_QUOTES : Z := 20.
Definition QUOTE_BUFFER_SIZE : Z := 1024.
Definition PRICE_HISTORY_SIZE : Z := 1000.

Record MMQuote := {
  q_symbol : string;
  q_exchange : string;
  q_side : Side;
  q_price : Q;
  q_quantity : Q;
  q_level : Z;
  q_timestamp_ns : Z
}.

Record MarketSnapshot := {
  bid_price : Q;
  ask_price : Q;
  mid_price : Q;
  last_price : Q;
  bid_size : Q;
  ask_size : Q;
  volatility : Q;
  market_timestamp_ns : Z
}.

Record InventorySnapshot := {
  position : Q;
  avg_price : Q;
  unrealized_pnl : Q;
  realized_pnl : Q;
  position_value : Q;
  inventory_timestamp_ns : Z
}.

Record MarketMakerConfig := {
  base_spread_bps : Q;
  min_spread_bps : Q;
  max_spread_bps : Q;
  quote_size : Q;
  quote_levels : Z;
  level_spacing_bps : Q;
  max_inventory : Q;
  inventory_skew : Q;
  volatility_factor : Q;
  max_position_value : Q;
  stop_loss_percent : Q;
  max_daily_loss : Q
}.

(** The default constructors. *)
Definition default_config : MarketMakerConfig :=
  {| base_spread_bps := 10 # 1; min_spread_bps := 5 # 1; max_spread_bps := 50 # 1;
     quote_size := 1; quote_levels := 3; level_spacing_bps := 2 # 1;
     max_inventory := 100 # 1; inventory_skew := 1 # 2; volatility_factor := 1;
     max_position_value := 100000 # 1; stop_loss_percent := 2 # 100;
     max_daily_loss := 1000 # 1 |}.

Definition zero_quote : MMQuote :=
  {| q_symbol := ""; q_exchange := ""; q_side := BUY; q_price := 0;
     q_quantity := 0; q_level := 0; q_timestamp_ns := 0 |}.

Definition zero_market : MarketSnapshot :=
  {| bid_price := 0; ask_price := 0; mid_price := 0; last_price := 0;
     bid_size := 0; ask_size := 0; volatility := 0; market_timestamp_ns := 0 |}.

Definition zero_inventory : InventorySnapshot :=
  {| position := 0; avg_price := 0; unrealized_pnl := 0; realized_pnl := 0;
     position_value := 0; inventory_timestamp_ns := 0 |}.

Record MarketMakerEngine := {
  config_ : MarketMakerConfig;
  market_state_ : MarketSnapshot;
  inventory_state_ : InventorySnapshot;
  market_version_ : Z;
  inventory_version_ : Z;
  price_history_ : list Q;
  price_index_ : Z;
  quote_buffer_ : RingBuffer.t MMQuote;
  current_quotes_ : list MMQuote;
  active_quotes_ : Z;
  quotes_generated_ : Z;
  market_updates_ : Z;
  running_ : bool
}.

(** The constructor. *)
Definition make (config : MarketMakerConfig) : MarketMakerEngine :=
  {| config_ := config;
     market_state_ := zero_market;
     inventory_state_ := zero_inventory;
     market_version_ := 0;
     inventory_version_ := 0;
     price_history_ := replicate (Z.to_nat PRICE_HISTORY_SIZE) 0%Q;
     price_index_ := 0;
     quote_buffer_ := RingBuffer.make zero_quote QUOTE_BUFFER_SIZE;
     current_quotes_ := replicate (Z.to_nat MAX_QUOTES) zero_quote;
     active_quotes_ := 0;
     quotes_generated_ := 0;
     market_updates_ := 0;
     running_ := false |}.

Definition set_running (b : bool) (e : MarketMakerEngine) : MarketMakerEngine :=
  {| config_ := config_ e;
     market_state_ := market_state_ e;
     inventory_state_ := inventory_state_ e;
     market_version_ := market_version_ e;
     inventory_version_ := inventory_version_ e;
     price_history_ := price_history_ e;
     price_index_ := price_index_ e;
     quote_buffer_ := quote_buffer_ e;
     current_quotes_ := current_quotes_ e;
     active_quotes_ := active_quotes_ e;
     quotes_generated_ := quotes_generated_ e;
     market_updates_ := market_updates_ e;
     running_ := b |}.

Definition start : MarketMakerEngine -> MarketMakerEngine := set_running true.
Definition stop : MarketMakerEngine -> MarketMakerEngine := set_running false.

Section Libm.

(** [std::log] and [std::sqrt] are not rational functions; the
    volatility is computed relative to them. *)
Variables std_log std_sqrt : Q -> Q.

(** The first loop of [calculateVolatility]: the log returns of the
    neighbouring entries that are both positive, in index order. *)
Fixpoint log_returns (history : list Q) : list Q :=
  match history with
  | prev :: ((cur :: _) as rest) =>
      if Qlt_le_dec 0 cur then
        if Qlt_le_dec 0 prev
        then std_log (cur / prev)%Q :: log_returns rest
        else log_returns rest
      else log_returns rest
  | _ => []
  end.

Definition Qsum (l : list Q) : Q := fold_left Qplus l 0%Q.

Definition calculateVolatility (history : list Q) : Q :=
  let returns := log_returns history in
  let sum := Qsum returns in
  let count := Z.of_nat (length returns) in
  if count <? 2 then 0%Q
  else
    let mean := (sum / inject_Z count)%Q in
    let sum_sq :=
      fold_left (fun acc ret => (acc + (ret - mean) * (ret - mean))%Q) returns 0%Q in
    std_sqrt (sum_sq / inject_Z (count - 1))%Q.

(** [updateMarketData]; [now] is the clock reading. *)
Definition updateMarketData (symbol : string) (bid_price bid_size ask_price ask_size
    last_price : Q) (now : Z) (e : MarketMakerEngine) : MarketMakerEngine :=
  let mid := ((bid_price + ask_price) / (2 # 1))%Q in
  let idx := price_index_ e mod PRICE_HISTORY_SIZE in
  let history := <[Z.to_nat idx := mid]> (price_history_ e) in
  let new_state :=
    {| bid_price := bid_price;
       ask_price := ask_price;
       mid_price := mid;
       last_price := last_price;
       bid_size := bid_size;
       ask_size := ask_size;
       volatility := calculateVolatility history;
       market_timestamp_ns := now |} in
  {| config_ := config_ e;
     market_state_ := new_state;
     inventory_state_ := inventory_state_ e;
     market_version_ := wrap64 (market_version_ e + 1);
     inventory_version_ := inventory_version_ e;
     price_history_ := history;
     price_index_ := wrap64 (price_index_ e + 1);
     quote_buffer_ := quote_buffer_ e;
     current_quotes_ := current_quotes_ e;
     active_quotes_ := active_quotes_ e;
     quotes_generated_ := quotes_generated_ e;
     market_updates_ := wrap64 (market_updates_ e + 1);
     running_ := running_ e |}.

End Libm.

Definition getInventorySkew (config : MarketMakerConfig) (position : Q) : Q :=
  let inventory_ratio := (position / max_inventory config)%Q in
  (1 + inventory_skew config * std_abs inventory_ratio)%Q.

Definition calculateSpread (config : MarketMakerConfig)
    (market : MarketSnapshot) (inventory : InventorySnapshot) : Q :=
  let base_spread := (base_spread_bps config / (10000 # 1))%Q in
  (* volatility adjustment *)
  let vol_factor := (1 + volatility market * volatility_factor config)%Q in
  (* inventory skew *)
  let skew_factor := getInventorySkew config (position inventory) in
  (* final spread *)
  let spread := (base_spread * vol_factor * skew_factor)%Q in
  (* limits *)
  let min_spread := (min_spread_bps config / (10000 # 1))%Q in
  let max_spread := (max_spread_bps config / (10000 # 1))%Q in
  std_max min_spread (std_min max_spread spread).

(** The local [level_spread] of [generateQuoteLevel]; [level] is an
    [int] converted to [double]. *)
Definition level_spread (config : MarketMakerConfig) (spread : Q) (level : Z) : Q :=
  (spread * (1 + inject_Z level * level_spacing_bps config / (10000 # 1)))%Q.

(** The price of a quote at [level] before the inventory skew is
    applied: the first assignment to [quote.price] in
    [generateQuoteLevel]. *)
Definition level_price (config : MarketMakerConfig) (side : Side)
    (mid_price spread : Q) (level : Z) : Q :=
  match side with
  | BUY => (mid_price * (1 - level_spread config spread level))%Q
  | SELL => (mid_price * (1 + level_spread config spread level))%Q
  end.

(** The inventory skew: the in-place multiplication that follows. *)
Definition apply_inventory_skew (config : MarketMakerConfig)
    (inventory : InventorySnapshot) (side : Side) (price : Q) : Q :=
  let inventory_ratio := (position inventory / max_inventory config)%Q in
  let k := (std_abs inventory_ratio * inventory_skew config * (1 # 2))%Q in
  if Qlt_le_dec 0 inventory_ratio then
    (* long position *)
    match side with
    | SELL => (price * (1 - k))%Q
    | BUY => (price * (1 + k))%Q
    end
  else if Qlt_le_dec inventory_ratio 0 then
    (* short position *)
    match side with
    | BUY => (price * (1 + k))%Q
    | SELL => (price * (1 - k))%Q
    end
  else price.

Definition set_quotes (quotes : list MMQuote) (active : Z)
    (e : MarketMakerEngine) : MarketMakerEngine :=
  {| config_ := config_ e;
     market_state_ := market_state_ e;
     inventory_state_ := inventory_state_ e;
     market_version_ := market_version_ e;
     inventory_version_ := inventory_version_ e;
     price_history_ := price_history_ e;
     price_index_ := price_index_ e;
     quote_buffer_ := quote_buffer_ e;
     current_quotes_ := quotes;
     active_quotes_ := active;
     quotes_generated_ := quotes_generated_ e;
     market_updates_ := market_updates_ e;
     running_ := running_ e |}.

(** [generateQuoteLevel]; [now] is the clock reading for the quote.
    When the batch is full the slot counter is put back and nothing
    else happens. *)
Definition generateQuoteLevel (symbol : string) (side : Side)
    (mid_price spread : Q) (level : Z) (now : Z)
    (e : MarketMakerEngine) : MarketMakerEngine :=
  let idx := active_quotes_ e in
  if idx >=? MAX_QUOTES then e
  else
    let quote :=
      {| q_symbol := strncpy15 symbol;
         q_exchange := strncpy15 "binance";
         q_side := side;
         q_price :=
           apply_inventory_skew (config_ e) (inventory_state_ e) side
             (level_price (config_ e) side mid_price spread level);
         q_quantity := quote_size (config_ e);
         q_level := level;
         q_timestamp_ns := now |} in
    set_quotes (<[Z.to_nat idx := quote]> (current_quotes_ e)) (wrap64 (idx + 1)) e.

(** One iteration of the level loop: the bid quote, then the ask. *)
Definition generate_level (clock : Z -> Side -> Z) (mid_price spread : Q)
    (e : MarketMakerEngine) (level : Z) : MarketMakerEngine :=
  let e := generateQuoteLevel "BTCUSDT" BUY mid_price spread level (clock level BUY) e in
  generateQuoteLevel "BTCUSDT" SELL mid_price spread level (clock level SELL) e.

(** One iteration of the push loop: the push, whose result is
    dropped, then the counter. *)
Definition push_quote (e : MarketMakerEngine) (i : Z) : MarketMakerEngine :=
  let '(_, ring) :=
    RingBuffer.push (quote_buffer_ e) (nth (Z.to_nat i) (current_quotes_ e) zero_quote) in
  {| config_ := config_ e;
     market_state_ := market_state_ e;
     inventory_state_ := inventory_state_ e;
     market_version_ := market_version_ e;
     inventory_version_ := inventory_version_ e;
     price_history_ := price_history_ e;
     price_index_ := price_index_ e;
     quote_buffer_ := ring;
     current_quotes_ := current_quotes_ e;
     active_quotes_ := active_quotes_ e;
     quotes_generated_ := wrap64 (quotes_generated_ e + 1);
     market_updates_ := market_updates_ e;
     running_ := running_ e |}.

(** [generateQuotes]; [clock level side] is the clock reading the
    quote of that level and side gets. *)
Definition generateQuotes (clock : Z -> Side -> Z) (e : MarketMakerEngine)
    : MarketMakerEngine :=
  if negb (running_ e) then e
  else
    let market := market_state_ e in
    let inventory := inventory_state_ e in
    (* no market data *)
    if Qle_bool (mid_price market) 0 || Qle_bool (bid_price market) 0
       || Qle_bool (ask_price market) 0
    then e
    else
      let spread := calculateSpread (config_ e) market inventory in
      (* clear existing quotes *)
      let e := set_quotes (current_quotes_ e) 0 e in
      (* one bid and one ask per level *)
      let e := fold_left (generate_level clock (mid_price market) spread)
                 (seqZ 0 (quote_levels (config_ e))) e in
      (* push all quotes to the ring *)
      let quote_count := active_quotes_ e in
      fold_left push_quote (seqZ 0 quote_count) e.

Definition getNextQuote (e : MarketMakerEngine) : option MMQuote * MarketMakerEngine :=
  let '(item, ring) := RingBuffer.pop zero_quote (quote_buffer_ e) in
  (item,
   {| config_ := config_ e;
      market_state_ := market_state_ e;
      inventory_state_ := inventory_state_ e;
      market_version_ := market_version_ e;
      inventory_version_ := inventory_version_ e;
      price_history_ := price_history_ e;
      price_index_ := price_index_ e;
      quote_buffer_ := ring;
      current_quotes_ := current_quotes_ e;
      active_quotes_ := active_quotes_ e;
      quotes_generated_ := quotes_generated_ e;
      market_updates_ := market_updates_ e;
      running_ := running_ e |}).

(** The number of quotes sitting in the outbound ring. *)
Definition queued (e : MarketMakerEngine) : Z := RingBuffer.size (quote_buffer_ e).

(** The size of the batch [generateQuotes] builds: two quotes per
    level, capped at [MAX_QUOTES]. *)
Definition batch_size (config : MarketMakerConfig) : Z :=
  Z.min (2 * Z.max 0 (quote_levels config)) MAX_QUOTES.

(** *** The batch of quotes and the price history *)

(** The number of positive entries of the price history. *)
Fixpoint positives (history : list Q) : nat :=
  match history with
  | [] => 0
  | p :: rest => if Qlt_le_dec 0 p then S (positives rest) else positives rest
  end.

(** The quote [generateQuoteLevel] writes for [level] and [side]. *)
Definition built_quote (config : MarketMakerConfig) (inventory : InventorySnapshot)
    (clock : Z -> Side -> Z) (mid_price spread : Q) (level : Z) (side : Side) : MMQuote :=
  {| q_symbol := strncpy15 "BTCUSDT";
     q_exchange := strncpy15 "binance";
     q_side := side;
     q_price :=
       apply_inventory_skew config inventory side
         (level_price config side mid_price spread level);
     q_quantity := quote_size config;
     q_level := level;
     q_timestamp_ns := clock level side |}.

(** The batch of one call of [generateQuotes]: per level the bid, then
    the ask. *)
Definition batch (clock : Z -> Side -> Z) (e : MarketMakerEngine) : list MMQuote :=
  let market := market_state_ e in
  let spread := calculateSpread (config_ e) market (inventory_state_ e) in
  flat_map
    (fun level =>
       [built_quote (config_ e) (inventory_state_ e) clock (mid_price market) spread level BUY;
        built_quote (config_ e) (inventory_state_ e) clock (mid_price market) spread level SELL])
    (seqZ 0 (quote_levels (config_ e))).

(** *** [SpreadCalculator] *)

Definition volatilityAdjustment (config : MarketMakerConfig) (volatility : Q) : Q :=
  (1 + volatility * volatility_factor config)%Q.

(** [std::pow(x, 2)] is the square. *)
Definition inventoryAdjustment (inventory_ratio : Q) : Q :=
  (1 + (std_abs inventory_ratio * std_abs inventory_ratio) * (1 # 2))%Q.

Definition depthAdjustment (book_depth : Q) : Q :=
  if Qlt_le_dec book_depth (10 # 1) then (12 # 10)%Q
  else if Qlt_le_dec book_depth (50 # 1) then (11 # 10)%Q
  else 1%Q.

Definition calculate (config : MarketMakerConfig)
    (volatility inventory_ratio book_depth : Q) : Q :=
  let base_spread := (base_spread_bps config / (10000 # 1))%Q in
  (* adjustments *)
  let vol_adj := volatilityAdjustment config volatility in
  let inv_adj := inventoryAdjustment inventory_ratio in
  let depth_adj := depthAdjustment book_depth in
  (* combined spread *)
  let spread := (base_spread * vol_adj * inv_adj * depth_adj)%Q in
  (* limits *)
  let min_spread := (min_spread_bps config / (10000 # 1))%Q in
  let max_spread := (max_spread_bps config / (10000 # 1))%Q in
  std_max min_spread (std_min max_spread spread).

(** [getBidAskSpreads]: the pair [(bid_spread, ask_spread)] written
    through the two references. *)
Definition getBidAskSpreads (config : MarketMakerConfig)
    (base_spread inventory_ratio : Q) : Q * Q :=
  let skew_factor := inventory_skew config in
  if Qlt_le_dec 0 inventory_ratio then
    (* long position *)
    ((base_spread * (1 + skew_factor * std_abs inventory_ratio))%Q,
     (base_spread * (1 - skew_factor * std_abs inventory_ratio))%Q)
  else if Qlt_le_dec inventory_ratio 0 then
    (* short position *)
    ((base_spread * (1 - skew_factor * std_abs inventory_ratio))%Q,
     (base_spread * (1 + skew_factor * std_abs inventory_ratio))%Q)
  else (base_spread, base_spread).

(** *** [RiskChecker] *)






End MarketMaker.

(** ** Concrete configurations and inputs

    The values of [tests/test_risk_engine.cpp] and of the scenarios of
    the specification. *)

Module Examples.

(** Risk engine: the configuration and the two orders of
    [test_risk_engine_basic]. *)
Definition risk_config : Risk.RiskConfig :=
  {| Risk.max_position_value := 50000 # 1;
     Risk.max_order_value := 10000 # 1;
     Risk.daily_loss_limit := 5000 # 1;
     Risk.max_open_orders := 10;
     Risk.max_leverage := 10 # 1 |}.

Definition btc_order (qty : Q) : Order :=
  {| id := 0; client_order_id := ""; exchange := BINANCE_SPOT;
     symbol := "BTCUSDT"; side := BUY; type := LIMIT;
     price := 40000 # 1; quantity := qty; executed_quantity := 0;
     status := NEW; time_in_force := GTC; created_at := 0; updated_at := 0 |}.

Definition order1 : Order := btc_order (1 # 10).
Definition order2 : Order := btc_order (1 # 2).

Definition risk_stopped : Risk.RiskEngine := Risk.make risk_config.
Definition risk_started : Risk.RiskEngine :=
  fst (Risk.start (Risk.make risk_config) Risk.empty_log).
Definition risk_log : Risk.Log :=
  snd (Risk.start (Risk.make risk_config) Risk.empty_log).

(** Order manager: three orders per second, rings of eight slots. *)
Definition om_config : OrderMgr.Config :=
  {| OrderMgr.ring_buffer_size := 8;
     OrderMgr.max_orders_per_second := 3;
     OrderMgr.max_active_orders := 1000000;
     OrderMgr.cpu_cores := [2; 3] |}.

Definition om_fresh : OrderMgr.OrderManager := OrderMgr.make om_config 0.

Definition om_batch : list (Z * Order) :=
  [(100, order1); (200, order2); (300, order1); (400, order1); (500, order2)].

(** Arbitrage: scenario 4 of the specification. *)
Definition arb_config : Arbitrage.ArbitrageConfig :=
  {| Arbitrage.min_profit_rate := 1 # 1000;
     Arbitrage.min_profit_amount := 1 # 10;
     Arbitrage.max_position_size := 1000 # 1;
     Arbitrage.opportunity_ttl_ns := 500000000;
     Arbitrage.taker_fees := {[ "A" := (1 # 1000)%Q; "B" := (1 # 1000)%Q ]};
     Arbitrage.maker_fees := ∅ |}.

Definition feed_A : Arbitrage.PriceFeed :=
  {| Arbitrage.feed_exchange := "A"; Arbitrage.feed_symbol := "BTCUSDT";
     Arbitrage.bid_price := 99 # 1; Arbitrage.bid_quantity := 1;
     Arbitrage.ask_price := 100 # 1; Arbitrage.ask_quantity := 1;
     Arbitrage.timestamp_ns := 1000 |}.

Definition feed_B : Arbitrage.PriceFeed :=
  {| Arbitrage.feed_exchange := "B"; Arbitrage.feed_symbol := "BTCUSDT";
     Arbitrage.bid_price := 201 # 2; Arbitrage.bid_quantity := 1;
     Arbitrage.ask_price := 101 # 1; Arbitrage.ask_quantity := 1;
     Arbitrage.timestamp_ns := 1000 |}.

Definition arb_calls : list Arbitrage.call :=
  [Arbitrage.CallCheck feed_A feed_B "BTCUSDT" 2000;
   Arbitrage.CallCheck feed_B feed_A "BTCUSDT" 2001].

(** Market maker: the default configuration, started, after one
    market update (bid 99, ask 101). With one price in the history no
    log return exists and the volatility is [0] whatever [std::log]
    and [std::sqrt] are. *)
Definition mm_started : MarketMaker.MarketMakerEngine :=
  MarketMaker.updateMarketData (fun x => x) (fun x => x)
    "BTCUSDT" (99 # 1) 1 (101 # 1) 1 (100 # 1) 5000
    (MarketMaker.start (MarketMaker.make MarketMaker.default_config)).

Definition mm_clock (level : Z) (s : Side) : Z :=
  6000 + 2 * level + (match s with BUY => 0 | SELL => 1 end).

(** [n] consecutive calls of [generateQuotes] with nobody reading the
    ring. *)
Fixpoint mm_ticks (n : nat) (e : MarketMaker.MarketMakerEngine)
    : MarketMaker.MarketMakerEngine :=
  match n with
  | O => e
  | S n' => mm_ticks n' (MarketMaker.generateQuotes mm_clock e)
  end.

(** After 171 calls, six quotes each, the ring of 1023 usable slots
    is full. *)
Definition mm_full : MarketMaker.MarketMakerEngine := mm_ticks 171 mm_started.


(** Order manager: the clock readings of a dispatch pass. *)
Definition om_clock (v : ExchangeType) : OrderMgr.Readings :=
  {| OrderMgr.t_start_ns := 5000; OrderMgr.t_end_ns := 9500; OrderMgr.now_us := 777 |}.

(** Order manager: one order admitted and dispatched to its venue. *)
Definition om_admitted : OrderMgr.OrderManager :=
  snd (OrderMgr.dispatch_venue om_clock (exchange order1)
         (snd (OrderMgr.SubmitOrder 100 order1 om_fresh))).

(** Arbitrage: two venues quoting one symbol, the second bidding above
    the first one's ask, and a third update that replaces the first. *)
Definition update_A : Arbitrage.Update :=
  {| Arbitrage.u_exchange := "A"; Arbitrage.u_symbol := "BTCUSDT";
     Arbitrage.u_bid_price := 99 # 1; Arbitrage.u_bid_quantity := 1;
     Arbitrage.u_ask_price := 100 # 1; Arbitrage.u_ask_quantity := 1;
     Arbitrage.u_now := 1000 |}.

Definition update_B : Arbitrage.Update :=
  {| Arbitrage.u_exchange := "B"; Arbitrage.u_symbol := "BTCUSDT";
     Arbitrage.u_bid_price := 201 # 2; Arbitrage.u_bid_quantity := 1;
     Arbitrage.u_ask_price := 101 # 1; Arbitrage.u_ask_quantity := 1;
     Arbitrage.u_now := 1000 |}.

Definition arb_fed : Arbitrage.PriceMatrix * Arbitrage.ArbitrageDetector :=
  Arbitrage.feed_history arb_config [update_A; update_B].

(** Ten venues quoting one symbol: the row is full. *)
Definition ten_venues : list Arbitrage.Update :=
  map (fun name =>
         {| Arbitrage.u_exchange := name; Arbitrage.u_symbol := "BTCUSDT";
            Arbitrage.u_bid_price := 99 # 1; Arbitrage.u_bid_quantity := 1;
            Arbitrage.u_ask_price := 100 # 1; Arbitrage.u_ask_quantity := 1;
            Arbitrage.u_now := 1000 |})
      ["A"; "B"; "C"; "D"; "E"; "F"; "G"; "H"; "I"; "J"].

Definition arb_full_row : Arbitrage.PriceMatrix * Arbitrage.ArbitrageDetector :=
  Arbitrage.feed_history arb_config ten_venues.

Definition arb_stamp : Z -> Z -> Z -> Z := fun _ buy sell => 2000 + buy.

End Examples.

Import Examples.

(** * Facts about the ring buffer *)

Section PowerOfTwo.

Import RingBuffer.

Lemma smeared_init n : smeared n 1 n.
Proof.
  intros i Hi. split.
  - intros H. exists 0. split; [lia|]. now rewrite Z.add_0_r.
  - intros (d & Hd & H). assert (d = 0) by lia. subst d.
    now rewrite Z.add_0_r in H.
Qed.

Lemma smeared_step n a b x :
  0 < a -> b = 2 * a -> smeared n a x -> smeared n b (Z.lor x (Z.shiftr x a)).
Proof.
  intros Ha -> Hx i Hi.
  rewrite Z.lor_spec, Z.shiftr_spec by lia.
  rewrite orb_true_iff, (Hx i Hi), (Hx (i + a)) by lia.
  split.
  - intros [(d & Hd & H) | (d & Hd & H)].
    + exists d. split; [lia | exact H].
    + exists (a + d). split; [lia|]. now replace (i + (a + d)) with (i + a + d) by lia.
  - intros (d & Hd & H).
    destruct (Z_lt_ge_dec d a) as [Hlt | Hge].
    + left. exists d. split; [lia | exact H].
    + right. exists (d - a). split; [lia|].
      now replace (i + a + (d - a)) with (i + d) by lia.
Qed.

Lemma smeared_ones n x :
  0 < n < 2 ^ 64 -> smeared n 64 x -> 0 <= x -> x = Z.ones (Z.log2 n + 1).
Proof.
  intros Hn Hx Hx0.
  assert (Hlog : 0 <= Z.log2 n < 64).
  { split; [apply Z.log2_nonneg|]. apply Z.log2_lt_pow2; lia. }
  apply Z.bits_inj'. intros i Hi.
  rewrite Z.testbit_ones_nonneg by lia.
  apply eq_true_iff_eq. rewrite (Hx i Hi), Z.ltb_lt. split.
  - intros (d & Hd & H).
    destruct (Z_lt_ge_dec (Z.log2 n) (i + d)) as [Hgt | Hle]; [|lia].
    rewrite Z.bits_above_log2 in H by lia. discriminate.
  - intros Hlt. exists (Z.log2 n - i). split; [lia|].
    replace (i + (Z.log2 n - i)) with (Z.log2 n) by lia.
    apply Z.bit_log2. lia.
Qed.

Lemma next_power_of_two_spec c :
  1 <= c <= 2 ^ 63 ->
  exists k, 0 <= k <= 63 /\ next_power_of_two c = 2 ^ k /\ c <= 2 ^ k.
Proof.
  intros Hc. unfold next_power_of_two.
  assert (Hw : wrap64 (c - 1) = c - 1) by (unfold wrap64; apply Z.mod_small; lia).
  rewrite Hw. set (n := c - 1).
  destruct (Z.eq_dec n 0) as [H0 | Hne].
  - rewrite H0. exists 0. cbn. split; [lia|]. split; [reflexivity | lia].
  - assert (Hn : 0 < n < 2 ^ 63) by lia.
    assert (Hlog : 0 <= Z.log2 n < 63).
    { split; [apply Z.log2_nonneg|]. apply Z.log2_lt_pow2; lia. }
    cbv zeta.
    set (x1 := Z.lor n (Z.shiftr n 1)).
    set (x2 := Z.lor x1 (Z.shiftr x1 2)).
    set (x3 := Z.lor x2 (Z.shiftr x2 4)).
    set (x4 := Z.lor x3 (Z.shiftr x3 8)).
    set (x5 := Z.lor x4 (Z.shiftr x4 16)).
    set (x6 := Z.lor x5 (Z.shiftr x5 32)).
    assert (S1 : smeared n 2 x1) by (apply (smeared_step n 1); [lia | lia | apply smeared_init]).
    assert (S2 : smeared n 4 x2) by (apply (smeared_step n 2); [lia | lia | exact S1]).
    assert (S3 : smeared n 8 x3) by (apply (smeared_step n 4); [lia | lia | exact S2]).
    assert (S4 : smeared n 16 x4) by (apply (smeared_step n 8); [lia | lia | exact S3]).
    assert (S5 : smeared n 32 x5) by (apply (smeared_step n 16); [lia | lia | exact S4]).
    assert (S6 : smeared n 64 x6) by (apply (smeared_step n 32); [lia | lia | exact S5]).
    apply smeared_ones in S6; [|lia|].
    + rewrite S6. rewrite Z.ones_equiv.
      replace (Z.pred (2 ^ (Z.log2 n + 1)) + 1) with (2 ^ (Z.log2 n + 1)) by lia.
      exists (Z.log2 n + 1).
      assert (Hp : 2 ^ (Z.log2 n + 1) <= 2 ^ 63) by (apply Z.pow_le_mono_r; lia).
      assert (Hp0 : 0 < 2 ^ (Z.log2 n + 1)) by (apply Z.pow_pos_nonneg; lia).
      split; [lia|]. split.
      * unfold wrap64. apply Z.mod_small. lia.
      * pose proof (Z.log2_spec n ltac:(lia)) as [_ Hu].
        replace (Z.succ (Z.log2 n)) with (Z.log2 n + 1) in Hu by lia. lia.
    + subst x1 x2 x3 x4 x5 x6.
      repeat (apply Z.lor_nonneg; split; [|apply Z.shiftr_nonneg]); lia.
Qed.

End PowerOfTwo.

Lemma mod_add_small a b c :
  0 <= a < c -> 0 <= b < c ->
  (a + b) mod c = if a + b <? c then a + b else a + b - c.
Proof.
  intros Ha Hb. destruct (Z.ltb_spec (a + b) c).
  - apply Z.mod_small. lia.
  - symmetry. apply (Z.mod_unique_pos _ _ 1); lia.
Qed.

Lemma mod_sub_small a b c :
  0 <= a < c -> 0 <= b < c ->
  (a - b) mod c = if b <=? a then a - b else a - b + c.
Proof.
  intros Ha Hb. destruct (Z.leb_spec b a).
  - apply Z.mod_small. lia.
  - symmetry. apply (Z.mod_unique_pos _ _ (-1)); lia.
Qed.

Section RingFacts.

Context {T : Type} (dflt : T).
Implicit Types r : RingBuffer.t T.

Import RingBuffer.

Lemma inv_capacity_pos r : inv r -> 1 <= capacity_ r <= 2 ^ 63.
Proof.
  intros ((k & Hk & Hc) & _). rewrite Hc. split.
  - assert (0 < 2 ^ k) by (apply Z.pow_pos_nonneg; lia). lia.
  - apply Z.pow_le_mono_r; lia.
Qed.

Lemma land_mask r x :
  inv r -> Z.land (wrap64 x) (mask_ r) = x mod capacity_ r.
Proof.
  intros ((k & Hk & Hc) & Hm & _). rewrite Hm, Hc.
  replace (2 ^ k - 1) with (Z.ones k) by (rewrite Z.ones_equiv; lia).
  rewrite Z.land_ones by lia. unfold wrap64.
  apply Z.mod_mod_divide. exists (2 ^ (64 - k)).
  rewrite <- Z.pow_add_r by lia. f_equal. lia.
Qed.

Lemma inv_make c : 1 <= c <= 2 ^ 63 -> inv (make dflt c).
Proof.
  intros Hc. destruct (next_power_of_two_spec c Hc) as (k & Hk & Hp & Hle).
  unfold inv, make. cbn. rewrite Hp.
  assert (0 < 2 ^ k) by (apply Z.pow_pos_nonneg; lia).
  assert (2 ^ k <= 2 ^ 63) by (apply Z.pow_le_mono_r; lia).
  split; [exists k; split; [lia | reflexivity]|].
  split; [unfold wrap64; apply Z.mod_small; lia|].
  split; [apply length_replicate|]. lia.
Qed.

Lemma size_eq r :
  inv r -> size r = (producer_head r - consumer_tail r) mod capacity_ r.
Proof. intros H. unfold size. now apply land_mask. Qed.

Lemma size_cases r :
  inv r ->
  size r = if consumer_tail r <=? producer_head r
           then producer_head r - consumer_tail r
           else producer_head r - consumer_tail r + capacity_ r.
Proof.
  intros H. rewrite size_eq by assumption.
  destruct H as (_ & _ & _ & Hh & Ht). now apply mod_sub_small.
Qed.

Lemma size_range r : inv r -> 0 <= size r <= capacity_ r - 1.
Proof.
  intros H. rewrite size_cases by assumption.
  destruct H as (_ & _ & _ & Hh & Ht).
  destruct (Z.leb_spec (consumer_tail r) (producer_head r)); lia.
Qed.

Lemma next_index r i :
  inv r -> 0 <= i < capacity_ r ->
  Z.land (wrap64 (i + 1)) (mask_ r) = if i + 1 <? capacity_ r then i + 1 else 0.
Proof.
  intros H Hi. rewrite land_mask by assumption.
  pose proof (inv_capacity_pos r H).
  destruct (Z.eq_dec (capacity_ r) 1) as [E | NE].
  - rewrite E. rewrite Z.mod_1_r. destruct (Z.ltb_spec (i + 1) 1); lia.
  - rewrite mod_add_small by lia.
    destruct (Z.ltb_spec (i + 1) (capacity_ r)); lia.
Qed.

Lemma push_false_iff r item :
  inv r -> fst (push r item) = false <-> size r = capacity r - 1.
Proof.
  intros H. unfold push, capacity.
  rewrite size_cases by assumption.
  pose proof H as (_ & _ & _ & Hh & Ht).
  rewrite next_index by assumption.
  destruct (Z.ltb_spec (producer_head r + 1) (capacity_ r));
    destruct (Z.leb_spec (consumer_tail r) (producer_head r));
    match goal with |- context [?a =? ?b] => destruct (Z.eqb_spec a b) end;
    cbn; split; intros; try lia; try discriminate; try reflexivity.
Qed.

Lemma pop_none_iff r :
  fst (pop dflt r) = None <-> producer_head r = consumer_tail r.
Proof.
  unfold pop.
  destruct (Z.eqb_spec (consumer_tail r) (producer_head r)); cbn; split;
    intros; try congruence; try discriminate.
Qed.

Lemma inv_push r item : inv r -> inv (snd (push r item)).
Proof.
  intros H. unfold push.
  destruct (_ =? _) eqn:E; cbn; [assumption|].
  pose proof H as (Hk & Hm & Hl & Hh & Ht).
  unfold inv; cbn. repeat split; try assumption; try lia.
  - now rewrite length_insert.
  - rewrite next_index by assumption. destruct (_ <? _); lia.
  - rewrite next_index by assumption.
    destruct (Z.ltb_spec (producer_head r + 1) (capacity_ r)); lia.
Qed.

Lemma inv_pop r : inv r -> inv (snd (pop dflt r)).
Proof.
  intros H. unfold pop.
  destruct (_ =? _) eqn:E; cbn; [assumption|].
  pose proof H as (Hk & Hm & Hl & Hh & Ht).
  unfold inv; cbn. repeat split; try assumption; try lia.
  - rewrite next_index by assumption. destruct (_ <? _); lia.
  - rewrite next_index by assumption.
    destruct (Z.ltb_spec (consumer_tail r + 1) (capacity_ r)); lia.
Qed.

Lemma inv_step r o : inv r -> inv (step dflt r o).
Proof. destruct o; cbn; [apply inv_push | apply inv_pop]. Qed.

Lemma inv_fold ops r : inv r -> inv (fold_left (step dflt) ops r).
Proof.
  revert r. induction ops as [|o ops IH]; intros r H; cbn; [assumption|].
  apply IH. now apply inv_step.
Qed.

Lemma inv_run c ops : 1 <= c <= 2 ^ 63 -> inv (run dflt c ops).
Proof. intros Hc. unfold run. apply inv_fold. now apply inv_make. Qed.

End RingFacts.

Section RingQueue.

Context {T : Type} (dflt : T).
Implicit Types r : RingBuffer.t T.

Import RingBuffer.

Lemma size_zero_iff r : inv r -> size r = 0 <-> producer_head r = consumer_tail r.
Proof.
  intros H. rewrite size_cases by assumption.
  destruct H as (_ & _ & _ & Hh & Ht).
  destruct (Z.leb_spec (consumer_tail r) (producer_head r)); lia.
Qed.

Lemma contents_length r : inv r -> Z.of_nat (length (contents dflt r)) = size r.
Proof.
  intros H. unfold contents. rewrite length_fmap, length_seqZ.
  pose proof (size_range r H). lia.
Qed.

Lemma contents_nil_iff r :
  inv r -> contents dflt r = [] <-> producer_head r = consumer_tail r.
Proof.
  intros H. rewrite <- size_zero_iff by assumption.
  rewrite <- contents_length by assumption.
  destruct (contents dflt r); cbn; split; intros; try reflexivity; try discriminate; lia.
Qed.

Lemma size_push r item :
  inv r -> fst (push r item) = true -> size (snd (push r item)) = size r + 1.
Proof.
  intros H Hok.
  pose proof (inv_push r item H) as H'.
  rewrite (size_cases _ H'), (size_cases _ H).
  revert Hok H'. unfold push.
  pose proof H as (_ & _ & _ & Hh & Ht).
  rewrite next_index by assumption.
  destruct (Z.ltb_spec (producer_head r + 1) (capacity_ r));
    match goal with |- context [?a =? ?b] => destruct (Z.eqb_spec a b) end;
    cbn; intros Hok _; try discriminate;
    repeat match goal with |- context [?a <=? ?b] => destruct (Z.leb_spec a b) end; lia.
Qed.

Lemma contents_push r item :
  inv r -> fst (push r item) = true ->
  contents dflt (snd (push r item)) = contents dflt r ++ [item].
Proof.
  intros H Hok.
  pose proof (size_push r item H Hok) as Hsz.
  pose proof (size_range r H) as Hr.
  pose proof (inv_capacity_pos r H) as Hc.
  pose proof H as (_ & _ & Hl & Hh & Ht).
  unfold contents at 1. rewrite Hsz.
  assert (Hnf : size r <> capacity_ r - 1).
  { intros E. apply (push_false_iff r item H) in E. congruence. }
  revert Hok. unfold push.
  destruct (_ =? _) eqn:E; cbn; [discriminate|]. intros _.
  rewrite seqZ_app by lia. rewrite fmap_app. f_equal.
  - unfold contents. apply list_fmap_ext. intros n i Hi.
    apply lookup_seqZ in Hi as [-> Hn].
    rewrite !nth_lookup. rewrite list_lookup_insert_ne; [reflexivity|].
    intros Heq. apply Z2Nat.inj in Heq; [| lia |].
    2: { pose proof (Z.mod_pos_bound (consumer_tail r + (0 + Z.of_nat n)) (capacity_ r)). lia. }
    symmetry in Heq.
    rewrite mod_add_small in Heq by lia.
    revert Heq Hn. rewrite (size_cases _ H).
    destruct (Z.leb_spec (consumer_tail r) (producer_head r));
      destruct (Z.ltb_spec (consumer_tail r + (0 + Z.of_nat n)) (capacity_ r)); lia.
  - rewrite Z.add_0_l.
    replace (seqZ (size r) 1) with [size r] by (cbn; f_equal; lia).
    cbn. f_equal.
    assert (Hpos : (consumer_tail r + size r) mod capacity_ r = producer_head r).
    { rewrite (size_cases _ H), mod_add_small;
        destruct (Z.leb_spec (consumer_tail r) (producer_head r));
        try match goal with |- context [?a <? ?b] => destruct (Z.ltb_spec a b) end; lia. }
    rewrite Hpos, nth_lookup, list_lookup_insert_eq; [reflexivity|]. lia.
Qed.

Lemma contents_pop r :
  inv r -> producer_head r <> consumer_tail r ->
  exists x, fst (pop dflt r) = Some x /\
            contents dflt r = x :: contents dflt (snd (pop dflt r)).
Proof.
  intros H Hne.
  pose proof (inv_pop dflt r H) as H'.
  pose proof (size_range r H) as Hr.
  pose proof (inv_capacity_pos r H) as Hc.
  pose proof H as (_ & _ & Hl & Hh & Ht).
  assert (Hsz : size r = size (snd (pop dflt r)) + 1).
  { rewrite (size_cases _ H'), (size_cases _ H). revert H'. unfold pop.
    destruct (Z.eqb_spec (consumer_tail r) (producer_head r)); [congruence|].
    cbn. intros _. rewrite next_index by assumption.
    destruct (Z.ltb_spec (consumer_tail r + 1) (capacity_ r));
      repeat match goal with |- context [?a <=? ?b] => destruct (Z.leb_spec a b) end; lia. }
  pose proof (size_range _ H') as Hr'.
  unfold contents at 1. rewrite Hsz.
  replace (size (snd (pop dflt r)) + 1) with (1 + size (snd (pop dflt r))) by lia.
  rewrite seqZ_app by lia. rewrite fmap_app.
  revert Hsz Hr'. unfold pop.
  destruct (Z.eqb_spec (consumer_tail r) (producer_head r)); [congruence|].
  cbn [fst snd]. intros Hsz Hr'.
  eexists. split; [reflexivity|].
  replace (seqZ 0 1) with [0] by reflexivity. cbn [fmap list_fmap app].
  f_equal.
  - rewrite Z.add_0_r, Z.mod_small by lia. reflexivity.
  - unfold contents. cbn [consumer_tail capacity_ buffer_].
    rewrite Z.add_0_l. rewrite <- (fmap_add_seqZ 1 0).
    rewrite <- list_fmap_compose. apply list_fmap_ext. intros j i Hi.
    cbn. do 2 f_equal.
    rewrite land_mask by assumption.
    rewrite Z.add_mod_idemp_l by lia. f_equal. lia.
Qed.

Lemma push_all_contents items : forall r r',
  inv r -> push_all r items = Some r' ->
  inv r' /\ contents dflt r' = contents dflt r ++ items.
Proof.
  induction items as [|x items IH]; intros r r' H Hp; cbn in Hp.
  - injection Hp as <-. split; [assumption|]. now rewrite app_nil_r.
  - destruct (push r x) as [ok r1] eqn:E. destruct ok; [|discriminate].
    assert (Hok : fst (push r x) = true) by now rewrite E.
    pose proof (contents_push r x H Hok) as Hc.
    pose proof (inv_push r x H) as H1. rewrite E in Hc, H1. cbn in Hc, H1.
    destruct (IH r1 r' H1 Hp) as [Hi Hcs]. split; [assumption|].
    rewrite Hcs, Hc, <- app_assoc. reflexivity.
Qed.

Lemma pop_n_contents xs : forall r rest,
  inv r -> contents dflt r = xs ++ rest ->
  exists r', pop_n dflt r (length xs) = Some (xs, r') /\
             inv r' /\ contents dflt r' = rest.
Proof.
  induction xs as [|x xs IH]; intros r rest H Hc; cbn.
  - exists r. auto.
  - assert (Hne : producer_head r <> consumer_tail r).
    { intros E. apply (contents_nil_iff r H) in E. rewrite E in Hc. discriminate. }
    destruct (contents_pop r H Hne) as (y & Hy & Hcy).
    pose proof (inv_pop dflt r H) as H1.
    destruct (pop dflt r) as [o r1]. cbn in Hy, Hcy, H1. subst o.
    rewrite Hcy in Hc. cbn in Hc. injection Hc as -> Hc.
    destruct (IH r1 rest H1 Hc) as (r' & Hp & Hi & Hr).
    exists r'. rewrite Hp. auto.
Qed.

End RingQueue.

Section RingClaims.

Context {T : Type} (dflt : T).

Import RingBuffer.

(** C2. For a ring built with a requested capacity between 1 and 2^63
    and then used through any history of pushes and pops: [push]
    returns [false] exactly when [size() == capacity() - 1], [pop]
    returns [false] exactly when [head == tail], both calls return (they
    are total, loop-free functions), and [0 <= size() <= capacity() - 1]. *)
Theorem ring_push_pop_failure (c : Z) (ops : list (op (T:=T))) (item : T) :
  1 <= c <= 2 ^ 63 ->
  let r := run dflt c ops in
  (fst (push r item) = false <-> size r = capacity r - 1) /\
  (fst (pop dflt r) = None <-> producer_head r = consumer_tail r) /\
  (exists b r', push r item = (b, r')) /\
  (exists o r', pop dflt r = (o, r')) /\
  0 <= size r <= capacity r - 1.
Proof.
  intros Hc r.
  assert (H : inv r) by (apply inv_run; assumption).
  split; [apply push_false_iff; assumption|].
  split; [apply pop_none_iff|].
  split; [destruct (push r item) as [b r']; eauto|].
  split; [destruct (pop dflt r) as [o r']; eauto|].
  apply size_range; assumption.
Qed.

(** C3. A sequence [S] of pushes that all succeed, followed by [|S|]
    pops: every pop succeeds and the pops return the [|S|] oldest
    queued elements in push order. When [S] is all the ring holds, that
    is, when the ring (freshly built, or drained by its history) was
    empty before the pushes, the pops return exactly [S] and leave the
    ring empty again. *)
Theorem ring_fifo_round_trip (c : Z) (ops : list (op (T:=T))) (S : list T)
    (r' : t T) :
  1 <= c <= 2 ^ 63 ->
  push_all (run dflt c ops) S = Some r' ->
  exists xs r'',
    pop_n dflt r' (length S) = Some (xs, r'') /\
    xs = take (length S) (contents dflt (run dflt c ops) ++ S) /\
    (empty (run dflt c ops) = true -> xs = S /\ empty r'' = true).
Proof.
  intros Hc Hp.
  assert (H : inv (run dflt c ops)) by (apply inv_run; assumption).
  destruct (push_all_contents dflt S _ _ H Hp) as [H' Hcs].
  set (all := contents dflt (run dflt c ops) ++ S) in *.
  assert (Hlen : length (take (length S) all) = length S).
  { rewrite length_take. unfold all. rewrite length_app. lia. }
  destruct (pop_n_contents dflt (take (length S) all) r' (drop (length S) all) H')
    as (r'' & Hpop & Hi & Hrest).
  { now rewrite take_drop. }
  rewrite Hlen in Hpop.
  exists (take (length S) all), r''. split; [assumption|]. split; [reflexivity|].
  intros He. apply Z.eqb_eq in He.
  apply (contents_nil_iff dflt _ H) in He.
  assert (Hall : all = S) by (unfold all; now rewrite He).
  rewrite Hall in Hrest |- *. rewrite firstn_all. split; [reflexivity|].
  rewrite drop_all in Hrest.
  apply Z.eqb_eq. now apply (contents_nil_iff dflt r'' Hi).
Qed.

(** C6 (as the code has it). A ring built with requested capacity 4
    has capacity 4; from empty, three pushes succeed and a fourth
    returns [false] without changing the ring; two pops then return the
    first two items, and two further pushes both succeed. *)
Theorem ring_wrap_capacity_four (x1 x2 x3 x4 y1 y2 : T) :
  let r0 := make dflt 4 in
  let r1 := snd (push r0 x1) in
  let r2 := snd (push r1 x2) in
  let r3 := snd (push r2 x3) in
  let r4 := snd (pop dflt r3) in
  let r5 := snd (pop dflt r4) in
  let r6 := snd (push r5 y1) in
  capacity r0 = 4 /\
  fst (push r0 x1) = true /\ fst (push r1 x2) = true /\ fst (push r2 x3) = true /\
  push r3 x4 = (false, r3) /\
  fst (pop dflt r3) = Some x1 /\ fst (pop dflt r4) = Some x2 /\
  fst (push r5 y1) = true /\ fst (push r6 y2) = true.
Proof. vm_compute. repeat split. Qed.

End RingClaims.

Lemma ring_push_pop_failure_witness :
  let r := RingBuffer.run 0 4 [RingBuffer.OpPush 7; RingBuffer.OpPush 8; RingBuffer.OpPop] in
  1 <= 4 <= 2 ^ 63 /\
  (fst (RingBuffer.push r 9) = false <-> RingBuffer.size r = RingBuffer.capacity r - 1) /\
  (fst (RingBuffer.pop 0 r) = None <->
     RingBuffer.producer_head r = RingBuffer.consumer_tail r) /\
  (exists b r', RingBuffer.push r 9 = (b, r')) /\
  (exists o r', RingBuffer.pop 0 r = (o, r')) /\
  0 <= RingBuffer.size r <= RingBuffer.capacity r - 1.
Proof.
  intros r. split; [lia|].
  apply (ring_push_pop_failure 0 4
           [RingBuffer.OpPush 7; RingBuffer.OpPush 8; RingBuffer.OpPop] 9).
  lia.
Defined.

Lemma ring_fifo_round_trip_witness :
  exists r'',
    RingBuffer.pop_n 0
      (snd (RingBuffer.push (snd (RingBuffer.push
         (RingBuffer.run 0 4 [RingBuffer.OpPush 7; RingBuffer.OpPush 8;
                              RingBuffer.OpPop; RingBuffer.OpPop]) 1)) 2))
      (length [1; 2]) = Some ([1; 2], r'') /\
    RingBuffer.empty r'' = true.
Proof.
  pose (ops := [RingBuffer.OpPush 7; RingBuffer.OpPush 8;
                RingBuffer.OpPop; RingBuffer.OpPop]).
  assert (Hc : 1 <= 4 <= 2 ^ 63) by lia.
  assert (Hp : RingBuffer.push_all (RingBuffer.run 0 4 ops) [1; 2]
               = Some (snd (RingBuffer.push (snd (RingBuffer.push
                              (RingBuffer.run 0 4 ops) 1)) 2)))
    by (vm_compute; reflexivity).
  assert (He : RingBuffer.empty (RingBuffer.run 0 4 ops) = true)
    by (vm_compute; reflexivity).
  destruct (ring_fifo_round_trip 0 4 ops [1; 2] _ Hc Hp) as (xs & r'' & Hpop & _ & Hs).
  destruct (Hs He) as [-> Hempty].
  exists r''. split; assumption.
Defined.

(** C6 as stated fails: on a ring of capacity 4 the third push
    succeeds. *)
Lemma ring_wrap_third_push_succeeds :
  let r0 := RingBuffer.make 0 4 in
  let r1 := snd (RingBuffer.push r0 10) in
  let r2 := snd (RingBuffer.push r1 20) in
  RingBuffer.capacity r0 = 4 /\ fst (RingBuffer.push r2 30) <> false.
Proof. vm_compute. split; [reflexivity | discriminate]. Qed.

(** * Facts about the risk engine *)

Section RiskFacts.

Import Risk.



Lemma checkOrder_stopped t_start t_end o e l :
  running_ e = false -> checkOrder t_start t_end o e l = (false, e, l).
Proof. intros Hr. unfold checkOrder. now rewrite Hr. Qed.

End RiskFacts.

Section RiskClaims.

Import Risk.

(** C4. [checkOrder] accepts an order whose value is NaN. On a running
    engine with no position, no loss and no open order and the default
    limits, a buy order with price NaN is answered [true]: the order
    value and the prospective position value are NaN, and neither
    [order_value > max_order_value] nor
    [|new_position_value| > max_position_value] is true of a NaN. Gates
    (1) and (2), as [<=] tests, are false of it. *)
Theorem checkOrder_accepts_nan_price :
  RiskIEEE.checkOrder RiskIEEE.default_config RiskIEEE.idle_engine RiskIEEE.nan_order = true /\
  RiskIEEE.gate_order_value RiskIEEE.default_config RiskIEEE.nan_order = false /\
  RiskIEEE.gate_position_value RiskIEEE.default_config RiskIEEE.idle_engine
    RiskIEEE.nan_order = false.
Proof. vm_compute. repeat split. Qed.

(** The second sentence of the claim stands in binary64 too. *)
Lemma checkOrder_ieee_not_running (config : RiskIEEE.RiskConfig) (e : RiskIEEE.EngineView)
    (order : RiskIEEE.OrderView) :
  RiskIEEE.running_ e = false -> RiskIEEE.checkOrder config e order = false.
Proof. intros H. unfold RiskIEEE.checkOrder. now rewrite H. Qed.


(** C10. When the engine is not running, [checkOrder] returns [false]
    and changes nothing: the engine, with its two statistics counters
    and what [getTotalChecks] and [getAverageLatencyUs] report, and the
    log are what they were. *)
Theorem checkOrder_not_running_frame (t_start t_end : Z) (o : Order)
    (e : RiskEngine) (l : Log) :
  running_ e = false ->
  let '(passed, e', l') := checkOrder t_start t_end o e l in
  passed = false /\ e' = e /\ l' = l /\
  getTotalChecks e' = getTotalChecks e /\
  total_latency_ns_ e' = total_latency_ns_ e /\
  getAverageLatencyUs e' = getAverageLatencyUs e.
Proof.
  intros Hr. rewrite checkOrder_stopped by assumption. repeat split.
Qed.

End RiskClaims.



Lemma checkOrder_not_running_frame_witness :
  Risk.running_ risk_stopped = false /\
  let '(passed, e', l') := Risk.checkOrder 100 350 order1 risk_stopped Risk.empty_log in
  passed = false /\ e' = risk_stopped /\ l' = Risk.empty_log /\
  Risk.getTotalChecks e' = Risk.getTotalChecks risk_stopped /\
  Risk.total_latency_ns_ e' = Risk.total_latency_ns_ risk_stopped /\
  Risk.getAverageLatencyUs e' = Risk.getAverageLatencyUs risk_stopped.
Proof.
  split; [reflexivity|].
  apply (checkOrder_not_running_frame 100 350 order1 risk_stopped Risk.empty_log).
  reflexivity.
Defined.


(** The two checks of [test_risk_engine_basic]. *)
Example checkOrder_test_basic :
  fst (fst (Risk.checkOrder 100 350 order1 risk_started risk_log)) = true /\
  fst (fst (Risk.checkOrder 100 350 order2 risk_started risk_log)) = false.
Proof. vm_compute. split; reflexivity. Qed.

(** * Facts about the order manager *)

Section OrderManagerFacts.

Import OrderMgr.

Lemma capacity_push {T} (r : RingBuffer.t T) item :
  RingBuffer.capacity (snd (RingBuffer.push r item)) = RingBuffer.capacity r.
Proof. unfold RingBuffer.push. destruct (_ =? _); reflexivity. Qed.

(** Inside the window, below the limit, with room in the rings: the
    order is admitted. *)
Lemma SubmitOrder_admit now o m k :
  now - last_rate_check_ m < ONE_SECOND_NS ->
  0 <= orders_this_second_ m < max_orders_per_second (config_ m) ->
  orders_this_second_ m + 1 < 2 ^ 32 ->
  0 <= k -> rings_room (k + 1) m ->
  exists m',
    SubmitOrder now o m = (true, m') /\
    config_ m' = config_ m /\ stats_ m' = stats_ m /\
    orders_this_second_ m' = orders_this_second_ m + 1 /\
    last_rate_check_ m' = last_rate_check_ m /\
    rings_room k m'.
Proof.
  intros Hw Hc Hb Hk Hr. unfold SubmitOrder.
  destruct (Z.geb_spec (now - last_rate_check_ m) ONE_SECOND_NS); [lia|].
  destruct (Z.geb_spec (orders_this_second_ m) (max_orders_per_second (config_ m))); [lia|].
  destruct (Hr (exchange o)) as [Hi Hs].
  pose proof (push_false_iff (order_queues_ m (exchange o)) o Hi) as Hf.
  pose proof (size_push (order_queues_ m (exchange o)) o Hi) as Hsz.
  pose proof (inv_push (order_queues_ m (exchange o)) o Hi) as Hi'.
  pose proof (capacity_push (order_queues_ m (exchange o)) o) as Hcap.
  destruct (RingBuffer.push (order_queues_ m (exchange o)) o) as [ok q'].
  cbn [fst snd] in *.
  destruct ok; [|exfalso; assert (false = false) as E by reflexivity;
                  apply Hf in E; lia].
  cbn [negb]. eexists. split; [reflexivity|]. cbn.
  split; [reflexivity|]. split; [reflexivity|].
  split; [unfold wrap32; apply Z.mod_small; lia|].
  split; [reflexivity|].
  intros e. cbn [order_queues_]. unfold set_queue.
  destruct (decide (e = exchange o)) as [-> | Hne].
  - split; [assumption|]. rewrite Hsz, Hcap by reflexivity. lia.
  - destruct (Hr e) as [? ?]. split; [assumption | lia].
Qed.

(** Inside the window, at or above the limit: the order is rejected
    and counted. *)
Lemma SubmitOrder_limit now o m :
  now - last_rate_check_ m < ONE_SECOND_NS ->
  max_orders_per_second (config_ m) <= orders_this_second_ m ->
  exists m',
    SubmitOrder now o m = (false, m') /\
    config_ m' = config_ m /\
    orders_rejected (stats_ m') = wrap64 (orders_rejected (stats_ m) + 1) /\
    orders_this_second_ m' = wrap32 (orders_this_second_ m + 1) /\
    last_rate_check_ m' = last_rate_check_ m.
Proof.
  intros Hw Hc. unfold SubmitOrder.
  destruct (Z.geb_spec (now - last_rate_check_ m) ONE_SECOND_NS); [lia|].
  destruct (Z.geb_spec (orders_this_second_ m) (max_orders_per_second (config_ m))); [|lia].
  eexists. split; [reflexivity|]. cbn. repeat split.
Qed.

(** The tumbling window: a call made a second or more after the
    window opened behaves as a call at the start of a new window. *)
Lemma SubmitOrder_new_window now o m :
  ONE_SECOND_NS <= now - last_rate_check_ m ->
  SubmitOrder now o m
  = SubmitOrder now o
      {| config_ := config_ m;
         stats_ := stats_ m;
         order_queues_ := order_queues_ m;
         orders_ := orders_ m;
         exchange_orders_ := exchange_orders_ m;
         running_ := running_ m;
         next_order_id_ := next_order_id_ m;
         orders_this_second_ := 0;
         last_rate_check_ := now |}.
Proof.
  intros Hw. unfold SubmitOrder. cbn.
  destruct (Z.geb_spec (now - last_rate_check_ m) ONE_SECOND_NS); [|lia].
  rewrite Z.sub_diag. reflexivity.
Qed.

End OrderManagerFacts.

Section OrderManagerClaims.

Import OrderMgr.

(** C7. With [max_orders_per_second = 3], at the start of a window
    ([orders_this_second_ = 0]) and with three free slots in every
    venue ring, five orders submitted less than one second after the
    window opened are answered [true, true, true, false, false], and
    [orders_rejected] grows by two. *)
Theorem SubmitOrder_rate_limit (m : OrderManager)
    (t1 t2 t3 t4 t5 : Z) (o1 o2 o3 o4 o5 : Order) :
  max_orders_per_second (config_ m) = 3 ->
  orders_this_second_ m = 0 ->
  (forall e, RingBuffer.inv (order_queues_ m e) /\
             RingBuffer.size (order_queues_ m e) + 3
             <= RingBuffer.capacity (order_queues_ m e) - 1) ->
  t1 - last_rate_check_ m < ONE_SECOND_NS ->
  t2 - last_rate_check_ m < ONE_SECOND_NS ->
  t3 - last_rate_check_ m < ONE_SECOND_NS ->
  t4 - last_rate_check_ m < ONE_SECOND_NS ->
  t5 - last_rate_check_ m < ONE_SECOND_NS ->
  let '(flags, m') :=
    submit_all [(t1, o1); (t2, o2); (t3, o3); (t4, o4); (t5, o5)] m in
  flags = [true; true; true; false; false] /\
  orders_rejected (stats_ m') = wrap64 (orders_rejected (stats_ m) + 2).
Proof.
  intros Hmax Hcnt Hroom H1 H2 H3 H4 H5.
  destruct (SubmitOrder_admit t1 o1 m 2) as (m1 & E1 & C1 & S1 & N1 & L1 & R1);
    [lia | lia | lia | lia | exact Hroom |].
  destruct (SubmitOrder_admit t2 o2 m1 1) as (m2 & E2 & C2 & S2 & N2 & L2 & R2);
    [rewrite L1; lia | rewrite C1; lia | lia | lia | exact R1 |].
  destruct (SubmitOrder_admit t3 o3 m2 0) as (m3 & E3 & C3 & S3 & N3 & L3 & R3);
    [rewrite L2, L1; lia | rewrite C2, C1; lia | lia | lia | exact R2 |].
  destruct (SubmitOrder_limit t4 o4 m3) as (m4 & E4 & C4 & S4 & N4 & L4);
    [rewrite L3, L2, L1; lia | rewrite C3, C2, C1; lia |].
  assert (N4' : orders_this_second_ m4 = 4).
  { rewrite N4, N3, N2, N1, Hcnt. reflexivity. }
  destruct (SubmitOrder_limit t5 o5 m4) as (m5 & E5 & C5 & S5 & N5 & L5);
    [rewrite L4, L3, L2, L1; lia | rewrite C4, C3, C2, C1; lia |].
  cbn [submit_all]. rewrite E1, E2, E3, E4, E5.
  split; [reflexivity|].
  rewrite S5, S4, S3, S2, S1. unfold wrap64.
  rewrite Z.add_mod_idemp_l by lia. f_equal. lia.
Qed.

End OrderManagerClaims.


Lemma om_fresh_room : forall e,
  RingBuffer.inv (OrderMgr.order_queues_ om_fresh e) /\
  RingBuffer.size (OrderMgr.order_queues_ om_fresh e) + 3
  <= RingBuffer.capacity (OrderMgr.order_queues_ om_fresh e) - 1.
Proof.
  intros e. split.
  - apply inv_make. vm_compute. split; discriminate.
  - vm_compute. discriminate.
Defined.

Lemma SubmitOrder_rate_limit_witness :
  let '(flags, m') := OrderMgr.submit_all om_batch om_fresh in
  flags = [true; true; true; false; false] /\
  OrderMgr.orders_rejected (OrderMgr.stats_ m')
  = wrap64 (OrderMgr.orders_rejected (OrderMgr.stats_ om_fresh) + 2).
Proof.
  apply (SubmitOrder_rate_limit om_fresh 100 200 300 400 500
           order1 order2 order1 order1 order2);
    try reflexivity.
  exact om_fresh_room.
Defined.

(** Scenario 2 of the specification, evaluated: the counter goes from
    0 to 2. *)
Example rate_limit_scenario :
  fst (OrderMgr.submit_all om_batch om_fresh) = [true; true; true; false; false] /\
  OrderMgr.orders_rejected (OrderMgr.stats_ (snd (OrderMgr.submit_all om_batch om_fresh))) = 2.
Proof. vm_compute. split; reflexivity. Qed.

(** * Facts about the arbitrage detector *)

Section ArbitrageFacts.

Import Arbitrage.

Lemma evaluate_no_edge config buy sell symbol timestamp :
  (bid_price sell - ask_price buy <= 0)%Q ->
  evaluate config buy sell symbol timestamp = None.
Proof.
  intros H. unfold evaluate.
  destruct (Qlt_le_dec 0 _) as [Hd | Hd]; [|reflexivity].
  exfalso. apply (Qlt_not_le _ _ Hd). exact H.
Qed.

End ArbitrageFacts.

Section ArbitrageClaims.

Import Arbitrage.

(** In binary64 the first gate still stands: without a positive
    price difference nothing is emitted. *)
Lemma evaluate_needs_an_edge (config : ArbitrageIEEE.ArbitrageConfig)
    (buy sell : ArbitrageIEEE.PriceFeed) (symbol : string) (timestamp : Z)
    (d : ArbitrageIEEE.ArbitrageDetector) :
  PrimFloat.leb (PrimFloat.sub (ArbitrageIEEE.bid_price sell) (ArbitrageIEEE.ask_price buy))
                PrimFloat.zero = true ->
  ArbitrageIEEE.evaluate config buy sell symbol timestamp = None /\
  ArbitrageIEEE.checkArbitrageOpportunity buy sell symbol timestamp d = d.
Proof.
  intros H. unfold PrimFloat.zero in H.
  assert (E : forall c, ArbitrageIEEE.evaluate c buy sell symbol timestamp = None).
  { intros c. unfold ArbitrageIEEE.evaluate. cbv zeta. now rewrite H. }
  split; [apply E|]. unfold ArbitrageIEEE.checkArbitrageOpportunity. now rewrite E.
Qed.

(** What the later gates give: of an emitted opportunity neither
    [profit_rate < min_profit_rate] nor [net_profit < min_profit_amount]
    is true. With a NaN that is less than meeting the thresholds. *)
Lemma evaluate_tests_not_fired (config : ArbitrageIEEE.ArbitrageConfig)
    (buy sell : ArbitrageIEEE.PriceFeed) (symbol : string) (timestamp : Z)
    (opp : ArbitrageIEEE.ArbitrageOpportunity) :
  ArbitrageIEEE.evaluate config buy sell symbol timestamp = Some opp ->
  PrimFloat.ltb (ArbitrageIEEE.profit_rate opp) (ArbitrageIEEE.min_profit_rate config) = false /\
  PrimFloat.ltb (ArbitrageIEEE.net_profit opp) (ArbitrageIEEE.min_profit_amount config) = false.
Proof.
  unfold ArbitrageIEEE.evaluate. cbv zeta.
  destruct (PrimFloat.leb _ _); [discriminate|].
  destruct (PrimFloat.ltb _ (ArbitrageIEEE.min_profit_rate config)); [discriminate|].
  destruct (PrimFloat.ltb _ (ArbitrageIEEE.min_profit_rate config)) eqn:Hr; [discriminate|].
  destruct (PrimFloat.ltb _ (ArbitrageIEEE.min_profit_amount config)) eqn:Ha; [discriminate|].
  intros [= <-]. cbn. split; assumption.
Qed.

(** C1. The check emits an opportunity that does not meet the profit
    rate threshold. For a buy feed whose ask price is 0 and a sell feed
    bidding 100, with the default configuration, [profit_rate] and
    [total_fee_rate] are both infinite, their difference is NaN, no
    [<] test fires, and the opportunity is pushed and counted with
    [profit_rate] NaN: [profit_rate >= min_profit_rate] is false of
    it. *)
Theorem checkArbitrageOpportunity_emits_nan :
  let d := ArbitrageIEEE.checkArbitrageOpportunity
             ArbitrageIEEE.feed_no_ask ArbitrageIEEE.feed_bid_100 "BTCUSDT" 2000
             (ArbitrageIEEE.make ArbitrageIEEE.default_config) in
  exists opp,
    ArbitrageIEEE.pending d = [opp] /\
    ArbitrageIEEE.detected_count_ d = 1 /\
    ArbitrageIEEE.is_nan (ArbitrageIEEE.profit_rate opp) = true /\
    PrimFloat.leb (ArbitrageIEEE.min_profit_rate ArbitrageIEEE.default_config)
                  (ArbitrageIEEE.profit_rate opp) = false /\
    ArbitrageIEEE.profitable ArbitrageIEEE.default_config opp = false.
Proof. eexists. vm_compute. repeat split. Qed.

End ArbitrageClaims.


(** Scenario 4 of the specification: buying on A at 100 and selling on
    B at 100.5 is emitted, with net profit 0.2995. *)
Example arbitrage_scenario :
  exists opp,
    Arbitrage.pending (Arbitrage.run arb_config arb_calls) = [opp] /\
    Arbitrage.buy_exchange opp = "A" /\ Arbitrage.sell_exchange opp = "B" /\
    (Arbitrage.net_profit opp == 2995 # 10000)%Q /\
    Arbitrage.detected_count_ (Arbitrage.run arb_config arb_calls) = 1.
Proof. eexists. vm_compute. repeat split. Qed.

(** * Facts about the market maker *)

Lemma std_max_lower a b : (a <= std_max a b)%Q.
Proof.
  unfold std_max. destruct (Qlt_le_dec a b) as [H | H].
  - apply Qlt_le_weak. exact H.
  - apply Qle_refl.
Qed.

Lemma Qdiv_10000 x : (x / (10000 # 1) == x * (1 # 10000))%Q.
Proof. reflexivity. Qed.

Section MarketMakerFacts.

Import MarketMaker.

Lemma calculateSpread_nonneg config market inventory :
  (0 <= min_spread_bps config)%Q ->
  (0 <= calculateSpread config market inventory)%Q.
Proof.
  intros H. unfold calculateSpread.
  eapply Qle_trans; [|apply std_max_lower].
  rewrite Qdiv_10000. lra.
Qed.

Lemma level_spread_nonneg config spread level :
  (0 <= spread)%Q -> (0 <= level_spacing_bps config)%Q -> 0 <= level ->
  (0 <= level_spread config spread level)%Q.
Proof.
  intros Hs Ha Hl. unfold level_spread. rewrite Qdiv_10000.
  assert (Hz : (0 <= inject_Z level)%Q) by (rewrite Zle_Qle in Hl; exact Hl).
  assert (Hp : (0 <= inject_Z level * level_spacing_bps config)%Q) by nra.
  set (p := (inject_Z level * level_spacing_bps config)%Q) in *.
  nra.
Qed.

Lemma level_spread_mono config spread l1 l2 :
  (0 <= spread)%Q -> (0 <= level_spacing_bps config)%Q -> l1 <= l2 ->
  (level_spread config spread l1 <= level_spread config spread l2)%Q.
Proof.
  intros Hs Ha Hl. unfold level_spread. rewrite !Qdiv_10000.
  assert (Hz : (inject_Z l1 <= inject_Z l2)%Q) by (rewrite Zle_Qle in Hl; exact Hl).
  assert (Hp : (inject_Z l1 * level_spacing_bps config
                <= inject_Z l2 * level_spacing_bps config)%Q) by nra.
  set (p1 := (inject_Z l1 * level_spacing_bps config)%Q) in *.
  set (p2 := (inject_Z l2 * level_spacing_bps config)%Q) in *.
  nra.
Qed.

Lemma level_price_deviation config side mid spread level :
  (0 < mid)%Q -> (0 <= level_spread config spread level)%Q ->
  (Qabs (level_price config side mid spread level - mid)
   == mid * level_spread config spread level)%Q.
Proof.
  intros Hm Hl. unfold level_price.
  set (ls := level_spread config spread level) in *.
  destruct side.
  - rewrite Qabs_neg by nra. ring.
  - rewrite Qabs_pos by nra. ring.
Qed.

(** The level loop fills the batch two quotes at a time, up to
    [MAX_QUOTES], and touches nothing but the batch. *)
Lemma generateQuoteLevel_active symbol side mid spread level now e :
  0 <= active_quotes_ e <= MAX_QUOTES ->
  let e' := generateQuoteLevel symbol side mid spread level now e in
  active_quotes_ e' = Z.min (active_quotes_ e + 1) MAX_QUOTES /\
  config_ e' = config_ e /\ quotes_generated_ e' = quotes_generated_ e /\
  quote_buffer_ e' = quote_buffer_ e.
Proof.
  unfold MAX_QUOTES. intros Ha. unfold generateQuoteLevel, MAX_QUOTES.
  destruct (Z.geb_spec (active_quotes_ e) 20); cbn.
  - repeat split. lia.
  - repeat split. unfold wrap64. rewrite Z.mod_small by lia. lia.
Qed.

Lemma generate_level_active clock mid spread e level :
  0 <= active_quotes_ e <= MAX_QUOTES ->
  let e' := generate_level clock mid spread e level in
  active_quotes_ e' = Z.min (active_quotes_ e + 2) MAX_QUOTES /\
  config_ e' = config_ e /\ quotes_generated_ e' = quotes_generated_ e /\
  quote_buffer_ e' = quote_buffer_ e.
Proof.
  intros Ha. unfold generate_level.
  destruct (generateQuoteLevel_active "BTCUSDT" BUY mid spread level
              (clock level BUY) e Ha) as (A1 & C1 & G1 & B1).
  set (e1 := generateQuoteLevel "BTCUSDT" BUY mid spread level (clock level BUY) e) in *.
  assert (Ha1 : 0 <= active_quotes_ e1 <= MAX_QUOTES) by (unfold MAX_QUOTES in *; lia).
  destruct (generateQuoteLevel_active "BTCUSDT" SELL mid spread level
              (clock level SELL) e1 Ha1) as (A2 & C2 & G2 & B2).
  cbv zeta. split; [|split; [congruence | split; congruence]].
  rewrite A2, A1. unfold MAX_QUOTES in *. lia.
Qed.

Lemma generate_levels_active clock mid spread levels : forall e,
  0 <= active_quotes_ e <= MAX_QUOTES ->
  let e' := fold_left (generate_level clock mid spread) levels e in
  active_quotes_ e' = Z.min (active_quotes_ e + 2 * Z.of_nat (length levels)) MAX_QUOTES /\
  config_ e' = config_ e /\ quotes_generated_ e' = quotes_generated_ e /\
  quote_buffer_ e' = quote_buffer_ e.
Proof.
  induction levels as [|l levels IH]; intros e Ha; cbn [fold_left length].
  - repeat split. unfold MAX_QUOTES in *. lia.
  - destruct (generate_level_active clock mid spread e l Ha) as (A1 & C1 & G1 & B1).
    assert (Ha1 : 0 <= active_quotes_ (generate_level clock mid spread e l) <= MAX_QUOTES)
      by (unfold MAX_QUOTES in *; lia).
    destruct (IH _ Ha1) as (A2 & C2 & G2 & B2).
    cbv zeta. split; [|split; [congruence | split; congruence]].
    rewrite A2, A1. unfold MAX_QUOTES in *. lia.
Qed.

(** The quote [generateQuoteLevel] writes into the batch: its price is
    [level_price] followed by the inventory skew. *)
Lemma generateQuoteLevel_quote symbol side mid spread level now e :
  0 <= active_quotes_ e < MAX_QUOTES ->
  length (current_quotes_ e) = Z.to_nat MAX_QUOTES ->
  let q := nth (Z.to_nat (active_quotes_ e))
             (current_quotes_ (generateQuoteLevel symbol side mid spread level now e))
             zero_quote in
  q_side q = side /\ q_level q = level /\
  q_quantity q = quote_size (config_ e) /\
  q_price q = apply_inventory_skew (config_ e) (inventory_state_ e) side
                (level_price (config_ e) side mid spread level).
Proof.
  unfold MAX_QUOTES. intros Ha Hl. unfold generateQuoteLevel, MAX_QUOTES.
  destruct (Z.geb_spec (active_quotes_ e) 20); [lia|].
  cbn. rewrite nth_lookup, list_lookup_insert_eq by lia. cbn. repeat split.
Qed.

(** Without inventory the skew leaves the price alone. *)
Lemma apply_inventory_skew_flat config inventory side p :
  (position inventory == 0)%Q ->
  apply_inventory_skew config inventory side p = p.
Proof.
  intros H. unfold apply_inventory_skew.
  assert (Hr : (position inventory / max_inventory config == 0)%Q).
  { rewrite H. unfold Qdiv. ring. }
  destruct (Qlt_le_dec 0 _) as [H1 | H1]; [rewrite Hr in H1; lra|].
  destruct (Qlt_le_dec _ 0) as [H2 | H2]; [rewrite Hr in H2; lra|].
  reflexivity.
Qed.

(** One round of the push loop counts one quote, whatever [push]
    returned. *)
Lemma push_quote_counts e i :
  quotes_generated_ (push_quote e i) = wrap64 (quotes_generated_ e + 1) /\
  active_quotes_ (push_quote e i) = active_quotes_ e /\
  config_ (push_quote e i) = config_ e.
Proof. unfold push_quote. destruct (RingBuffer.push _ _). repeat split. Qed.

Lemma push_quotes_count idxs : forall e,
  0 <= quotes_generated_ e < 2 ^ 64 ->
  let e' := fold_left push_quote idxs e in
  quotes_generated_ e' = wrap64 (quotes_generated_ e + Z.of_nat (length idxs)) /\
  active_quotes_ e' = active_quotes_ e /\ config_ e' = config_ e.
Proof.
  induction idxs as [|i idxs IH]; intros e Hg; cbn [fold_left length].
  - repeat split. unfold wrap64. rewrite Z.add_0_r, Z.mod_small by lia. reflexivity.
  - destruct (push_quote_counts e i) as (G1 & A1 & C1).
    destruct (IH (push_quote e i)) as (G2 & A2 & C2).
    { rewrite G1. unfold wrap64. apply Z.mod_pos_bound. lia. }
    split; [|split; congruence].
    rewrite G2, G1. unfold wrap64. rewrite Z.add_mod_idemp_l by lia.
    f_equal. lia.
Qed.

End MarketMakerFacts.

Section MarketMakerClaims.

Import MarketMaker.

(** C9. With [min_spread_bps >= 0], [level_spacing_bps >= 0] and
    [mid_price > 0], the price [generateQuoteLevel] computes before the
    inventory skew, for the spread of [calculateSpread] and a level
    [0 <= L], is at most the mid price on the buy side and at least the
    mid price on the sell side, and its distance from the mid price
    does not decrease from [L] to any [L' >= L]. *)
Theorem level_price_brackets_mid (config : MarketMakerConfig)
    (market : MarketSnapshot) (inventory : InventorySnapshot) (mid : Q) (L L' : Z) :
  (0 <= min_spread_bps config)%Q ->
  (0 <= level_spacing_bps config)%Q ->
  (0 < mid)%Q ->
  0 <= L <= L' ->
  let spread := calculateSpread config market inventory in
  (level_price config BUY mid spread L <= mid)%Q /\
  (mid <= level_price config SELL mid spread L)%Q /\
  forall side,
    (Qabs (level_price config side mid spread L - mid)
     <= Qabs (level_price config side mid spread L' - mid))%Q.
Proof.
  intros Hmin Hsp Hmid HL spread.
  assert (Hs : (0 <= spread)%Q) by (apply calculateSpread_nonneg; assumption).
  assert (Hl : (0 <= level_spread config spread L)%Q)
    by (apply level_spread_nonneg; [assumption | assumption | lia]).
  assert (Hl' : (0 <= level_spread config spread L')%Q)
    by (apply level_spread_nonneg; [assumption | assumption | lia]).
  assert (Hm : (level_spread config spread L <= level_spread config spread L')%Q)
    by (apply level_spread_mono; [assumption | assumption | lia]).
  split; [|split].
  - unfold level_price. nra.
  - unfold level_price. nra.
  - intros side. rewrite !level_price_deviation by assumption. nra.
Qed.

(** What the push loop does. Each round adds one to
    [quotes_generated_] whether the push returned [true] or [false]; a
    call made with the engine running and market data present therefore
    adds the size of the batch, two quotes per level capped at
    [MAX_QUOTES]. *)
Lemma generateQuotes_counts_every_quote (clock : Z -> Side -> Z)
    (e : MarketMakerEngine) :
  running_ e = true ->
  (0 < mid_price (market_state_ e))%Q ->
  (0 < bid_price (market_state_ e))%Q ->
  (0 < ask_price (market_state_ e))%Q ->
  0 <= quotes_generated_ e < 2 ^ 64 ->
  (forall e0 i, quotes_generated_ (push_quote e0 i) = wrap64 (quotes_generated_ e0 + 1)) /\
  active_quotes_ (generateQuotes clock e) = batch_size (config_ e) /\
  quotes_generated_ (generateQuotes clock e)
  = wrap64 (quotes_generated_ e + batch_size (config_ e)).
Proof.
  intros Hr Hm Hb Ha Hg.
  split; [intros e0 i; apply push_quote_counts|].
  unfold generateQuotes. rewrite Hr. cbn [negb].
  assert (Hle : forall x, (0 < x)%Q -> Qle_bool x 0 = false).
  { intros x Hx. destruct (Qle_bool x 0) eqn:E; [|reflexivity].
    apply Qle_bool_iff in E. exfalso. apply (Qlt_not_le _ _ Hx E). }
  rewrite !Hle by assumption. cbn [orb].
  set (e0 := set_quotes (current_quotes_ e) 0 e).
  set (spread := calculateSpread _ _ _).
  destruct (generate_levels_active clock (mid_price (market_state_ e)) spread
              (seqZ 0 (quote_levels (config_ e0))) e0) as (A1 & C1 & G1 & _).
  { cbn. unfold MAX_QUOTES. lia. }
  set (e1 := fold_left _ _ e0) in *.
  assert (Hact : active_quotes_ e1 = batch_size (config_ e)).
  { rewrite A1. cbn [active_quotes_ e0 set_quotes config_]. rewrite length_seqZ.
    unfold batch_size, MAX_QUOTES. lia. }
  destruct (push_quotes_count (seqZ 0 (active_quotes_ e1)) e1) as (G2 & A2 & C2).
  { rewrite G1. exact Hg. }
  split.
  - rewrite A2. exact Hact.
  - rewrite G2, G1, length_seqZ, Hact. cbn [quotes_generated_ e0 set_quotes].
    f_equal. f_equal. unfold batch_size, MAX_QUOTES. lia.
Qed.

End MarketMakerClaims.


(** The first market update of a fresh engine does not depend on
    [std::log] and [std::sqrt]. *)
Lemma mm_started_any_libm (std_log std_sqrt : Q -> Q) :
  MarketMaker.updateMarketData std_log std_sqrt
    "BTCUSDT" (99 # 1) 1 (101 # 1) 1 (100 # 1) 5000
    (MarketMaker.start (MarketMaker.make MarketMaker.default_config))
  = mm_started.
Proof. vm_compute. reflexivity. Qed.

Lemma level_price_brackets_mid_witness :
  let config := MarketMaker.default_config in
  let spread :=
    MarketMaker.calculateSpread config (MarketMaker.market_state_ mm_started)
      (MarketMaker.inventory_state_ mm_started) in
  (MarketMaker.level_price config BUY (100 # 1) spread 1 <= 100 # 1)%Q /\
  (100 # 1 <= MarketMaker.level_price config SELL (100 # 1) spread 1)%Q /\
  forall side,
    (Qabs (MarketMaker.level_price config side (100 # 1) spread 1 - (100 # 1))
     <= Qabs (MarketMaker.level_price config side (100 # 1) spread 2 - (100 # 1)))%Q.
Proof.
  apply (level_price_brackets_mid MarketMaker.default_config
           (MarketMaker.market_state_ mm_started)
           (MarketMaker.inventory_state_ mm_started) (100 # 1) 1 2).
  - vm_compute. discriminate.
  - vm_compute. discriminate.
  - reflexivity.
  - lia.
Defined.

(** C5. [generateQuotes] counts quotes whose push failed. After 171
    calls of the default configuration with nobody reading, the ring
    holds its 1023 quotes and is full; on the next call every push of
    the batch returns [false] and the ring stays as it is, yet
    [quotes_generated_] advances by the six quotes of the batch, from
    1026 to 1032. The result of [push] is not looked at. *)
Theorem generateQuotes_counts_failed_pushes :
  MarketMaker.running_ mm_full = true /\
  MarketMaker.queued mm_full = RingBuffer.capacity (MarketMaker.quote_buffer_ mm_full) - 1 /\
  MarketMaker.quote_buffer_ (MarketMaker.generateQuotes mm_clock mm_full)
  = MarketMaker.quote_buffer_ mm_full /\
  MarketMaker.quotes_generated_ mm_full = 1026 /\
  MarketMaker.quotes_generated_ (MarketMaker.generateQuotes mm_clock mm_full) = 1032 /\
  fst (RingBuffer.push (MarketMaker.quote_buffer_ mm_full)
         (nth 0 (MarketMaker.current_quotes_ mm_full) MarketMaker.zero_quote)) = false /\
  MarketMaker.quotes_generated_ (MarketMaker.push_quote mm_full 0) = 1027.
Proof. vm_compute. repeat split. Qed.

(** * More on the ring buffer: rounding, usable capacity, size *)

Section RingCapacityFacts.

Context {T : Type} (dflt : T).
Implicit Types r : RingBuffer.t T.

Import RingBuffer.

Lemma size_pop r :
  inv r -> producer_head r <> consumer_tail r ->
  size (snd (pop dflt r)) = size r - 1.
Proof.
  intros H Hne.
  pose proof (inv_pop dflt r H) as H'.
  destruct (contents_pop dflt r H Hne) as (x & _ & Hc).
  apply (f_equal (@length T)) in Hc. cbn [length] in Hc.
  pose proof (contents_length dflt r H). pose proof (contents_length dflt _ H'). lia.
Qed.

Lemma push_all_room items : forall r,
  inv r ->
  (is_Some (push_all r items)
   <-> size r + Z.of_nat (length items) <= capacity r - 1).
Proof.
  induction items as [|x items IH]; intros r H; cbn [push_all length].
  - pose proof (size_range r H). unfold capacity. split; [intros _; lia | eauto].
  - pose proof (push_false_iff r x H) as Hf.
    pose proof (size_push r x H) as Hs.
    pose proof (inv_push r x H) as Hi.
    pose proof (capacity_push r x) as Hc.
    pose proof (size_range r H) as Hr. unfold capacity in *.
    destruct (push r x) as [ok r1]. cbn [fst snd] in *.
    destruct ok.
    + rewrite (IH r1 Hi), Hs, Hc by reflexivity.
      assert (size r <> capacity_ r - 1).
      { intros E. apply Hf in E. discriminate. }
      lia.
    + assert (E : size r = capacity_ r - 1) by (apply Hf; reflexivity).
      split; [intros [? ?]; discriminate | lia].
Qed.

(** The result of [next_power_of_two] in terms of the bit length of
    the decremented request. *)
Lemma next_power_of_two_log2 (c : Z) :
  0 < wrap64 (c - 1) ->
  next_power_of_two c = wrap64 (2 ^ (Z.log2 (wrap64 (c - 1)) + 1)).
Proof.
  intros Hpos. unfold next_power_of_two.
  assert (Hn : 0 < wrap64 (c - 1) < 2 ^ 64).
  { split; [exact Hpos|]. unfold wrap64. apply Z.mod_pos_bound. lia. }
  set (n := wrap64 (c - 1)) in *. cbv zeta.
  set (x1 := Z.lor n (Z.shiftr n 1)).
  set (x2 := Z.lor x1 (Z.shiftr x1 2)).
  set (x3 := Z.lor x2 (Z.shiftr x2 4)).
  set (x4 := Z.lor x3 (Z.shiftr x3 8)).
  set (x5 := Z.lor x4 (Z.shiftr x4 16)).
  set (x6 := Z.lor x5 (Z.shiftr x5 32)).
  assert (S1 : smeared n 2 x1)
    by (apply (smeared_step n 1); [lia | lia | apply smeared_init]).
  assert (S2 : smeared n 4 x2) by (apply (smeared_step n 2); [lia | lia | exact S1]).
  assert (S3 : smeared n 8 x3) by (apply (smeared_step n 4); [lia | lia | exact S2]).
  assert (S4 : smeared n 16 x4) by (apply (smeared_step n 8); [lia | lia | exact S3]).
  assert (S5 : smeared n 32 x5) by (apply (smeared_step n 16); [lia | lia | exact S4]).
  assert (S6 : smeared n 64 x6) by (apply (smeared_step n 32); [lia | lia | exact S5]).
  apply smeared_ones in S6; [|lia|].
  - rewrite S6, Z.ones_equiv. f_equal.
    assert (0 < 2 ^ (Z.log2 n + 1)).
    { apply Z.pow_pos_nonneg; [lia|]. pose proof (Z.log2_nonneg n). lia. }
    lia.
  - subst x1 x2 x3 x4 x5 x6.
    repeat (apply Z.lor_nonneg; split; [|apply Z.shiftr_nonneg]); lia.
Qed.

End RingCapacityFacts.

Section RingCapacityProperties.

Context {T : Type} (dflt : T).

Import RingBuffer.

(** X8. For a requested capacity between 1 and 2^63 the constructor
    rounds up to the least power of two that is not below the request:
    the capacity is [2^k] with [request <= 2^k < 2 * request], the mask
    is the capacity less one, and the ring starts empty. *)
Theorem make_rounds_up (c : Z) :
  1 <= c <= 2 ^ 63 ->
  exists k, 0 <= k <= 63 /\
    capacity (make dflt c) = 2 ^ k /\ c <= 2 ^ k < 2 * c /\
    mask_ (make dflt c) = 2 ^ k - 1 /\
    length (buffer_ (make dflt c)) = Z.to_nat (2 ^ k) /\
    size (make dflt c) = 0 /\ empty (make dflt c) = true.
Proof.
  intros Hc.
  pose proof (inv_make dflt c Hc) as Hinv.
  destruct (next_power_of_two_spec c Hc) as (k & Hk & Hp & Hle).
  exists k. split; [exact Hk|].
  assert (Hcap : capacity (make dflt c) = 2 ^ k) by exact Hp.
  split; [exact Hcap|]. split.
  - split; [exact Hle|].
    destruct (Z.eq_dec c 1) as [-> | Hne].
    + assert (E : next_power_of_two 1 = 1) by reflexivity.
      rewrite E in Hp. lia.
    + (* the bit length of [c - 1] fixes the exponent *)
      assert (Hn : 0 < c - 1 < 2 ^ 63) by lia.
      pose proof (Z.log2_spec (c - 1) ltac:(lia)) as [Hl Hu].
      assert (Hlog : 0 <= Z.log2 (c - 1) < 63).
      { split; [apply Z.log2_nonneg|]. apply Z.log2_lt_pow2; lia. }
      assert (Hw : wrap64 (c - 1) = c - 1) by (unfold wrap64; apply Z.mod_small; lia).
      assert (E : next_power_of_two c = 2 ^ (Z.log2 (c - 1) + 1)).
      { rewrite next_power_of_two_log2 by (rewrite Hw; lia). rewrite Hw.
        assert (2 ^ (Z.log2 (c - 1) + 1) <= 2 ^ 63) by (apply Z.pow_le_mono_r; lia).
        assert (0 < 2 ^ (Z.log2 (c - 1) + 1)) by (apply Z.pow_pos_nonneg; lia).
        unfold wrap64. apply Z.mod_small. lia. }
      rewrite <- Hp, E. rewrite Z.pow_add_r by lia. lia.
  - destruct Hinv as (_ & Hm & Hl & _). unfold capacity in Hcap.
    rewrite Hm, Hl, Hcap.
    split; [reflexivity|]. split; [reflexivity|].
    unfold size, empty, make. cbn. split; reflexivity.
Qed.

(** X9. A request of 0, or of more than 2^63, wraps in
    [next_power_of_two]: the ring gets capacity 0 and an array of no
    slots. *)
Theorem make_wraps_to_zero (c : Z) :
  c = 0 \/ 2 ^ 63 < c < 2 ^ 64 ->
  next_power_of_two c = 0 /\
  capacity (make dflt c) = 0 /\ buffer_ (make dflt c) = [].
Proof.
  intros Hc.
  assert (E : next_power_of_two c = 0).
  { assert (Hn : 2 ^ 63 <= wrap64 (c - 1) < 2 ^ 64).
    { destruct Hc as [-> | Hc]; [vm_compute; split; [discriminate | reflexivity]|].
      unfold wrap64. rewrite Z.mod_small by lia. lia. }
    rewrite next_power_of_two_log2 by lia.
    assert (Hlog : Z.log2 (wrap64 (c - 1)) = 63) by (apply Z.log2_unique; lia).
    rewrite Hlog. reflexivity. }
  split; [exact E|]. unfold capacity, make. cbn. rewrite E. split; reflexivity.
Qed.

(** X10. In any state a history can reach, a batch of pushes goes
    through entirely exactly when it fits into the free slots:
    [size + |items| <= capacity - 1]. From empty, a ring takes
    [capacity - 1] items and not one more. *)
Theorem push_all_fits (c : Z) (ops : list (op (T:=T))) (items : list T) :
  1 <= c <= 2 ^ 63 ->
  let r := run dflt c ops in
  is_Some (push_all r items)
  <-> size r + Z.of_nat (length items) <= capacity r - 1.
Proof. intros Hc r. apply push_all_room. now apply inv_run. Qed.

(** X11. [size()] counts the queued elements: in any reachable state
    a push that returns [true] raises it by one, a pop that returns
    [true] lowers it by one, and a call that returns [false] leaves the
    whole ring as it was. *)
Theorem size_counts_elements (c : Z) (ops : list (op (T:=T))) (item : T) :
  1 <= c <= 2 ^ 63 ->
  let r := run dflt c ops in
  size r = Z.of_nat (length (contents dflt r)) /\
  (if fst (push r item) then size (snd (push r item)) = size r + 1
   else snd (push r item) = r) /\
  (match fst (pop dflt r) with
   | Some _ => size (snd (pop dflt r)) = size r - 1
   | None => snd (pop dflt r) = r
   end).
Proof.
  intros Hc r.
  assert (H : inv r) by (apply inv_run; assumption).
  split; [symmetry; apply contents_length; assumption|]. split.
  - destruct (fst (push r item)) eqn:E.
    + now apply size_push.
    + revert E. unfold push. destruct (_ =? _); [reflexivity | discriminate].
  - destruct (fst (pop dflt r)) eqn:E.
    + apply size_pop; [assumption|]. intros Heq.
      apply (pop_none_iff dflt r) in Heq. congruence.
    + revert E. unfold pop. destruct (_ =? _); [reflexivity | discriminate].
Qed.

End RingCapacityProperties.

Lemma make_rounds_up_witness :
  exists k, 0 <= k <= 63 /\
    RingBuffer.capacity (RingBuffer.make 0 1000) = 2 ^ k /\ 1000 <= 2 ^ k < 2 * 1000 /\
    RingBuffer.mask_ (RingBuffer.make 0 1000) = 2 ^ k - 1 /\
    length (RingBuffer.buffer_ (RingBuffer.make 0 1000)) = Z.to_nat (2 ^ k) /\
    RingBuffer.size (RingBuffer.make 0 1000) = 0 /\
    RingBuffer.empty (RingBuffer.make 0 1000) = true.
Proof. apply (make_rounds_up 0 1000). lia. Defined.

Lemma make_wraps_to_zero_witness :
  RingBuffer.next_power_of_two (2 ^ 63 + 1) = 0 /\
  RingBuffer.capacity (RingBuffer.make 0 (2 ^ 63 + 1)) = 0 /\
  RingBuffer.buffer_ (RingBuffer.make 0 (2 ^ 63 + 1)) = [].
Proof. apply (make_wraps_to_zero 0 (2 ^ 63 + 1)). right. lia. Defined.

Lemma push_all_fits_witness :
  is_Some (RingBuffer.push_all (RingBuffer.run 0 4 [RingBuffer.OpPush 7]) [1; 2])
  <-> RingBuffer.size (RingBuffer.run 0 4 [RingBuffer.OpPush 7]) + Z.of_nat (length [1; 2])
      <= RingBuffer.capacity (RingBuffer.run 0 4 [RingBuffer.OpPush 7]) - 1.
Proof. apply (push_all_fits 0 4 [RingBuffer.OpPush 7] [1; 2]). lia. Defined.

Lemma size_counts_elements_witness :
  let r := RingBuffer.run 0 4 [RingBuffer.OpPush 7; RingBuffer.OpPush 8; RingBuffer.OpPop] in
  RingBuffer.size r = Z.of_nat (length (RingBuffer.contents 0 r)) /\
  (if fst (RingBuffer.push r 9) then RingBuffer.size (snd (RingBuffer.push r 9))
                                     = RingBuffer.size r + 1
   else snd (RingBuffer.push r 9) = r) /\
  (match fst (RingBuffer.pop 0 r) with
   | Some _ => RingBuffer.size (snd (RingBuffer.pop 0 r)) = RingBuffer.size r - 1
   | None => snd (RingBuffer.pop 0 r) = r
   end).
Proof.
  apply (size_counts_elements 0 4
           [RingBuffer.OpPush 7; RingBuffer.OpPush 8; RingBuffer.OpPop] 9). lia.
Defined.

(** * More on the risk engine: positions, exposure, counters *)

Section RiskPositionFacts.

Import Risk.

Lemma slot_of_bound symbol : (slot_of symbol < 1000)%nat.
Proof.
  unfold slot_of, MAX_SYMBOLS.
  pose proof (Z.mod_pos_bound (hashSymbol symbol) 1000 ltac:(lia)). lia.
Qed.

Lemma positions_length_step s o :
  length (positions_ (fst s)) = 1000%nat ->
  length (positions_ (fst (step s o))) = 1000%nat.
Proof.
  destruct s as [e l]. intros H. destruct o; cbn; try assumption.
  - unfold checkOrder. destruct (negb (running_ e)); cbn; [assumption|].
    repeat match goal with
           | |- context [if ?c then _ else _] => destruct c; cbn
           end; assumption.
  - now rewrite length_insert.
Qed.

Lemma positions_length_run config ops :
  length (positions_ (fst (run config ops))) = 1000%nat.
Proof.
  unfold run.
  assert (H : length (positions_ (fst (make config, empty_log))) = 1000%nat)
    by (cbn; apply length_replicate).
  revert H. generalize (make config, empty_log).
  induction ops as [|o ops IH]; intros s H; cbn; [assumption|].
  apply IH. now apply positions_length_step.
Qed.

Lemma Qabs_plus_zero q x : (x == 0)%Q -> (Qabs (x + q) == Qabs q)%Q.
Proof. intros H. rewrite H. now rewrite Qplus_0_l. Qed.

Lemma std_min_same a b : (a == b)%Q -> (std_min a b == b)%Q.
Proof.
  intros H. unfold std_min. destruct (Qlt_le_dec b a); [reflexivity | exact H].
Qed.

Lemma exposure_fold_ge positions : forall acc,
  (acc <= fold_left (fun total pos => total + std_abs (pos_value pos)) positions acc)%Q.
Proof.
  induction positions as [|p ps IH]; intros acc; cbn.
  - apply Qle_refl.
  - eapply Qle_trans; [|apply IH].
    pose proof (Qabs_nonneg (pos_value p)). unfold std_abs. lra.
Qed.

Lemma exposure_fold_bounds positions : forall acc p,
  In p positions ->
  (acc + Qabs (pos_value p)
   <= fold_left (fun total pos => total + std_abs (pos_value pos)) positions acc)%Q.
Proof.
  induction positions as [|p0 ps IH]; intros acc p Hin; cbn.
  - destruct Hin.
  - destruct Hin as [-> | Hin].
    + apply exposure_fold_ge.
    + eapply Qle_trans; [|apply IH; exact Hin].
      pose proof (Qabs_nonneg (pos_value p0)). unfold std_abs. lra.
Qed.

Lemma wrap_int32_id x : - 2 ^ 31 <= x < 2 ^ 31 -> wrap_int32 x = x.
Proof. intros H. unfold wrap_int32. rewrite Z.mod_small by lia. lia. Qed.

Lemma wrap_int32_add x d : wrap_int32 (wrap_int32 x + d) = wrap_int32 (x + d).
Proof.
  unfold wrap_int32. f_equal.
  replace ((x + 2 ^ 31) mod 2 ^ 32 - 2 ^ 31 + d + 2 ^ 31)
    with ((x + 2 ^ 31) mod 2 ^ 32 + d) by lia.
  rewrite Z.add_mod_idemp_l by lia. f_equal. lia.
Qed.


End RiskPositionFacts.

Section RiskPositionProperties.

Import Risk.

(** X1. In every state a history of calls can reach, the position
    table has its 1000 slots and the slot [hashSymbol(symbol) % MAX_SYMBOLS]
    of any symbol lies inside it. *)
Theorem position_slot_in_table (config : RiskConfig) (ops : list op) (symbol : string) :
  length (positions_ (fst (run config ops))) = Z.to_nat MAX_SYMBOLS /\
  (slot_of symbol < length (positions_ (fst (run config ops))))%nat /\
  0 <= hashSymbol symbol mod MAX_SYMBOLS < MAX_SYMBOLS.
Proof.
  rewrite positions_length_run. split; [reflexivity|]. split.
  - apply slot_of_bound.
  - apply Z.mod_pos_bound. unfold MAX_SYMBOLS. lia.
Qed.

(** X2. [updatePosition] writes the slot of its symbol and no other: in
    a reachable state the slot then holds the old quantity plus the
    fill and that quantity times the fill price as value, a symbol with
    another slot reads what it read before, and the open-order count,
    the configuration, the running flag and the statistics are
    untouched. *)
Theorem updatePosition_writes_own_slot (config : RiskConfig) (ops : list op)
    (symbol other : string) (quantity price : Q) :
  let e := fst (run config ops) in
  let e' := updatePosition symbol quantity price e in
  pos_quantity (position_at e' symbol)
  = (pos_quantity (position_at e symbol) + quantity)%Q /\
  pos_value (position_at e' symbol)
  = ((pos_quantity (position_at e symbol) + quantity) * price)%Q /\
  (slot_of other <> slot_of symbol -> position_at e' other = position_at e other) /\
  open_orders_ e' = open_orders_ e /\ config_ e' = config_ e /\
  running_ e' = running_ e /\ total_checks_ e' = total_checks_ e /\
  total_latency_ns_ e' = total_latency_ns_ e.
Proof.
  intros e e'.
  pose proof (positions_length_run config ops) as Hlen. fold e in Hlen.
  pose proof (slot_of_bound symbol) as Hb.
  unfold e', updatePosition, position_at. cbn [positions_].
  split; [|split; [|split]].
  - rewrite !nth_lookup, list_lookup_insert_eq by lia. reflexivity.
  - rewrite !nth_lookup, list_lookup_insert_eq by lia. reflexivity.
  - intros Hne. rewrite !nth_lookup, list_lookup_insert_ne by congruence. reflexivity.
  - cbn. repeat split.
Qed.

(** X3. Opening a position from a flat slot with a fill of [quantity]
    at [price] and closing it with the opposite fill at [exit] adds
    [quantity * (exit - price)] to the daily PnL, for a long as for a
    short position, and leaves the slot flat. *)
Theorem updatePosition_open_close_pnl (config : RiskConfig) (ops : list op)
    (symbol : string) (quantity price exit : Q) :
  let e := fst (run config ops) in
  (pos_quantity (position_at e symbol) == 0)%Q ->
  ~ (quantity == 0)%Q ->
  let e1 := updatePosition symbol quantity price e in
  let e2 := updatePosition symbol (- quantity) exit e1 in
  (daily_pnl_ e1 == daily_pnl_ e)%Q /\
  (daily_pnl_ e2 == daily_pnl_ e + quantity * (exit - price))%Q /\
  (pos_quantity (position_at e2 symbol) == 0)%Q /\
  (pos_value (position_at e2 symbol) == 0)%Q.
Proof.
  intros e Hflat Hq e1 e2.
  destruct (updatePosition_writes_own_slot config ops symbol symbol quantity price)
    as (Q1 & V1 & _).
  fold e in Q1, V1. fold e1 in Q1, V1.
  pose proof (positions_length_run config ops) as Hlen. fold e in Hlen.
  pose proof (slot_of_bound symbol) as Hb.
  set (old := pos_quantity (position_at e symbol)) in *.
  assert (Havg1 : pos_avg_price (position_at e1 symbol) = price).
  { unfold e1, updatePosition, position_at at 1. cbn [positions_].
    rewrite nth_lookup, list_lookup_insert_eq by lia. cbn.
    fold old.
    destruct (Qeq_dec (old + quantity) 0) as [E | _].
    { exfalso. apply Hq. rewrite Hflat in E. lra. }
    destruct (Qlt_le_dec 0 (old * (old + quantity))) as [L | _]; [|reflexivity].
    exfalso. rewrite Hflat in L. lra. }
  assert (Hd1 : daily_pnl_ e1 = daily_pnl_ e).
  { unfold e1, updatePosition. cbn [daily_pnl_]. fold old.
    destruct (Qlt_le_dec (old * quantity) 0) as [L | _]; [|reflexivity].
    exfalso. rewrite Hflat in L. lra. }
  assert (Hlen1 : length (positions_ e1) = 1000%nat).
  { unfold e1, updatePosition. cbn [positions_]. now rewrite length_insert. }
  split; [rewrite Hd1; reflexivity|].
  assert (Hq2 : pos_quantity (position_at e2 symbol)
                = (pos_quantity (position_at e1 symbol) + - quantity)%Q).
  { unfold e2, updatePosition, position_at at 1. cbn [positions_].
    rewrite nth_lookup, list_lookup_insert_eq by lia. reflexivity. }
  assert (Hv2 : pos_value (position_at e2 symbol)
                = ((pos_quantity (position_at e1 symbol) + - quantity) * exit)%Q).
  { unfold e2, updatePosition, position_at at 1. cbn [positions_].
    rewrite nth_lookup, list_lookup_insert_eq by lia. reflexivity. }
  split; [|split; [rewrite Hq2, Q1, Hflat; ring | rewrite Hv2, Q1, Hflat; ring]].
  unfold e2, updatePosition. cbn [daily_pnl_]. rewrite Q1, Havg1, Hd1.
  assert (Hsq : (0 < quantity * quantity)%Q).
  { destruct (Qlt_le_dec 0 quantity); [nra|].
    destruct (Qlt_le_dec quantity 0); [nra|]. exfalso. apply Hq. lra. }
  destruct (Qlt_le_dec ((old + quantity) * - quantity) 0) as [_ | L].
  2: { exfalso. rewrite Hflat in L. lra. }
  unfold calculateRealizedPnL.
  assert (Hmin : (std_min (std_abs (old + quantity)) (std_abs (- quantity))
                  == Qabs quantity)%Q).
  { unfold std_abs. rewrite std_min_same.
    - apply Qabs_opp.
    - rewrite Qabs_opp. apply Qabs_plus_zero. exact Hflat. }
  destruct (Qlt_le_dec 0 (old + quantity)) as [Hpos | Hneg].
  - rewrite Hmin, Qabs_pos by (rewrite Hflat in Hpos; lra). ring.
  - rewrite Hmin, Qabs_neg by (rewrite Hflat in Hneg; lra). ring.
Qed.

(** X4. A fill that crosses through flat. When a fill is against the
    position and larger than it, [updatePosition] realizes the PnL of
    the whole old position and of nothing more, [|old| * (price - avg)]
    for a long and [|old| * (avg - price)] for a short one; the slot then
    holds the remainder on the side of the fill, carried at the fill
    price. *)
Theorem updatePosition_reversal (config : RiskConfig) (ops : list op)
    (symbol : string) (quantity price : Q) :
  let e := fst (run config ops) in
  let old := position_at e symbol in
  let e' := updatePosition symbol quantity price e in
  let new := position_at e' symbol in
  (pos_quantity old * quantity < 0)%Q ->
  (Qabs (pos_quantity old) < Qabs quantity)%Q ->
  daily_pnl_ e'
  = (daily_pnl_ e
     + (if Qlt_le_dec 0 (pos_quantity old)
        then Qabs (pos_quantity old) * (price - pos_avg_price old)
        else Qabs (pos_quantity old) * (pos_avg_price old - price)))%Q /\
  pos_quantity new = (pos_quantity old + quantity)%Q /\
  (0 < pos_quantity new * quantity)%Q /\
  pos_avg_price new = price /\
  pos_value new = (pos_quantity new * price)%Q.
Proof.
  intros e old e' new Hopp Habs.
  pose proof (positions_length_run config ops) as Hlen. fold e in Hlen.
  pose proof (slot_of_bound symbol) as Hb.
  set (oq := pos_quantity old) in *. set (oa := pos_avg_price old) in *.
  assert (Hsign : (0 < oq /\ oq + quantity < 0 \/ oq < 0 /\ 0 < oq + quantity)%Q).
  { destruct (Qlt_le_dec 0 oq) as [Hp | Hn].
    - left. split; [exact Hp|].
      assert (Hq : (quantity < 0)%Q) by nra.
      rewrite (Qabs_pos oq), (Qabs_neg quantity) in Habs by lra. lra.
    - right.
      assert (Ho : (oq < 0)%Q).
      { destruct (Qlt_le_dec oq 0) as [L | G]; [exact L|].
        assert (E : (oq == 0)%Q) by lra. rewrite E in Hopp. lra. }
      split; [exact Ho|].
      assert (Hq : (0 < quantity)%Q) by nra.
      rewrite (Qabs_neg oq), (Qabs_pos quantity) in Habs by lra. lra. }
  assert (Hnz : ~ (oq + quantity == 0)%Q) by (intros E; rewrite E in Hsign; lra).
  assert (Hcross : (oq * (oq + quantity) < 0)%Q) by (destruct Hsign; nra).
  assert (Hnew : new = {| pos_quantity := (oq + quantity)%Q;
                          pos_value := ((oq + quantity) * price)%Q;
                          pos_avg_price := price |}).
  { unfold new, e', updatePosition, position_at at 1. cbn [positions_].
    rewrite nth_lookup, list_lookup_insert_eq by lia. cbn.
    fold old. fold oq. fold oa.
    destruct (Qeq_dec (oq + quantity) 0) as [E | _]; [contradiction|].
    destruct (Qlt_le_dec 0 (oq * (oq + quantity))) as [L | _]; [exfalso; lra | reflexivity]. }
  split.
  - unfold e', updatePosition. cbn [daily_pnl_]. fold old. fold oq. fold oa.
    destruct (Qlt_le_dec (oq * quantity) 0) as [_ | G]; [|exfalso; lra].
    unfold calculateRealizedPnL, std_min, std_abs.
    destruct (Qlt_le_dec (Qabs quantity) (Qabs oq)) as [L | _]; [exfalso; lra|].
    reflexivity.
  - rewrite Hnew. cbn [pos_quantity pos_avg_price pos_value].
    split; [reflexivity|]. split; [destruct Hsign; nra|]. split; reflexivity.
Qed.

(** X5. The total exposure is never negative and no slot's [|value|]
    exceeds it. *)
Theorem getTotalExposure_bounds (e : RiskEngine) (p : PositionInfo) :
  (0 <= getTotalExposure e)%Q /\
  (In p (positions_ e) -> Qabs (pos_value p) <= getTotalExposure e)%Q.
Proof.
  unfold getTotalExposure. split.
  - apply exposure_fold_ge.
  - intros Hin. pose proof (exposure_fold_bounds (positions_ e) 0 p Hin) as H.
    rewrite Qplus_0_l in H. exact H.
Qed.

(** X6. Order-count updates add up modulo the [int] range: two updates
    are one update by the sum, and an update followed by the opposite
    update restores an engine whose count is a valid [int]. *)
Theorem updateOrderCount_pairs (delta delta' : Z) (e : RiskEngine) :
  updateOrderCount delta' (updateOrderCount delta e)
  = updateOrderCount (delta + delta') e /\
  (- 2 ^ 31 <= open_orders_ e < 2 ^ 31 ->
   updateOrderCount (- delta) (updateOrderCount delta e) = e).
Proof.
  split.
  - unfold updateOrderCount. cbn. f_equal.
    rewrite wrap_int32_add. f_equal. lia.
  - intros Hr. destruct e. unfold updateOrderCount. cbn in *. f_equal.
    rewrite wrap_int32_add.
    replace (open_orders_0 + delta + - delta) with open_orders_0 by lia.
    now apply wrap_int32_id.
Qed.


End RiskPositionProperties.

Lemma updatePosition_writes_own_slot_witness :
  let e := fst (Risk.run risk_config [Risk.OpStart]) in
  Risk.position_at (Risk.updatePosition "BTCUSDT" (1 # 1) (100 # 1) e) "ETHUSDT"
  = Risk.position_at e "ETHUSDT".
Proof.
  refine (proj1 (proj2 (proj2 (updatePosition_writes_own_slot risk_config [Risk.OpStart]
                                 "BTCUSDT" "ETHUSDT" (1 # 1) (100 # 1)))) _).
  vm_compute. discriminate.
Defined.

Lemma updatePosition_open_close_pnl_witness :
  (Risk.daily_pnl_
     (Risk.updatePosition "X" (- (1 # 1)) (110 # 1)
        (Risk.updatePosition "X" (1 # 1) (100 # 1) (fst (Risk.run risk_config []))))
   == Risk.daily_pnl_ (fst (Risk.run risk_config [])) + (1 # 1) * ((110 # 1) - (100 # 1)))%Q.
Proof.
  refine (proj1 (proj2 (updatePosition_open_close_pnl risk_config [] "X"
                          (1 # 1) (100 # 1) (110 # 1) _ _))).
  - vm_compute. reflexivity.
  - vm_compute. discriminate.
Defined.

Lemma updatePosition_reversal_witness :
  let e := fst (Risk.run risk_config [Risk.OpUpdatePosition "X" (2 # 1) (100 # 1)]) in
  let e' := Risk.updatePosition "X" (- (3 # 1)) (130 # 1) e in
  Risk.pos_avg_price (Risk.position_at e' "X") = (130 # 1)%Q /\
  Risk.pos_value (Risk.position_at e' "X")
  = (Risk.pos_quantity (Risk.position_at e' "X") * (130 # 1))%Q.
Proof.
  intros e e'.
  refine (proj2 (proj2 (proj2 (updatePosition_reversal risk_config
                   [Risk.OpUpdatePosition "X" (2 # 1) (100 # 1)] "X" (- (3 # 1)) (130 # 1)
                   _ _)))).
  - vm_compute. reflexivity.
  - vm_compute. reflexivity.
Defined.

Lemma getTotalExposure_bounds_witness :
  let e := fst (Risk.run risk_config [Risk.OpUpdatePosition "X" (2 # 1) (100 # 1)]) in
  (Qabs (Risk.pos_value (Risk.position_at e "X")) <= Risk.getTotalExposure e)%Q.
Proof.
  intros e.
  refine (proj2 (getTotalExposure_bounds e (Risk.position_at e "X")) _).
  vm_compute.
  do 88 right. left. reflexivity.
Defined.

Lemma updateOrderCount_pairs_witness :
  Risk.updateOrderCount (- 1) (Risk.updateOrderCount 1 risk_started) = risk_started.
Proof.
  refine (proj2 (updateOrderCount_pairs 1 0 risk_started) _).
  vm_compute. split; [discriminate | reflexivity].
Defined.


(** * More on the order manager: the index, cancellation, dispatch *)

Section OrderIndexFacts.

Import OrderMgr.

Lemma index_ok_make config now : index_ok (make config now).
Proof.
  unfold index_ok, make. cbn. split; [lia|]. split.
  - intros k o H. rewrite lookup_empty in H. discriminate.
  - intros v k [].
Qed.

Lemma status_not_canceled_process order now_us m :
  status order <> CANCELED ->
  ProcessOrder order now_us m
  = with_index (<[next_order_id_ m := set_id_created (next_order_id_ m) now_us order]>
                  (orders_ m))
      (append_id (exchange_orders_ m) (exchange order) (next_order_id_ m))
      (wrap64 (next_order_id_ m + 1)) m.
Proof. intros H. unfold ProcessOrder. destruct (status order); congruence. Qed.

Lemma index_ok_fresh_key m :
  index_ok m -> orders_ m !! next_order_id_ m = None.
Proof.
  intros (_ & Hk & _). destruct (orders_ m !! next_order_id_ m) as [o|] eqn:E; [|reflexivity].
  apply Hk in E. lia.
Qed.

Lemma index_ok_process order now_us m :
  index_ok m -> status order <> CANCELED -> next_order_id_ m + 1 < 2 ^ 64 ->
  index_ok (ProcessOrder order now_us m).
Proof.
  intros (Hn & Hk & Hv) Hs Hw. rewrite status_not_canceled_process by assumption.
  unfold index_ok, with_index. cbn.
  assert (Hnext : wrap64 (next_order_id_ m + 1) = next_order_id_ m + 1)
    by (unfold wrap64; apply Z.mod_small; lia).
  rewrite Hnext. split; [lia|]. split.
  - intros k o. rewrite lookup_insert. case_decide as E.
    + intros [= <-]. subst k. cbn. lia.
    + intros H. apply Hk in H. lia.
  - intros v k. unfold append_id. intros Hin. rewrite lookup_insert.
    destruct (decide (next_order_id_ m = k)) as [Ek | Ek]; [eauto|].
    destruct (decide (v = exchange order)) as [Ev | Ev]; [|now apply (Hv v)].
    apply in_app_or in Hin as [Hin | [Hin | []]]; [now apply (Hv v) | congruence].
Qed.

Lemma index_ok_cancel order_id venue now_us m :
  index_ok m -> index_ok (ProcessCancellation order_id venue now_us m).
Proof.
  intros Hok. pose proof Hok as (Hn & Hk & Hv). unfold ProcessCancellation.
  destruct (orders_ m !! order_id) as [o|] eqn:E; [|exact Hok].
  case_decide; [|exact Hok].
  unfold index_ok, with_index. cbn. split; [lia|]. split.
  - intros k o'. rewrite lookup_insert. case_decide as Ek.
    + intros [= <-]. subst k. cbn. now apply Hk.
    + apply Hk.
  - intros v k Hin. rewrite lookup_insert. case_decide; [eauto|]. now apply (Hv v).
Qed.

Lemma omap_lookup_insert_fresh (orders : gmap Z Order) (k : Z) (o : Order) (ids : list Z) :
  (forall j, In j ids -> j <> k) ->
  omap (fun j => <[k := o]> orders !! j) ids = omap (fun j => orders !! j) ids.
Proof.
  induction ids as [|j ids IH]; intros H; cbn; [reflexivity|].
  rewrite lookup_insert_ne by (intros ->; apply (H j); [now left | reflexivity]).
  rewrite IH by (intros j' Hj; apply H; now right). reflexivity.
Qed.

(** What one admitted order does to the index. *)
Lemma process_step order now_us m :
  index_ok m -> status order <> CANCELED -> next_order_id_ m + 1 < 2 ^ 64 ->
  let m' := ProcessOrder order now_us m in
  next_order_id_ m' = next_order_id_ m + 1 /\
  GetOrder (next_order_id_ m) m' = Some (set_id_created (next_order_id_ m) now_us order) /\
  (forall k, k <> next_order_id_ m -> GetOrder k m' = GetOrder k m) /\
  (forall v, GetOrdersByExchange v m'
             = GetOrdersByExchange v m
               ++ (if decide (v = exchange order)
                   then [set_id_created (next_order_id_ m) now_us order] else [])).
Proof.
  intros Hok Hs Hw. pose proof Hok as (Hn & Hk & Hv).
  cbv zeta. rewrite status_not_canceled_process by assumption.
  unfold GetOrder, GetOrdersByExchange, with_index. cbn.
  split; [unfold wrap64; apply Z.mod_small; lia|].
  split; [apply lookup_insert_eq|].
  split; [intros k Hne; now apply lookup_insert_ne|].
  intros v. unfold append_id.
  assert (Hfresh : forall j, In j (exchange_orders_ m v) -> j <> next_order_id_ m).
  { intros j Hin ->. apply Hv in Hin as [o Ho].
    rewrite index_ok_fresh_key in Ho by assumption. discriminate. }
  case_decide as Ev.
  - rewrite omap_app, omap_lookup_insert_fresh by assumption.
    cbn. rewrite lookup_insert_eq. reflexivity.
  - rewrite omap_lookup_insert_fresh by assumption. now rewrite app_nil_r.
Qed.

End OrderIndexFacts.

Section OrderIndexProperties.

Import OrderMgr.

(** X12. Admission assigns a fresh identifier. With the index in
    order, [ProcessOrder] on an order that is not a cancellation stores
    it under [next_order_id_], an identifier no stored order has and
    above all of them, with the side, price and quantity it came with
    and [created_at] stamped; no other record changes and the next
    identifier is one more. *)
Theorem ProcessOrder_assigns_fresh_id (order : Order) (now_us : Z) (m : OrderManager) :
  index_ok m ->
  status order <> CANCELED ->
  next_order_id_ m + 1 < 2 ^ 64 ->
  let new_id := next_order_id_ m in
  let m' := ProcessOrder order now_us m in
  GetOrder new_id m = None /\
  (forall k o, GetOrder k m = Some o -> k < new_id) /\
  (exists stored, GetOrder new_id m' = Some stored /\
     id stored = new_id /\ created_at stored = now_us /\
     side stored = side order /\ price stored = price order /\
     quantity stored = quantity order /\ symbol stored = symbol order /\
     exchange stored = exchange order /\ status stored = status order) /\
  (forall k, k <> new_id -> GetOrder k m' = GetOrder k m) /\
  next_order_id_ m' = new_id + 1 /\
  index_ok m'.
Proof.
  intros Hok Hs Hw new_id m'.
  destruct (process_step order now_us m Hok Hs Hw) as (Hn & Hg & Ho & _).
  split; [now apply index_ok_fresh_key|].
  split; [intros k o H; destruct Hok as (_ & Hk & _); apply Hk in H; unfold new_id; lia|].
  split; [eexists; split; [exact Hg | cbn; repeat split]|].
  split; [exact Ho|]. split; [exact Hn|].
  now apply index_ok_process.
Qed.

(** X13. The per-venue view is in admission order. After a batch of
    orders (none a cancellation) is processed, [GetOrdersByExchange]
    of a venue is what it was before followed by the admitted orders of
    that venue, in batch order, each with the identifier it got:
    consecutive identifiers from [next_order_id_] on. *)
Theorem GetOrdersByExchange_admission_order (batch : list (Order * Z)) :
  forall (m : OrderManager) (venue : ExchangeType),
  index_ok m ->
  Forall (fun x => status (fst x) <> CANCELED) batch ->
  next_order_id_ m + Z.of_nat (length batch) < 2 ^ 64 ->
  let m' := process_all batch m in
  next_order_id_ m' = next_order_id_ m + Z.of_nat (length batch) /\
  index_ok m' /\
  GetOrdersByExchange venue m'
  = GetOrdersByExchange venue m
    ++ omap (fun x => if decide (exchange (fst (snd x)) = venue)
                      then Some (set_id_created (fst x) (snd (snd x)) (fst (snd x)))
                      else None)
         (zip (seqZ (next_order_id_ m) (Z.of_nat (length batch))) batch).
Proof.
  induction batch as [|[o t] batch IH]; intros m venue Hok Hall Hw; cbn [process_all fold_left].
  - cbn. rewrite Z.add_0_r, app_nil_r. auto.
  - inversion Hall as [|? ? Hs Hall']; subst. cbn [fst snd length] in *.
    assert (Hw1 : next_order_id_ m + 1 < 2 ^ 64) by lia.
    destruct (process_step o t m Hok Hs Hw1) as (Hn & _ & _ & Hv).
    pose proof (index_ok_process o t m Hok Hs Hw1) as Hok1.
    specialize (IH (ProcessOrder o t m) venue Hok1 Hall').
    rewrite Hn in IH. specialize (IH ltac:(lia)).
    destruct IH as (Hn' & Hok' & Hl).
    fold (process_all batch (ProcessOrder o t m)).
    split; [rewrite Hn'; lia|]. split; [exact Hok'|].
    rewrite Hl, Hv, <- app_assoc. f_equal.
    replace (Z.of_nat (S (length batch))) with (1 + Z.of_nat (length batch)) by lia.
    rewrite seqZ_app by lia. cbn [seqZ].
    replace (seqZ (next_order_id_ m) 1) with [next_order_id_ m] by (cbn; f_equal; lia).
    cbn [app zip zip_with omap list_omap fst snd].
    destruct (decide (venue = exchange o)) as [-> | Hne].
    + rewrite decide_True by reflexivity. reflexivity.
    + rewrite decide_False by congruence. reflexivity.
Qed.

(** X14. A cancellation marks and does nothing else. [ProcessOrder]
    on a record with status [CANCELED] sets the status of the stored
    order of that identifier to [CANCELED] and stamps [updated_at] when
    the order exists and its venue is the one named; with an unknown
    identifier or another venue the manager is unchanged. It never
    assigns an identifier and never touches another record. *)
Theorem ProcessOrder_cancellation (order : Order) (now_us : Z) (m : OrderManager) :
  status order = CANCELED ->
  let m' := ProcessOrder order now_us m in
  next_order_id_ m' = next_order_id_ m /\
  exchange_orders_ m' = exchange_orders_ m /\
  (forall k, k <> id order -> GetOrder k m' = GetOrder k m) /\
  match GetOrder (id order) m with
  | Some o =>
      if decide (exchange o = exchange order)
      then GetOrder (id order) m' = Some (set_canceled now_us o)
      else m' = m
  | None => m' = m
  end.
Proof.
  intros Hs. cbv zeta. unfold ProcessOrder. rewrite Hs.
  unfold ProcessCancellation, GetOrder.
  destruct (orders_ m !! id order) as [o|] eqn:E.
  - destruct (decide (exchange o = exchange order)) as [Hv | Hv]; cbn.
    + repeat split; [|apply lookup_insert_eq].
      intros k Hne. now apply lookup_insert_ne.
    + repeat split.
  - repeat split.
Qed.

(** X15. [UpdateOrder] returns [false] exactly when no order has the
    identifier, and then changes nothing; otherwise the record read
    back under that identifier is the one given, every other record is
    as before, and a second identical call changes nothing more. *)
Theorem UpdateOrder_lookup (order : Order) (m : OrderManager) :
  (fst (UpdateOrder order m) = false <-> GetOrder (id order) m = None) /\
  (fst (UpdateOrder order m) = false -> snd (UpdateOrder order m) = m) /\
  (fst (UpdateOrder order m) = true ->
   GetOrder (id order) (snd (UpdateOrder order m)) = Some order) /\
  (forall k, k <> id order ->
   GetOrder k (snd (UpdateOrder order m)) = GetOrder k m) /\
  UpdateOrder order (snd (UpdateOrder order m))
  = (fst (UpdateOrder order m), snd (UpdateOrder order m)).
Proof.
  unfold UpdateOrder, GetOrder.
  destruct (orders_ m !! id order) as [o|] eqn:E; cbn.
  - split; [split; discriminate|]. split; [discriminate|].
    split; [intros _; apply lookup_insert_eq|].
    split; [intros k Hne; now apply lookup_insert_ne|].
    rewrite lookup_insert_eq. unfold with_index. cbn. rewrite insert_insert_eq. reflexivity.
  - rewrite E. split; [split; reflexivity|]. split; [reflexivity|].
    split; [discriminate|]. split; reflexivity.
Qed.

(** X16. The latency statistics track the extremes. After any
    sequence of recorded latencies, every recorded latency lies between
    [min_latency_us] and [max_latency_us]; the minimum never rises and
    the maximum never falls. *)
Theorem UpdateLatencyStats_extremes (lats : list Z) (s : Stats) (l : Z) :
  let s' := fold_left (fun s l => UpdateLatencyStats l s) lats s in
  min_latency_us s' <= min_latency_us s /\
  max_latency_us s <= max_latency_us s' /\
  (In l lats -> min_latency_us s' <= l <= max_latency_us s').
Proof.
  revert s. induction lats as [|x lats IH]; intros s; cbn [fold_left].
  - cbn. split; [lia|]. split; [lia|]. intros [].
  - specialize (IH (UpdateLatencyStats x s)). cbv zeta in IH.
    destruct IH as (Hmin & Hmax & Hin).
    set (s' := fold_left _ lats _) in *.
    assert (H1 : min_latency_us (UpdateLatencyStats x s) <= x
                 /\ min_latency_us (UpdateLatencyStats x s) <= min_latency_us s).
    { cbn. destruct (Z.ltb_spec x (min_latency_us s)); lia. }
    assert (H2 : x <= max_latency_us (UpdateLatencyStats x s)
                 /\ max_latency_us s <= max_latency_us (UpdateLatencyStats x s)).
    { cbn. rewrite Z.gtb_ltb. destruct (Z.ltb_spec (max_latency_us s) x); lia. }
    cbv zeta. split; [lia|]. split; [lia|].
    intros [<- | Hl]; [lia | now apply Hin].
Qed.

End OrderIndexProperties.

Section DispatchFacts.

Import OrderMgr.

(** On an empty ring with room for one element, a push followed by a
    pop hands the element back and leaves the ring empty. *)
Lemma ring_push_pop_single {T} (dflt : T) (r : RingBuffer.t T) (x : T) :
  RingBuffer.inv r -> RingBuffer.empty r = true -> 2 <= RingBuffer.capacity r ->
  exists r1 r2,
    RingBuffer.push r x = (true, r1) /\ RingBuffer.inv r1 /\
    RingBuffer.pop dflt r1 = (Some x, r2) /\ RingBuffer.inv r2 /\
    RingBuffer.empty r2 = true /\ RingBuffer.capacity r2 = RingBuffer.capacity r.
Proof.
  intros H He Hc. apply Z.eqb_eq in He.
  pose proof (proj2 (size_zero_iff r H) He) as Hs.
  pose proof (push_false_iff r x H) as Hf.
  pose proof (inv_push r x H) as Hi.
  pose proof (capacity_push r x) as Hcap.
  pose proof (contents_push dflt r x H) as Hcs.
  destruct (RingBuffer.push r x) as [ok r1] eqn:Epush. cbn [fst snd] in *.
  destruct ok; [|exfalso; assert (E : false = false) by reflexivity; apply Hf in E; lia].
  specialize (Hcs eq_refl).
  rewrite (proj2 (contents_nil_iff dflt r H) He) in Hcs. cbn in Hcs.
  assert (Hne : RingBuffer.producer_head r1 <> RingBuffer.consumer_tail r1).
  { intros E. apply (contents_nil_iff dflt r1 Hi) in E. rewrite E in Hcs. discriminate. }
  destruct (contents_pop dflt r1 Hi Hne) as (y & Hy & Hcy).
  pose proof (inv_pop dflt r1 Hi) as Hi2.
  assert (Hcap2 : RingBuffer.capacity (snd (RingBuffer.pop dflt r1)) = RingBuffer.capacity r1).
  { unfold RingBuffer.pop. destruct (_ =? _); reflexivity. }
  destruct (RingBuffer.pop dflt r1) as [o r2] eqn:Epop. cbn [fst snd] in *. subst o.
  rewrite Hcs in Hcy. injection Hcy as <- Hnil.
  exists r1, r2.
  split; [reflexivity|]. split; [exact Hi|]. split; [exact Epop|]. split; [exact Hi2|].
  split; [|congruence].
  apply Z.eqb_eq. apply (contents_nil_iff dflt r2 Hi2). now symmetry.
Qed.

(** Inside the window and below the limit the outcome of
    [SubmitOrder] is the outcome of the push. *)
Lemma SubmitOrder_below_limit now o m :
  now - last_rate_check_ m < ONE_SECOND_NS \/ orders_this_second_ m = 0 ->
  0 <= orders_this_second_ m < max_orders_per_second (config_ m) ->
  orders_this_second_ m + 1 < 2 ^ 32 ->
  fst (RingBuffer.push (order_queues_ m (exchange o)) o) = true ->
  exists m',
    SubmitOrder now o m = (true, m') /\
    order_queues_ m' = set_queue (order_queues_ m) (exchange o)
                         (snd (RingBuffer.push (order_queues_ m (exchange o)) o)) /\
    orders_ m' = orders_ m /\ exchange_orders_ m' = exchange_orders_ m /\
    next_order_id_ m' = next_order_id_ m /\ stats_ m' = stats_ m /\
    config_ m' = config_ m /\
    orders_this_second_ m' = orders_this_second_ m + 1.
Proof.
  intros Hw Hc Hb Hp. unfold SubmitOrder.
  assert (Hcnt : (if now - last_rate_check_ m >=? ONE_SECOND_NS
                  then (0, now) else (orders_this_second_ m, last_rate_check_ m))
                 = (orders_this_second_ m,
                    if now - last_rate_check_ m >=? ONE_SECOND_NS
                    then now else last_rate_check_ m)).
  { destruct (Z.geb_spec (now - last_rate_check_ m) ONE_SECOND_NS); [|reflexivity].
    destruct Hw as [Hw | ->]; [lia | reflexivity]. }
  rewrite Hcnt.
  destruct (Z.geb_spec (orders_this_second_ m) (max_orders_per_second (config_ m))); [lia|].
  destruct (RingBuffer.push (order_queues_ m (exchange o)) o) as [ok q'].
  cbn [fst snd] in *. subst ok. cbn [negb].
  eexists. split; [reflexivity|]. cbn. repeat split.
  unfold wrap32. apply Z.mod_small. lia.
Qed.

End DispatchFacts.

Section DispatchProperties.

Import OrderMgr.

(** X17. Submission to lookup, end to end. On a freshly built manager
    with rings of at least two slots and a limit of at least one order
    per second, an order that is not a cancellation is accepted by
    [SubmitOrder], is not in the index until the worker reaches its
    venue, and after one dispatch of that venue is read back by
    [GetOrder(1)] with identifier 1, [created_at] stamped and every
    other field as submitted; the venue's ring is empty again and one
    order is counted as processed. *)
Theorem submit_dispatch_lookup (config : Config) (t0 now : Z)
    (clock : ExchangeType -> Readings) (order : Order) :
  2 <= ring_buffer_size config <= 2 ^ 63 ->
  1 <= max_orders_per_second config ->
  status order <> CANCELED ->
  let '(accepted, m1) := SubmitOrder now order (make config t0) in
  let '(processed, m2) := dispatch_venue clock (exchange order) m1 in
  accepted = true /\ GetOrder 1 m1 = None /\
  processed = true /\
  GetOrder 1 m2 = Some (set_id_created 1 (now_us (clock (exchange order))) order) /\
  GetOrdersByExchange (exchange order) m2
  = [set_id_created 1 (now_us (clock (exchange order))) order] /\
  RingBuffer.empty (order_queues_ m2 (exchange order)) = true /\
  orders_processed (stats_ m2) = 1 /\ orders_rejected (stats_ m2) = 0.
Proof.
  intros Hsize Hlimit Hs.
  set (m0 := make config t0).
  set (r := order_queues_ m0 (exchange order)).
  assert (Hinv : RingBuffer.inv r) by (apply inv_make; lia).
  assert (Hcap : 2 <= RingBuffer.capacity r).
  { destruct (make_rounds_up zero_order (ring_buffer_size config) ltac:(lia))
      as (k & _ & Hc & Hle & _).
    unfold r, m0, make. cbn [order_queues_]. lia. }
  destruct (ring_push_pop_single zero_order r order Hinv eq_refl Hcap)
    as (r1 & r2 & Hpush & Hi1 & Hpop & Hi2 & He2 & _).
  destruct (SubmitOrder_below_limit now order m0) as (m1 & E1 & Q1 & O1 & X1 & N1 & S1 & C1 & _).
  { right. reflexivity. }
  { cbn. lia. }
  { cbn. lia. }
  { fold r. now rewrite Hpush. }
  rewrite E1. fold r in Q1. rewrite Hpush in Q1. cbn [snd] in Q1.
  unfold dispatch_venue. rewrite Q1. unfold set_queue at 1.
  rewrite decide_True by reflexivity. rewrite Hpop.
  assert (Hproc : forall m', orders_ m' = orders_ m0 ->
            exchange_orders_ m' = exchange_orders_ m0 ->
            next_order_id_ m' = next_order_id_ m0 ->
            ProcessOrder order (now_us (clock (exchange order))) m'
            = with_index
                (<[1 := set_id_created 1 (now_us (clock (exchange order))) order]> ∅)
                (append_id (fun _ => []) (exchange order) 1) 2 m').
  { intros m' Ho Hx Hn. rewrite status_not_canceled_process by assumption.
    rewrite Ho, Hx, Hn. reflexivity. }
  rewrite Hproc by (cbn; assumption).
  cbn. unfold GetOrder, GetOrdersByExchange. cbn.
  rewrite O1, S1. cbn.
  split; [reflexivity|]. split; [apply lookup_empty|]. split; [reflexivity|].
  split; [apply lookup_insert_eq|]. split.
  - unfold append_id. rewrite decide_True by reflexivity. cbn.
    rewrite lookup_insert_eq. reflexivity.
  - unfold set_queue. rewrite decide_True by reflexivity.
    split; [exact He2|]. split; reflexivity.
Qed.

(** X18. A cancellation takes the admission path. With the index in
    order, the rate limit not reached and the venue's ring empty with
    room for an element, [CancelOrder(id, venue)] for a stored order of
    that venue is accepted and uses one unit of the per-second budget;
    the next dispatch of the venue sets the order's status to
    [CANCELED], stamps [updated_at], keeps its other fields and assigns
    no identifier. *)
Theorem CancelOrder_dispatch (junk o : Order) (order_id now : Z) (venue : ExchangeType)
    (clock : ExchangeType -> Readings) (m : OrderManager) :
  GetOrder order_id m = Some o ->
  exchange o = venue ->
  now - last_rate_check_ m < ONE_SECOND_NS ->
  0 <= orders_this_second_ m < max_orders_per_second (config_ m) ->
  orders_this_second_ m + 1 < 2 ^ 32 ->
  RingBuffer.inv (order_queues_ m venue) ->
  RingBuffer.empty (order_queues_ m venue) = true ->
  2 <= RingBuffer.capacity (order_queues_ m venue) ->
  let '(accepted, m1) := CancelOrder junk order_id venue now m in
  let '(processed, m2) := dispatch_venue clock venue m1 in
  accepted = true /\ orders_this_second_ m1 = orders_this_second_ m + 1 /\
  GetOrder order_id m1 = Some o /\
  processed = true /\
  GetOrder order_id m2 = Some (set_canceled (now_us (clock venue)) o) /\
  (forall k, k <> order_id -> GetOrder k m2 = GetOrder k m) /\
  next_order_id_ m2 = next_order_id_ m.
Proof.
  intros Hget Hv Hw Hc Hb Hinv Hempty Hcap.
  unfold CancelOrder.
  set (c := {| id := order_id; client_order_id := ""; exchange := venue |}).
  destruct (ring_push_pop_single zero_order (order_queues_ m venue) c Hinv Hempty Hcap)
    as (r1 & r2 & Hpush & Hi1 & Hpop & Hi2 & He2 & _).
  destruct (SubmitOrder_below_limit now c m) as (m1 & E1 & Q1 & O1 & X1 & N1 & S1 & C1 & K1).
  { now left. }
  { exact Hc. }
  { exact Hb. }
  { cbn [exchange c]. now rewrite Hpush. }
  rewrite E1. cbn [exchange c] in Q1. rewrite Hpush in Q1. cbn [snd] in Q1.
  unfold dispatch_venue. rewrite Q1. unfold set_queue at 1.
  rewrite decide_True by reflexivity. rewrite Hpop.
  unfold ProcessOrder. cbn [status c id exchange].
  unfold ProcessCancellation. cbn [orders_ with_queues]. rewrite O1.
  unfold GetOrder in *. rewrite Hget. rewrite decide_True by assumption.
  cbn. rewrite O1, N1.
  split; [reflexivity|]. split; [exact K1|]. split; [exact Hget|].
  split; [reflexivity|]. split; [apply lookup_insert_eq|].
  split; [intros k Hne; now apply lookup_insert_ne | reflexivity].
Qed.

(** X19. A pass of the worker over venues whose rings are all empty
    processes nothing and changes nothing, and that is the only case in
    which the pass reports no work. *)
Theorem dispatch_pass_idle (clock : ExchangeType -> Readings) (venues : list ExchangeType) :
  forall m : OrderManager,
  (fst (dispatch_pass clock venues m) = false
   <-> forall v, In v venues -> RingBuffer.empty (order_queues_ m v) = true) /\
  (fst (dispatch_pass clock venues m) = false -> snd (dispatch_pass clock venues m) = m).
Proof.
  induction venues as [|v venues IH]; intros m; cbn [dispatch_pass].
  - cbn. split; [split; [intros _ ? [] | reflexivity] | reflexivity].
  - assert (Hd : (RingBuffer.empty (order_queues_ m v) = true
                  /\ dispatch_venue clock v m = (false, m))
                 \/ (RingBuffer.empty (order_queues_ m v) = false
                     /\ fst (dispatch_venue clock v m) = true)).
    { unfold dispatch_venue, RingBuffer.pop, RingBuffer.empty.
      rewrite (Z.eqb_sym (RingBuffer.consumer_tail _)).
      destruct (_ =? _); [left | right]; split; reflexivity. }
    destruct Hd as [[He Hd] | [He Hd]].
    + rewrite Hd. destruct (IH m) as [Hiff Hsame].
      destruct (dispatch_pass clock venues m) as [bs m'']. cbn [fst snd orb] in *.
      split; [|exact Hsame].
      rewrite Hiff. split.
      * intros H v' [<- | Hin]; [exact He | now apply H].
      * intros H v' Hin. apply H. now right.
    + destruct (dispatch_venue clock v m) as [b m']. cbn [fst] in Hd. subst b.
      destruct (dispatch_pass clock venues m') as [bs m'']. cbn [fst snd orb].
      split; [|discriminate].
      split; [discriminate|]. intros H. specialize (H v (or_introl eq_refl)). congruence.
Qed.

End DispatchProperties.

Lemma ProcessOrder_assigns_fresh_id_witness :
  OrderMgr.GetOrder 1 (OrderMgr.ProcessOrder order1 777 om_fresh)
  = Some (OrderMgr.set_id_created 1 777 order1) /\
  OrderMgr.next_order_id_ (OrderMgr.ProcessOrder order1 777 om_fresh) = 1 + 1.
Proof.
  destruct (ProcessOrder_assigns_fresh_id order1 777 om_fresh)
    as (_ & _ & (stored & Hs & _) & _ & Hn & _).
  - apply index_ok_make.
  - discriminate.
  - vm_compute. reflexivity.
  - split; [|exact Hn]. vm_compute. reflexivity.
Defined.

Lemma GetOrdersByExchange_admission_order_witness :
  OrderMgr.GetOrdersByExchange BINANCE_SPOT
    (OrderMgr.process_all [(order1, 10); (order2, 20)] om_fresh)
  = OrderMgr.GetOrdersByExchange BINANCE_SPOT om_fresh
    ++ omap (fun x => if decide (exchange (fst (snd x)) = BINANCE_SPOT)
                      then Some (OrderMgr.set_id_created (fst x) (snd (snd x)) (fst (snd x)))
                      else None)
         (zip (seqZ (OrderMgr.next_order_id_ om_fresh)
                 (Z.of_nat (length [(order1, 10); (order2, 20)])))
            [(order1, 10); (order2, 20)]).
Proof.
  refine (proj2 (proj2 (GetOrdersByExchange_admission_order
                          [(order1, 10); (order2, 20)] om_fresh BINANCE_SPOT _ _ _))).
  - apply index_ok_make.
  - repeat constructor; discriminate.
  - vm_compute. reflexivity.
Defined.

Lemma ProcessOrder_cancellation_witness :
  OrderMgr.next_order_id_
    (OrderMgr.ProcessOrder
       {| id := 1; client_order_id := ""; exchange := BINANCE_SPOT; symbol := "";
          side := BUY; type := MARKET; price := 0; quantity := 0; executed_quantity := 0;
          status := CANCELED; time_in_force := GTC; created_at := 0; updated_at := 0 |}
       900 (OrderMgr.ProcessOrder order1 777 om_fresh))
  = OrderMgr.next_order_id_ (OrderMgr.ProcessOrder order1 777 om_fresh).
Proof.
  refine (proj1 (ProcessOrder_cancellation _ 900 (OrderMgr.ProcessOrder order1 777 om_fresh) _)).
  reflexivity.
Defined.

Lemma UpdateOrder_lookup_witness :
  fst (OrderMgr.UpdateOrder order1 om_fresh) = false /\
  snd (OrderMgr.UpdateOrder order1 om_fresh) = om_fresh.
Proof.
  assert (H : fst (OrderMgr.UpdateOrder order1 om_fresh) = false) by reflexivity.
  split; [exact H|].
  exact (proj1 (proj2 (UpdateOrder_lookup order1 om_fresh)) H).
Defined.

Lemma UpdateLatencyStats_extremes_witness :
  let s' := fold_left (fun s l => OrderMgr.UpdateLatencyStats l s) [30; 10; 20]
              OrderMgr.initial_stats in
  OrderMgr.min_latency_us s' <= 10 <= OrderMgr.max_latency_us s'.
Proof.
  intros s'.
  refine (proj2 (proj2 (UpdateLatencyStats_extremes [30; 10; 20]
                          OrderMgr.initial_stats 10)) _).
  right. left. reflexivity.
Defined.

Lemma submit_dispatch_lookup_witness :
  let '(accepted, m1) := OrderMgr.SubmitOrder 100 order1 (OrderMgr.make om_config 0) in
  let '(processed, m2) := OrderMgr.dispatch_venue om_clock (exchange order1) m1 in
  accepted = true /\ OrderMgr.GetOrder 1 m1 = None /\
  processed = true /\
  OrderMgr.GetOrder 1 m2
  = Some (OrderMgr.set_id_created 1 (OrderMgr.now_us (om_clock (exchange order1))) order1) /\
  OrderMgr.GetOrdersByExchange (exchange order1) m2
  = [OrderMgr.set_id_created 1 (OrderMgr.now_us (om_clock (exchange order1))) order1] /\
  RingBuffer.empty (OrderMgr.order_queues_ m2 (exchange order1)) = true /\
  OrderMgr.orders_processed (OrderMgr.stats_ m2) = 1 /\
  OrderMgr.orders_rejected (OrderMgr.stats_ m2) = 0.
Proof.
  apply (submit_dispatch_lookup om_config 0 100 om_clock order1).
  - vm_compute. split; discriminate.
  - vm_compute. discriminate.
  - discriminate.
Defined.

Lemma CancelOrder_dispatch_witness :
  let '(accepted, m1) :=
    OrderMgr.CancelOrder order2 1 (exchange order1) 200 om_admitted in
  let '(processed, m2) := OrderMgr.dispatch_venue om_clock (exchange order1) m1 in
  accepted = true /\
  OrderMgr.orders_this_second_ m1 = OrderMgr.orders_this_second_ om_admitted + 1 /\
  OrderMgr.GetOrder 1 m1 = Some (OrderMgr.set_id_created 1 777 order1) /\
  processed = true /\
  OrderMgr.GetOrder 1 m2
  = Some (OrderMgr.set_canceled (OrderMgr.now_us (om_clock (exchange order1)))
            (OrderMgr.set_id_created 1 777 order1)) /\
  (forall k, k <> 1 -> OrderMgr.GetOrder k m2 = OrderMgr.GetOrder k om_admitted) /\
  OrderMgr.next_order_id_ m2 = OrderMgr.next_order_id_ om_admitted.
Proof.
  apply (CancelOrder_dispatch order2 (OrderMgr.set_id_created 1 777 order1) 1 200
           (exchange order1) om_clock om_admitted).
  - vm_compute. reflexivity.
  - reflexivity.
  - vm_compute. reflexivity.
  - vm_compute. split; [discriminate | reflexivity].
  - vm_compute. reflexivity.
  - unfold RingBuffer.inv.
    split; [exists 3; split; [lia | vm_compute; reflexivity]|].
    split; [vm_compute; reflexivity|]. split; [vm_compute; reflexivity|].
    split; vm_compute; (split; [discriminate | reflexivity]).
  - vm_compute. reflexivity.
  - vm_compute. discriminate.
Defined.

Lemma dispatch_pass_idle_witness :
  snd (OrderMgr.dispatch_pass om_clock [BINANCE_SPOT; BINANCE_FUTURES] om_fresh) = om_fresh.
Proof.
  refine (proj2 (dispatch_pass_idle om_clock [BINANCE_SPOT; BINANCE_FUTURES] om_fresh) _).
  vm_compute. reflexivity.
Defined.

(** * More on the arbitrage detector: the price matrix and the scan *)

Lemma substring_short (s : string) : forall n : nat,
  (String.length s <= n)%nat -> String.substring 0 n s = s.
Proof.
  induction s as [|c s IH]; intros n H; destruct n as [|n]; cbn in *;
    try reflexivity; try lia.
  f_equal. apply IH. lia.
Qed.

Lemma strncpy15_short (s : string) :
  (String.length s <= 15)%nat -> strncpy15 s = s.
Proof. apply substring_short. Qed.

Lemma fold_left_id {A B} (f : A -> B -> A) (l : list B) (a : A) :
  (forall x b, In b l -> f x b = x) -> fold_left f l a = a.
Proof.
  revert a. induction l as [|b l IH]; intros a H; cbn; [reflexivity|].
  rewrite H by now left. apply IH. intros x b' Hb. apply H. now right.
Qed.

Section PriceMatrixFacts.

Import Arbitrage.

Lemma matrix_ok_empty : matrix_ok empty_matrix.
Proof.
  unfold matrix_ok, empty_matrix. cbn [symbol_prices_ symbol_count_ symbol_index_].
  split; [apply length_replicate|]. split; [unfold MAX_SYMBOLS; lia|].
  split; [intros s i H; rewrite lookup_empty in H; discriminate|].
  split; [intros s s' i H; rewrite lookup_empty in H; discriminate|].
  assert (Hrow : forall i, 0 <= i < MAX_SYMBOLS ->
            symbol_row empty_matrix i = zero_symbol_prices).
  { intros i Hi. unfold symbol_row. cbn [symbol_prices_ empty_matrix].
    rewrite nth_lookup, lookup_replicate_2 by (unfold MAX_SYMBOLS in *; lia).
    reflexivity. }
  split; intros i Hi; rewrite Hrow by lia; cbn.
  - unfold MAX_EXCHANGES. split; [reflexivity | lia].
  - reflexivity.
Qed.

Lemma nth_insert_Z {A} (l : list A) (d x : A) (idx i : Z) :
  0 <= idx < Z.of_nat (length l) -> 0 <= i ->
  nth (Z.to_nat i) (<[Z.to_nat idx := x]> l) d
  = if decide (i = idx) then x else nth (Z.to_nat i) l d.
Proof.
  intros Hidx Hi. rewrite !nth_lookup. case_decide as E.
  - subst i. rewrite list_lookup_insert_eq by lia. reflexivity.
  - rewrite list_lookup_insert_ne by lia. reflexivity.
Qed.

Lemma symbol_row_set idxm rows cnt idx row i :
  0 <= idx < Z.of_nat (length rows) -> 0 <= i ->
  symbol_row {| symbol_index_ := idxm;
                symbol_prices_ := <[Z.to_nat idx := row]> rows;
                symbol_count_ := cnt |} i
  = if decide (i = idx) then row else nth (Z.to_nat i) rows zero_symbol_prices.
Proof. intros. unfold symbol_row. cbn [symbol_prices_]. now apply nth_insert_Z. Qed.

(** The first match of the linear search. *)
Lemma find_exchange_Some exchange slots : forall i j,
  find_exchange exchange slots i = Some j ->
  i <= j < i + Z.of_nat (length slots) /\
  feed_exchange (nth (Z.to_nat (j - i)) slots zero_feed) = exchange /\
  (forall k, i <= k < j ->
     feed_exchange (nth (Z.to_nat (k - i)) slots zero_feed) <> exchange).
Proof.
  induction slots as [|f slots IH]; intros i j H; cbn in H; [discriminate|].
  destruct (String.eqb_spec (feed_exchange f) exchange) as [E | E].
  - injection H as <-. cbn [length]. split; [lia|].
    rewrite Z.sub_diag. cbn. split; [exact E|]. intros k Hk. lia.
  - apply IH in H as (Hr & Hn & Hb). cbn [length]. split; [lia|].
    replace (Z.to_nat (j - i)) with (S (Z.to_nat (j - (i + 1)))) by lia.
    cbn. split; [exact Hn|].
    intros k Hk. destruct (Z.eq_dec k i) as [-> | Hne].
    + rewrite Z.sub_diag. cbn. exact E.
    + replace (Z.to_nat (k - i)) with (S (Z.to_nat (k - (i + 1)))) by lia.
      cbn. apply Hb. lia.
Qed.

(** [getOrCreateSymbolIndex] keeps the matrix in order. *)
Lemma getOrCreateSymbolIndex_ok symbol pm :
  matrix_ok pm ->
  let '(idx, pm') := getOrCreateSymbolIndex symbol pm in
  matrix_ok pm' /\ 0 <= idx <= MAX_SYMBOLS /\
  (idx = MAX_SYMBOLS ->
   pm' = pm /\ symbol_index_ pm !! symbol = None /\ symbol_count_ pm = MAX_SYMBOLS) /\
  (idx < MAX_SYMBOLS ->
   symbol_index_ pm' !! symbol = Some idx /\ idx < symbol_count_ pm' /\
   (forall s, s <> symbol -> symbol_index_ pm' !! s = symbol_index_ pm !! s) /\
   (forall i, 0 <= i -> i <> idx -> symbol_row pm' i = symbol_row pm i) /\
   feeds (symbol_row pm' idx) = feeds (symbol_row pm idx) /\
   exchange_count (symbol_row pm' idx) = exchange_count (symbol_row pm idx) /\
   (forall i, symbol_index_ pm !! symbol = Some i -> i = idx /\ pm' = pm) /\
   (symbol_index_ pm !! symbol = None ->
    idx = symbol_count_ pm /\ symbol_count_ pm' = symbol_count_ pm + 1)).
Proof.
  intros Hok. pose proof Hok as (Hlen & Hcnt & Hidx & Hinj & Hrows & Hfree).
  unfold getOrCreateSymbolIndex.
  destruct (symbol_index_ pm !! symbol) as [idx|] eqn:E.
  - pose proof (Hidx _ _ E) as Hi.
    split; [exact Hok|]. split; [lia|]. split; [lia|]. intros _.
    split; [exact E|]. split; [lia|].
    split; [reflexivity|]. split; [reflexivity|]. split; [reflexivity|].
    split; [reflexivity|].
    split; [|discriminate]. intros i Hi'. split; [congruence | reflexivity].
  - destruct (Z.geb_spec (symbol_count_ pm) MAX_SYMBOLS) as [Hfull | Hroom].
    + split; [exact Hok|]. split; [unfold MAX_SYMBOLS; lia|].
      split; [intros _; split; [reflexivity | split; [reflexivity | lia]] | lia].
    + set (n := symbol_count_ pm) in *.
      assert (Hw : wrap64 (n + 1) = n + 1).
      { unfold wrap64, MAX_SYMBOLS in *. apply Z.mod_small. lia. }
      assert (Hn : 0 <= n < Z.of_nat (length (symbol_prices_ pm))).
      { unfold MAX_SYMBOLS in *. lia. }
      split; [|split; [lia|split; [lia|]]].
      * unfold matrix_ok. cbn [symbol_prices_ symbol_count_ symbol_index_].
        rewrite Hw. split; [now rewrite length_insert|]. split; [lia|].
        split; [|split; [|split]].
        -- intros s i. rewrite lookup_insert. case_decide.
           ++ intros [= <-]. lia.
           ++ intros H'. apply Hidx in H'. lia.
        -- intros s s' i. rewrite !lookup_insert.
           repeat case_decide; subst; try reflexivity.
           ++ intros [= <-] H'. apply Hidx in H'. lia.
           ++ intros H' [= <-]. apply Hidx in H'. lia.
           ++ apply Hinj.
        -- intros i Hi. rewrite symbol_row_set by lia. case_decide.
           ++ cbn. subst i. apply Hrows. lia.
           ++ apply (Hrows i). lia.
        -- intros i Hi. rewrite symbol_row_set by lia.
           rewrite decide_False by lia. apply Hfree. lia.
      * intros _. cbn [symbol_index_ symbol_count_]. rewrite Hw.
        split; [apply lookup_insert_eq|]. split; [lia|].
        split; [intros s Hs; now apply lookup_insert_ne|].
        split; [intros i Hi Hne; rewrite symbol_row_set by lia; now rewrite decide_False|].
        rewrite symbol_row_set by lia. rewrite decide_True by reflexivity. cbn.
        split; [reflexivity|]. split; [reflexivity|]. split; [discriminate|].
        intros _. split; reflexivity.
Qed.

Lemma take_insert_len {A} (l : list A) (n i : nat) (x : A) :
  (i < n)%nat -> take n (<[i := x]> l) = <[i := x]> (take n l).
Proof. intros H. now rewrite take_insert_lt. Qed.

(** What an update does: dropped at a limit, stored otherwise. *)
Lemma updatePriceFeed_effect exchange symbol bp bq ap aq now pm d :
  matrix_ok pm ->
  let r := updatePriceFeed exchange symbol bp bq ap aq now pm d in
  matrix_ok (fst r) /\
  ((r = (pm, d) /\
    ((symbol_index_ pm !! symbol = None /\ symbol_count_ pm = MAX_SYMBOLS) \/
     (exists idx, symbol_index_ pm !! symbol = Some idx /\
        exchange_count (symbol_row pm idx) = MAX_EXCHANGES /\
        find_exchange exchange (venues (symbol_row pm idx)) 0 = None))) \/
   (exists idx j,
      let row := symbol_row pm idx in
      let row' := symbol_row (fst r) idx in
      snd r = count_price d /\
      symbol_index_ (fst r) !! symbol = Some idx /\
      (symbol_index_ pm !! symbol = Some idx /\ symbol_count_ (fst r) = symbol_count_ pm \/
       symbol_index_ pm !! symbol = None /\ idx = symbol_count_ pm /\
       symbol_count_ (fst r) = symbol_count_ pm + 1) /\
      (forall s, s <> symbol -> symbol_index_ (fst r) !! s = symbol_index_ pm !! s) /\
      (forall i, 0 <= i -> i <> idx -> symbol_row (fst r) i = symbol_row pm i) /\
      0 <= idx < MAX_SYMBOLS /\
      0 <= j < exchange_count row' /\
      feeds row' = <[Z.to_nat j := stored_feed exchange symbol bp bq ap aq now]> (feeds row) /\
      (find_exchange exchange (venues row) 0 = Some j /\
         exchange_count row' = exchange_count row \/
       find_exchange exchange (venues row) 0 = None /\
         j = exchange_count row /\ exchange_count row' = exchange_count row + 1))).
Proof.
  intros Hok. unfold updatePriceFeed.
  pose proof (getOrCreateSymbolIndex_ok symbol pm Hok) as G.
  destruct (getOrCreateSymbolIndex symbol pm) as [idx pm1].
  destruct G as (Hok1 & Hidx & Hfull & Hroom).
  destruct (Z.geb_spec idx MAX_SYMBOLS) as [Hge | Hlt].
  { assert (idx = MAX_SYMBOLS) as -> by lia.
    destruct (Hfull eq_refl) as (-> & Hnone & Hcount). cbn. split; [exact Hok|].
    left. split; [reflexivity|]. left. split; assumption. }
  clear Hfull. specialize (Hroom Hlt).
  destruct Hroom as (Hi1 & Hc1 & Hother & Hrows1 & Hfeeds & Hcount & Hknown & Hnew).
  pose proof Hok as (Hlen & Hcnt & Hix & Hinj & Hrw & Hfree).
  pose proof Hok1 as (Hlen1 & Hcnt1 & Hix1 & Hinj1 & Hrw1 & Hfree1).
  assert (Hidx0 : 0 <= idx < MAX_SYMBOLS) by (apply Hix1 in Hi1; lia).
  destruct (Hrw1 idx Hidx0) as (Hfl & Hec).
  assert (Hstate : symbol_index_ pm !! symbol = Some idx /\ symbol_count_ pm1 = symbol_count_ pm \/
                   symbol_index_ pm !! symbol = None /\ idx = symbol_count_ pm /\
                   symbol_count_ pm1 = symbol_count_ pm + 1).
  { destruct (symbol_index_ pm !! symbol) as [i|] eqn:E.
    - destruct (Hknown i eq_refl) as [-> ->]. left. split; reflexivity.
    - destruct (Hnew eq_refl) as [-> ->]. right. repeat split. }
  assert (Hv : venues (symbol_row pm idx)
               = take (Z.to_nat (exchange_count (symbol_row pm1 idx)))
                      (feeds (symbol_row pm1 idx))).
  { unfold venues. now rewrite Hfeeds, Hcount. }
  assert (Hset : forall row' i, 0 <= i ->
            symbol_row {| symbol_index_ := symbol_index_ pm1;
                          symbol_prices_ := <[Z.to_nat idx := row']> (symbol_prices_ pm1);
                          symbol_count_ := symbol_count_ pm1 |} i
            = if decide (i = idx) then row' else symbol_row pm1 i).
  { intros row' i Hi. apply symbol_row_set; [unfold MAX_SYMBOLS in *; lia | exact Hi]. }
  assert (Hkeep : forall fs c,
            length fs = Z.to_nat MAX_EXCHANGES -> 0 <= c <= MAX_EXCHANGES ->
            matrix_ok {| symbol_index_ := symbol_index_ pm1;
                         symbol_prices_ :=
                           <[Z.to_nat idx := {| feeds := fs; exchange_count := c;
                                                sp_symbol := sp_symbol (symbol_row pm1 idx) |}]>
                             (symbol_prices_ pm1);
                         symbol_count_ := symbol_count_ pm1 |}).
  { intros fs c Hfs Hc. unfold matrix_ok. cbn [symbol_index_ symbol_prices_ symbol_count_].
    split; [now rewrite length_insert|]. split; [exact Hcnt1|].
    split; [exact Hix1|]. split; [exact Hinj1|]. split.
    - intros i Hi. rewrite Hset by lia. case_decide; [cbn; split; assumption | now apply Hrw1].
    - intros i Hi. rewrite Hset by lia. rewrite decide_False by lia. now apply Hfree1. }
  cbv zeta.
  destruct (find_exchange exchange _ 0) as [j|] eqn:F.
  - (* a slot of the venue exists *)
    pose proof (find_exchange_Some _ _ _ _ F) as (Hj & _ & _).
    rewrite length_take in Hj.
    cbn [fst snd]. split.
    { apply Hkeep; [now rewrite length_insert | exact Hec]. }
    right. exists idx, j. cbn [symbol_index_ symbol_count_ fst snd].
    rewrite Hset by lia. rewrite decide_True by reflexivity. cbn [feeds exchange_count].
    split; [reflexivity|]. split; [exact Hi1|]. split; [exact Hstate|].
    split; [exact Hother|]. split.
    { intros i Hi Hne. rewrite Hset by lia. rewrite decide_False by exact Hne.
      now apply Hrows1. }
    split; [exact Hidx0|]. split; [lia|]. split; [now rewrite Hfeeds|].
    left. split; [rewrite Hv; exact F | now rewrite Hcount].
  - destruct (Z.ltb_spec (exchange_count (symbol_row pm1 idx)) MAX_EXCHANGES) as [Hfreeslot | Hfullrow].
    + (* the next free slot *)
      assert (Hw : wrap8 (exchange_count (symbol_row pm1 idx) + 1)
                   = exchange_count (symbol_row pm1 idx) + 1).
      { unfold wrap8, MAX_EXCHANGES in *. apply Z.mod_small. lia. }
      rewrite Hw. cbn [fst snd]. split.
      { apply Hkeep; [now rewrite length_insert | lia]. }
      right. exists idx, (exchange_count (symbol_row pm1 idx)).
      cbn [symbol_index_ symbol_count_ fst snd].
      rewrite Hset by lia. rewrite decide_True by reflexivity. cbn [feeds exchange_count].
      split; [reflexivity|]. split; [exact Hi1|]. split; [exact Hstate|].
      split; [exact Hother|]. split.
      { intros i Hi Hne. rewrite Hset by lia. rewrite decide_False by exact Hne.
        now apply Hrows1. }
      split; [exact Hidx0|]. split; [lia|]. split; [now rewrite Hfeeds|].
      right. split; [rewrite Hv; exact F|]. split; [exact Hcount | now rewrite Hcount].
    + (* the row is full *)
      destruct Hstate as [[Hsome _] | (Hnone & Heq & _)].
      * destruct (Hknown idx Hsome) as [_ ->]. cbn [fst]. split; [exact Hok|].
        left. split; [reflexivity|]. right. exists idx. split; [exact Hsome|].
        split; [lia|]. rewrite Hv. exact F.
      * exfalso. rewrite Hcount in Hfullrow. rewrite (Hfree idx) in Hfullrow by lia.
        unfold MAX_EXCHANGES in Hfullrow. lia.
Qed.

End PriceMatrixFacts.

Section PriceMatrixProperties.

Import Arbitrage.

Lemma matrix_ok_history config updates :
  matrix_ok (fst (feed_history config updates)).
Proof.
  unfold feed_history.
  assert (H : matrix_ok (fst (empty_matrix, make config))) by apply matrix_ok_empty.
  revert H. generalize (empty_matrix, make config).
  induction updates as [|u updates IH]; intros s H; cbn [fold_left]; [exact H|].
  apply IH. unfold apply_update.
  apply (updatePriceFeed_effect (u_exchange u) (u_symbol u) (u_bid_price u)
           (u_bid_quantity u) (u_ask_price u) (u_ask_quantity u) (u_now u)
           (fst s) (snd s) H).
Qed.

Lemma find_insert_found exchange f :
  feed_exchange f = exchange ->
  forall slots i j,
  find_exchange exchange slots i = Some j ->
  find_exchange exchange (<[Z.to_nat (j - i) := f]> slots) i = Some j.
Proof.
  intros Hf. induction slots as [|g slots IH]; intros i j H; [discriminate|].
  pose proof (find_exchange_Some _ _ _ _ H) as (Hj & _ & _).
  cbn in H. destruct (String.eqb_spec (feed_exchange g) exchange) as [E | E].
  - injection H as <-. rewrite Z.sub_diag.
    change (<[Z.to_nat 0 := f]> (g :: slots)) with (f :: slots).
    cbn [find_exchange]. rewrite Hf, String.eqb_refl. reflexivity.
  - pose proof (find_exchange_Some _ _ _ _ H) as (Hj' & _ & _).
    replace (Z.to_nat (j - i)) with (S (Z.to_nat (j - (i + 1)))) by lia.
    change (<[S (Z.to_nat (j - (i + 1))) := f]> (g :: slots))
      with (g :: <[Z.to_nat (j - (i + 1)) := f]> slots).
    cbn [find_exchange].
    destruct (String.eqb_spec (feed_exchange g) exchange); [contradiction|].
    now apply IH.
Qed.

Lemma find_insert_new exchange f :
  feed_exchange f = exchange ->
  forall slots (c : nat) i,
  find_exchange exchange (take c slots) i = None ->
  (c < length slots)%nat ->
  find_exchange exchange (take (S c) (<[c := f]> slots)) i = Some (i + Z.of_nat c).
Proof.
  intros Hf. induction slots as [|g slots IH]; intros c i H Hc; cbn in Hc; [lia|].
  destruct c as [|c].
  - change (take 1 (<[0%nat := f]> (g :: slots))) with [f].
    cbn [find_exchange]. rewrite Hf, String.eqb_refl. f_equal. lia.
  - cbn in H. destruct (String.eqb_spec (feed_exchange g) exchange) as [E | E];
      [discriminate|].
    change (take (S (S c)) (<[S c := f]> (g :: slots)))
      with (g :: take (S c) (<[c := f]> slots)).
    cbn [find_exchange].
    destruct (String.eqb_spec (feed_exchange g) exchange); [contradiction|].
    rewrite IH by (assumption || lia). f_equal. lia.
Qed.

(** The slot an update wrote is the one the search ends at. *)
Lemma stored_slot_found exchange f fs c c' j :
  feed_exchange f = exchange ->
  (Z.to_nat c' <= length fs)%nat -> 0 <= c ->
  (find_exchange exchange (take (Z.to_nat c) fs) 0 = Some j /\ c' = c \/
   find_exchange exchange (take (Z.to_nat c) fs) 0 = None /\ j = c /\ c' = c + 1) ->
  find_exchange exchange (take (Z.to_nat c') (<[Z.to_nat j := f]> fs)) 0 = Some j.
Proof.
  intros Hsf Hlen Hc [[Hf ->] | (Hf & -> & ->)].
  - pose proof (find_exchange_Some _ _ _ _ Hf) as (Hb & _ & _).
    rewrite length_take in Hb. rewrite take_insert_len by lia.
    replace (Z.to_nat j) with (Z.to_nat (j - 0)) by (f_equal; lia).
    now apply find_insert_found.
  - replace (Z.to_nat (c + 1)) with (S (Z.to_nat c)) in * by lia.
    rewrite (find_insert_new exchange _ Hsf) by (exact Hf || lia).
    f_equal. lia.
Qed.

(** X20. The limits of the price matrix. After any history of price
    updates on a new detector at most [MAX_SYMBOLS] symbols are
    registered, every registered symbol has a row of its own below
    [symbol_count_], and no row holds more than [MAX_EXCHANGES]
    venues. *)
Theorem feed_history_within_limits (config : ArbitrageConfig) (updates : list Update) :
  let pm := fst (feed_history config updates) in
  0 <= symbol_count_ pm <= MAX_SYMBOLS /\
  (forall s i, symbol_index_ pm !! s = Some i -> 0 <= i < symbol_count_ pm) /\
  (forall s s' i, symbol_index_ pm !! s = Some i -> symbol_index_ pm !! s' = Some i ->
                  s = s') /\
  (forall i, 0 <= i < MAX_SYMBOLS ->
     0 <= exchange_count (symbol_row pm i) <= MAX_EXCHANGES) /\
  (forall i, symbol_count_ pm <= i < MAX_SYMBOLS -> exchange_count (symbol_row pm i) = 0).
Proof.
  intros pm. destruct (matrix_ok_history config updates) as (_ & Hc & Hi & Hj & Hr & Hf).
  fold pm in Hc, Hi, Hj, Hr, Hf.
  split; [exact Hc|]. split; [exact Hi|]. split; [exact Hj|].
  split; [intros i H; now apply Hr | exact Hf].
Qed.

(** X21. An update is found again. While the table has a free row and
    the symbol's row a free slot, an update for a venue whose name has
    fewer than 15 characters (so that [strncpy] copies it whole, with
    its terminator) is stored: afterwards the symbol is in the index,
    the linear search for the venue in the symbol's row ends at a slot
    in use, that slot holds the prices and the clock reading of the
    update, and [processed_prices_] has advanced by one. *)
Theorem updatePriceFeed_found_again (exchange symbol : string) (bp bq ap aq : Q)
    (now : Z) (pm : PriceMatrix) (d : ArbitrageDetector) :
  matrix_ok pm ->
  (String.length exchange < 15)%nat ->
  symbol_count_ pm < MAX_SYMBOLS ->
  (forall idx, symbol_index_ pm !! symbol = Some idx ->
     exchange_count (symbol_row pm idx) < MAX_EXCHANGES) ->
  let '(pm', d') := updatePriceFeed exchange symbol bp bq ap aq now pm d in
  exists idx j,
    symbol_index_ pm' !! symbol = Some idx /\
    find_exchange exchange (venues (symbol_row pm' idx)) 0 = Some j /\
    0 <= j < exchange_count (symbol_row pm' idx) /\
    feed_at (symbol_row pm' idx) j = stored_feed exchange symbol bp bq ap aq now /\
    processed_prices_ d' = wrap64 (processed_prices_ d + 1).
Proof.
  intros Hok Hname Hrows Hslots.
  pose proof (updatePriceFeed_effect exchange symbol bp bq ap aq now pm d Hok) as H.
  destruct (updatePriceFeed exchange symbol bp bq ap aq now pm d) as [pm' d'].
  cbn [fst snd] in H. destruct H as (Hok' & [[_ Hlim] | Hst]).
  { exfalso. destruct Hlim as [[_ Hc] | (idx & Hs & Hc & _)]; [lia|].
    specialize (Hslots idx Hs). lia. }
  destruct Hst as (idx & j & Hd & Hidx & _ & _ & _ & Hi & Hj & Hfeeds & Hfind).
  cbv zeta in Hj, Hfeeds, Hfind.
  destruct Hok as (_ & _ & _ & _ & Hrw & _). destruct (Hrw idx Hi) as (Hlen & Hcnt).
  destruct Hok' as (_ & _ & _ & _ & Hrw' & _). destruct (Hrw' idx Hi) as (_ & Hcnt').
  unfold MAX_EXCHANGES in *.
  assert (Hsf : feed_exchange (stored_feed exchange symbol bp bq ap aq now) = exchange).
  { cbn. apply strncpy15_short. lia. }
  exists idx, j. split; [exact Hidx|]. split; [|split; [exact Hj|split]].
  - unfold venues. rewrite Hfeeds.
    apply (stored_slot_found exchange _ _ (exchange_count (symbol_row pm idx)));
      [exact Hsf | lia | lia |].
    destruct Hfind as [[Hf Hc] | (Hf & Hj' & Hc)]; [left | right]; auto.
  - unfold feed_at. rewrite Hfeeds, nth_lookup, list_lookup_insert_eq; [reflexivity|].
    lia.
  - rewrite Hd. reflexivity.
Qed.

(** X22. A later quote of the same venue replaces the earlier one.
    Of two updates in a row for one venue (a name of fewer than 15
    characters) and one symbol, the second takes no new row and no new slot: index,
    [symbol_count_] and every [exchange_count] are as the first left
    them, the slot that held the first quote holds the second, and
    every other slot is untouched. *)
Theorem updatePriceFeed_replaces (exchange symbol : string)
    (bp1 bq1 ap1 aq1 : Q) (now1 : Z) (bp2 bq2 ap2 aq2 : Q) (now2 : Z)
    (pm : PriceMatrix) (d : ArbitrageDetector) :
  matrix_ok pm ->
  (String.length exchange < 15)%nat ->
  symbol_count_ pm < MAX_SYMBOLS ->
  (forall idx, symbol_index_ pm !! symbol = Some idx ->
     exchange_count (symbol_row pm idx) < MAX_EXCHANGES) ->
  let s1 := updatePriceFeed exchange symbol bp1 bq1 ap1 aq1 now1 pm d in
  let s2 := updatePriceFeed exchange symbol bp2 bq2 ap2 aq2 now2 (fst s1) (snd s1) in
  symbol_index_ (fst s2) = symbol_index_ (fst s1) /\
  symbol_count_ (fst s2) = symbol_count_ (fst s1) /\
  (forall i, 0 <= i ->
     exchange_count (symbol_row (fst s2) i) = exchange_count (symbol_row (fst s1) i)) /\
  exists idx j,
    symbol_index_ (fst s1) !! symbol = Some idx /\
    0 <= j < exchange_count (symbol_row (fst s1) idx) /\
    feed_at (symbol_row (fst s1) idx) j = stored_feed exchange symbol bp1 bq1 ap1 aq1 now1 /\
    feed_at (symbol_row (fst s2) idx) j = stored_feed exchange symbol bp2 bq2 ap2 aq2 now2 /\
    (forall i k, 0 <= i -> 0 <= k -> i <> idx \/ k <> j ->
       feed_at (symbol_row (fst s2) i) k = feed_at (symbol_row (fst s1) i) k).
Proof.
  intros Hok Hname Hrows Hslots s1 s2.
  pose proof (updatePriceFeed_effect exchange symbol bp1 bq1 ap1 aq1 now1 pm d Hok) as H1.
  fold s1 in H1. cbv zeta in H1. destruct H1 as (Hok1 & [[_ Hlim] | Hst]).
  { exfalso. destruct Hlim as [[_ Hc] | (idx & Hs & Hc & _)]; [lia|].
    specialize (Hslots idx Hs). lia. }
  destruct Hst as (idx & j & _ & Hidx & _ & _ & _ & Hi & Hj & Hfeeds & Hfind).
  pose proof Hok as (_ & _ & _ & _ & Hrw & _). destruct (Hrw idx Hi) as (Hlen & Hcnt).
  pose proof Hok1 as (_ & _ & _ & _ & Hrw1 & _). destruct (Hrw1 idx Hi) as (Hlen1 & Hcnt1).
  assert (Hsf : forall a b c e n,
            feed_exchange (stored_feed exchange symbol a b c e n) = exchange).
  { intros. cbn. apply strncpy15_short. lia. }
  assert (Hfound : find_exchange exchange (venues (symbol_row (fst s1) idx)) 0 = Some j).
  { unfold venues. rewrite Hfeeds.
    apply (stored_slot_found exchange _ _ (exchange_count (symbol_row pm idx)));
      [apply Hsf | lia | lia |].
    destruct Hfind as [[Hf Hc] | (Hf & Hj' & Hc)]; [left | right]; auto. }
  pose proof (updatePriceFeed_effect exchange symbol bp2 bq2 ap2 aq2 now2
                (fst s1) (snd s1) Hok1) as H2.
  fold s2 in H2. cbv zeta in H2. destruct H2 as (Hok2 & [[_ Hlim] | Hst]).
  { exfalso. destruct Hlim as [[Hn _] | (idx' & Hs & _ & Hf)]; [congruence|].
    assert (idx' = idx) as -> by congruence. congruence. }
  destruct Hst as (idx2 & j2 & _ & Hidx2 & Hstate & Hother & Hrows2 & _ & _ & Hfeeds2 & Hfind2).
  destruct Hstate as [[Hs Hcount] | [Hn _]]; [|congruence].
  assert (idx2 = idx) as -> by congruence.
  destruct Hfind2 as [[Hf2 Hc2] | [Hf2 _]]; [|congruence].
  assert (j2 = j) as -> by congruence.
  split.
  { apply map_eq. intros s. destruct (decide (s = symbol)) as [-> | Hne].
    - congruence.
    - now apply Hother. }
  split; [exact Hcount|]. split.
  { intros i Hi0. destruct (Z.eq_dec i idx) as [-> | Hne]; [exact Hc2|].
    now rewrite Hrows2. }
  exists idx, j. split; [exact Hidx|]. split; [exact Hj|].
  unfold MAX_EXCHANGES in *.
  split; [|split].
  - unfold feed_at. rewrite Hfeeds, nth_lookup, list_lookup_insert_eq by lia. reflexivity.
  - unfold feed_at. rewrite Hfeeds2, nth_lookup, list_lookup_insert_eq by lia. reflexivity.
  - intros i k Hi0 Hk0 Hne. destruct (Z.eq_dec i idx) as [-> | Hi'].
    + destruct Hne as [Hne | Hne]; [contradiction|].
      unfold feed_at. rewrite Hfeeds2, !nth_lookup, list_lookup_insert_ne by lia.
      reflexivity.
    + now rewrite Hrows2.
Qed.

(** X23. Beyond the limits an update is dropped without a trace. An
    update for a symbol that is not in the index when all
    [MAX_SYMBOLS] rows are given out, or for a venue that is not in
    the symbol's row when its [MAX_EXCHANGES] slots are in use, leaves
    the matrix and the detector as they were: nothing is stored and
    [processed_prices_] does not count it. *)
Theorem updatePriceFeed_drops_at_limit (exchange symbol : string) (bp bq ap aq : Q)
    (now : Z) (pm : PriceMatrix) (d : ArbitrageDetector) :
  matrix_ok pm ->
  (symbol_index_ pm !! symbol = None /\ symbol_count_ pm = MAX_SYMBOLS) \/
  (exists idx, symbol_index_ pm !! symbol = Some idx /\
     exchange_count (symbol_row pm idx) = MAX_EXCHANGES /\
     find_exchange exchange (venues (symbol_row pm idx)) 0 = None) ->
  updatePriceFeed exchange symbol bp bq ap aq now pm d = (pm, d).
Proof.
  intros Hok Hlim.
  pose proof (updatePriceFeed_effect exchange symbol bp bq ap aq now pm d Hok) as H.
  cbv zeta in H. destruct H as (Hok' & [[Hr _] | Hst]); [exact Hr|].
  exfalso.
  destruct Hst as (idx & j & _ & _ & Hstate & _ & _ & Hi & Hj & _ & Hfind).
  destruct Hok' as (_ & _ & _ & _ & Hrw' & _). destruct (Hrw' idx Hi) as (_ & Hcnt').
  destruct Hlim as [[Hn Hc] | (idx' & Hs & Hc & Hf)].
  - destruct Hstate as [[Hs _] | (_ & -> & _)]; [congruence | lia].
  - destruct Hstate as [[Hs' _] | [Hn _]]; [|congruence].
    assert (idx' = idx) as -> by congruence.
    destruct Hfind as [[Hf' _] | (_ & _ & Hc')]; [congruence | lia].
Qed.

End PriceMatrixProperties.

Section ScanFacts.

Import Arbitrage.

Lemma emits_refl d : RingBuffer.inv (opportunity_buffer_ d) -> emits d d [].
Proof.
  intros H. unfold emits. repeat (split; [reflexivity || assumption|]).
  split; [now rewrite app_nil_r|].
  intros Hr. split; [exact Hr|]. cbn. rewrite Z.add_0_r.
  unfold wrap64. now rewrite Z.mod_small.
Qed.

Lemma emits_trans d d1 d2 n1 n2 :
  emits d d1 n1 -> emits d1 d2 n2 -> emits d d2 (n1 ++ n2).
Proof.
  intros (C1 & R1 & P1 & I1 & Q1 & D1) (C2 & R2 & P2 & I2 & Q2 & D2).
  unfold emits. split; [congruence|]. split; [congruence|]. split; [congruence|].
  split; [exact I2|]. split; [now rewrite Q2, Q1, app_assoc|].
  intros Hr. destruct (D1 Hr) as [Hr1 E1]. destruct (D2 Hr1) as [Hr2 E2].
  split; [exact Hr2|]. rewrite E2, E1. unfold wrap64.
  rewrite Z.add_mod_idemp_l by lia. f_equal. rewrite length_app. lia.
Qed.

Lemma check_emits buy sell symbol timestamp d :
  RingBuffer.inv (opportunity_buffer_ d) ->
  exists new, emits d (checkArbitrageOpportunity buy sell symbol timestamp d) new.
Proof.
  intros H. unfold checkArbitrageOpportunity.
  destruct (evaluate _ _ _ _ _) as [opp|] eqn:E; [|exists []; now apply emits_refl].
  pose proof (inv_push (opportunity_buffer_ d) opp H) as Hi.
  pose proof (contents_push zero_opportunity (opportunity_buffer_ d) opp H) as Hc.
  destruct (RingBuffer.push (opportunity_buffer_ d) opp) as [ok ring] eqn:P.
  cbn in Hi, Hc. destruct ok.
  - exists [opp]. unfold emits, pending. cbn.
    split; [reflexivity|]. split; [reflexivity|]. split; [reflexivity|].
    split; [exact Hi|]. split; [now apply Hc|].
    intros Hr. split; [|reflexivity]. unfold wrap64. apply Z.mod_pos_bound. lia.
  - assert (ring = opportunity_buffer_ d) as ->.
    { revert P. unfold RingBuffer.push. destruct (_ =? _); [|discriminate].
      now intros [= <-]. }
    exists []. unfold emits, pending. cbn.
    split; [reflexivity|]. split; [reflexivity|]. split; [reflexivity|].
    split; [exact H|]. split; [now rewrite app_nil_r|].
    intros Hr. split; [exact Hr|]. rewrite Z.add_0_r. unfold wrap64.
    now rewrite Z.mod_small.
Qed.

Lemma emits_inv d d' new : emits d d' new -> RingBuffer.inv (opportunity_buffer_ d').
Proof. intros H. apply H. Qed.

Lemma fold_emits {B} (f : ArbitrageDetector -> B -> ArbitrageDetector) (l : list B) :
  (forall x b, RingBuffer.inv (opportunity_buffer_ x) -> exists new, emits x (f x b) new) ->
  forall d, RingBuffer.inv (opportunity_buffer_ d) ->
  exists new, emits d (fold_left f l d) new.
Proof.
  intros Hf. induction l as [|b l IH]; intros d H; cbn [fold_left].
  - exists []. now apply emits_refl.
  - destruct (Hf d b H) as (n1 & E1).
    destruct (IH (f d b) (emits_inv _ _ _ E1)) as (n2 & E2).
    exists (n1 ++ n2). now apply (emits_trans d (f d b)).
Qed.

Lemma detect_pair_emits current_time stamp sp i d j :
  RingBuffer.inv (opportunity_buffer_ d) ->
  exists new, emits d (detect_pair current_time stamp sp i d j) new.
Proof.
  intros H. unfold detect_pair.
  destruct (stale current_time (feed_at sp j)); [exists []; now apply emits_refl|].
  destruct (check_emits (feed_at sp i) (feed_at sp j) (sp_symbol sp) (stamp i j) d H)
    as (n1 & E1).
  destruct (check_emits (feed_at sp j) (feed_at sp i) (sp_symbol sp) (stamp j i) _
              (emits_inv _ _ _ E1)) as (n2 & E2).
  exists (n1 ++ n2). exact (emits_trans _ _ _ _ _ E1 E2).
Qed.

Lemma detect_from_emits current_time stamp sp d i :
  RingBuffer.inv (opportunity_buffer_ d) ->
  exists new, emits d (detect_from current_time stamp sp d i) new.
Proof.
  intros H. unfold detect_from.
  destruct (stale current_time (feed_at sp i)); [exists []; now apply emits_refl|].
  apply fold_emits; [|exact H]. intros x b Hx. now apply detect_pair_emits.
Qed.

Lemma detect_symbol_emits current_time stamp pm d sym_idx :
  RingBuffer.inv (opportunity_buffer_ d) ->
  exists new, emits d (detect_symbol current_time stamp pm d sym_idx) new.
Proof.
  intros H. unfold detect_symbol.
  destruct (_ <? 2); [exists []; now apply emits_refl|].
  apply fold_emits; [|exact H]. intros x b Hx. now apply detect_from_emits.
Qed.

Lemma detectOpportunities_emits current_time stamp pm d :
  RingBuffer.inv (opportunity_buffer_ d) ->
  exists new, emits d (detectOpportunities current_time stamp pm d) new.
Proof.
  intros H. unfold detectOpportunities.
  destruct (negb (running_ d)); [exists []; now apply emits_refl|].
  apply fold_emits; [|exact H]. intros x b Hx. now apply detect_symbol_emits.
Qed.

Lemma check_no_edge buy sell symbol timestamp d :
  (bid_price sell - ask_price buy <= 0)%Q ->
  checkArbitrageOpportunity buy sell symbol timestamp d = d.
Proof.
  intros H. unfold checkArbitrageOpportunity. now rewrite evaluate_no_edge.
Qed.

Lemma In_seqZ (a n k : Z) : In k (seqZ a n) -> a <= k < a + n.
Proof. intros H. apply list_elem_of_In in H. now apply elem_of_seqZ in H. Qed.

(** Price updates leave the outbound ring alone. *)
Lemma feed_updates_ring updates : forall s,
  opportunity_buffer_ (snd (fold_left apply_update updates s))
  = opportunity_buffer_ (snd s).
Proof.
  induction updates as [|u updates IH]; intros s; cbn [fold_left]; [reflexivity|].
  rewrite IH. unfold apply_update, updatePriceFeed.
  destruct (getOrCreateSymbolIndex (u_symbol u) (fst s)) as [idx pm1].
  destruct (idx >=? MAX_SYMBOLS); [reflexivity|]. cbv zeta.
  destruct (find_exchange _ _ 0); [reflexivity|].
  destruct (_ <? MAX_EXCHANGES); reflexivity.
Qed.

Lemma inv_feed_history config updates :
  RingBuffer.inv (opportunity_buffer_ (snd (feed_history config updates))).
Proof.
  unfold feed_history. rewrite feed_updates_ring. cbn.
  apply inv_make. unfold OPPORTUNITY_BUFFER_SIZE. lia.
Qed.

End ScanFacts.

Section ScanProperties.

Import Arbitrage.

(** X24. A scan only appends, and counts what it appends. One pass
    of [detectOpportunities] over any matrix keeps the opportunities
    already waiting in the ring, in their order, and queues the new
    ones behind them; [detected_count_] advances by exactly the number
    queued; the configuration, the running flag and
    [processed_prices_] are unchanged. *)
Theorem detectOpportunities_appends_counted (current_time : Z)
    (stamp : Z -> Z -> Z -> Z) (pm : PriceMatrix) (d : ArbitrageDetector) :
  RingBuffer.inv (opportunity_buffer_ d) ->
  0 <= detected_count_ d < 2 ^ 64 ->
  let d' := detectOpportunities current_time stamp pm d in
  config_ d' = config_ d /\
  running_ d' = running_ d /\
  processed_prices_ d' = processed_prices_ d /\
  RingBuffer.inv (opportunity_buffer_ d') /\
  exists new,
    pending d' = pending d ++ new /\
    detected_count_ d' = wrap64 (detected_count_ d + Z.of_nat (length new)).
Proof.
  intros Hi Hr d'.
  destruct (detectOpportunities_emits current_time stamp pm d Hi)
    as (new & C & R & P & I & Q & D).
  fold d' in C, R, P, I, Q, D.
  split; [exact C|]. split; [exact R|]. split; [exact P|]. split; [exact I|].
  exists new. split; [exact Q|]. now apply D.
Qed.

(** X25. A scan with nothing to find does nothing. When in every
    registered row each pair of venues in use has a stale feed or no
    bid above the other's ask, [detectOpportunities] returns the
    detector as it was. *)
Theorem detectOpportunities_quiet (current_time : Z) (stamp : Z -> Z -> Z -> Z)
    (pm : PriceMatrix) (d : ArbitrageDetector) :
  (forall sym i j,
     0 <= sym < symbol_count_ pm ->
     0 <= i -> i < j -> j < exchange_count (symbol_row pm sym) ->
     quiet_pair current_time (feed_at (symbol_row pm sym) i) (feed_at (symbol_row pm sym) j)) ->
  detectOpportunities current_time stamp pm d = d.
Proof.
  intros H. unfold detectOpportunities.
  destruct (negb (running_ d)); [reflexivity|].
  apply fold_left_id. intros x sym Hsym. apply In_seqZ in Hsym.
  unfold detect_symbol. destruct (_ <? 2); [reflexivity|].
  apply fold_left_id. intros y i Hi. apply In_seqZ in Hi.
  unfold detect_from.
  destruct (stale current_time (feed_at (symbol_row pm sym) i)) eqn:Si; [reflexivity|].
  apply fold_left_id. intros z j Hj. apply In_seqZ in Hj.
  unfold detect_pair.
  destruct (stale current_time (feed_at (symbol_row pm sym) j)) eqn:Sj; [reflexivity|].
  destruct (H sym i j) as [Q | [Q | [Q1 Q2]]]; try lia; try congruence.
  rewrite (check_no_edge _ _ _ _ z Q1). now apply check_no_edge.
Qed.

End ScanProperties.

Lemma updatePriceFeed_found_again_witness :
  let '(pm', d') :=
    Arbitrage.updatePriceFeed "C" "BTCUSDT" (98 # 1) 1 (99 # 1) 1 3000
      (fst arb_fed) (snd arb_fed) in
  exists idx j,
    Arbitrage.symbol_index_ pm' !! "BTCUSDT" = Some idx /\
    Arbitrage.find_exchange "C" (Arbitrage.venues (Arbitrage.symbol_row pm' idx)) 0 = Some j /\
    0 <= j < Arbitrage.exchange_count (Arbitrage.symbol_row pm' idx) /\
    Arbitrage.feed_at (Arbitrage.symbol_row pm' idx) j
    = Arbitrage.stored_feed "C" "BTCUSDT" (98 # 1) 1 (99 # 1) 1 3000 /\
    Arbitrage.processed_prices_ d' = wrap64 (Arbitrage.processed_prices_ (snd arb_fed) + 1).
Proof.
  apply (updatePriceFeed_found_again "C" "BTCUSDT" (98 # 1) 1 (99 # 1) 1 3000
           (fst arb_fed) (snd arb_fed)).
  - apply matrix_ok_history.
  - cbn. lia.
  - vm_compute. reflexivity.
  - intros idx H.
    assert (E : Arbitrage.symbol_index_ (fst arb_fed) !! "BTCUSDT" = Some 0)
      by (vm_compute; reflexivity).
    rewrite E in H. injection H as <-. vm_compute. reflexivity.
Defined.

Lemma updatePriceFeed_replaces_witness :
  let s1 := Arbitrage.updatePriceFeed "A" "BTCUSDT" (99 # 1) 1 (100 # 1) 1 1000
              Arbitrage.empty_matrix (Arbitrage.make arb_config) in
  let s2 := Arbitrage.updatePriceFeed "A" "BTCUSDT" (98 # 1) 2 (99 # 1) 2 1500
              (fst s1) (snd s1) in
  Arbitrage.symbol_count_ (fst s2) = Arbitrage.symbol_count_ (fst s1).
Proof.
  refine (proj1 (proj2 (updatePriceFeed_replaces "A" "BTCUSDT"
                          (99 # 1) 1 (100 # 1) 1 1000 (98 # 1) 2 (99 # 1) 2 1500
                          Arbitrage.empty_matrix (Arbitrage.make arb_config) _ _ _ _))).
  - apply matrix_ok_empty.
  - cbn. lia.
  - vm_compute. reflexivity.
  - intros idx H. cbn in H. rewrite lookup_empty in H. discriminate.
Defined.

Lemma updatePriceFeed_drops_at_limit_witness :
  Arbitrage.updatePriceFeed "K" "BTCUSDT" (99 # 1) 1 (100 # 1) 1 3000
    (fst arb_full_row) (snd arb_full_row)
  = (fst arb_full_row, snd arb_full_row).
Proof.
  apply updatePriceFeed_drops_at_limit.
  - apply matrix_ok_history.
  - right. exists 0. split; [|split]; vm_compute; reflexivity.
Defined.

Lemma detectOpportunities_appends_counted_witness :
  let d := Arbitrage.start (snd arb_fed) in
  let d' := Arbitrage.detectOpportunities 1500 arb_stamp (fst arb_fed) d in
  exists new,
    Arbitrage.pending d' = Arbitrage.pending d ++ new /\
    Arbitrage.detected_count_ d'
    = wrap64 (Arbitrage.detected_count_ d + Z.of_nat (length new)).
Proof.
  intros d d'.
  refine (proj2 (proj2 (proj2 (proj2 (detectOpportunities_appends_counted
                                        1500 arb_stamp (fst arb_fed) d _ _))))).
  - exact (inv_feed_history arb_config [update_A; update_B]).
  - vm_compute. split; [discriminate | reflexivity].
Defined.

Lemma detectOpportunities_quiet_witness :
  Arbitrage.detectOpportunities 5000000000 arb_stamp (fst arb_fed)
    (Arbitrage.start (snd arb_fed))
  = Arbitrage.start (snd arb_fed).
Proof.
  apply detectOpportunities_quiet.
  intros sym i j Hs Hi Hij Hj.
  assert (Ec : Arbitrage.symbol_count_ (fst arb_fed) = 1) by (vm_compute; reflexivity).
  rewrite Ec in Hs. assert (sym = 0) as -> by lia.
  assert (Ee : Arbitrage.exchange_count (Arbitrage.symbol_row (fst arb_fed) 0) = 2)
    by (vm_compute; reflexivity).
  rewrite Ee in Hj. assert (i = 0) as -> by lia. assert (j = 1) as -> by lia.
  left. vm_compute. reflexivity.
Defined.

(** * More on the market maker: warm-up, batches, spreads, the risk checker *)

Lemma std_min_upper a b : (std_min a b <= a)%Q.
Proof.
  unfold std_min. destruct (Qlt_le_dec b a) as [H | H].
  - apply Qlt_le_weak. exact H.
  - apply Qle_refl.
Qed.

Lemma std_clamp lo hi x :
  (lo <= std_max lo (std_min hi x))%Q /\
  ((lo <= hi)%Q -> (std_max lo (std_min hi x) <= hi)%Q).
Proof.
  split; [apply std_max_lower|].
  intros H. unfold std_max.
  destruct (Qlt_le_dec lo (std_min hi x)); [apply std_min_upper | exact H].
Qed.

Lemma take_insert_pair {A} (x y : A) : forall (a : nat) (l : list A),
  (a + 2 <= length l)%nat ->
  take (a + 2) (<[S a := y]> (<[a := x]> l)) = take a l ++ [x; y].
Proof.
  induction a as [|a IH]; intros l H.
  - destruct l as [|u [|v l]]; cbn in *; try lia. reflexivity.
  - destruct l as [|u l]; cbn in *; [lia|]. f_equal. apply IH. lia.
Qed.

Lemma map_nth_seqZ {A} (d : A) (l : list A) (n : Z) :
  0 <= n <= Z.of_nat (length l) ->
  map (fun i => nth (Z.to_nat i) l d) (seqZ 0 n) = take (Z.to_nat n) l.
Proof.
  intros H. apply list_eq. intros i.
  change (map ?f ?x) with (f <$> x). rewrite list_lookup_fmap.
  destruct (decide (Z.of_nat i < n)) as [Hi | Hi].
  - rewrite lookup_seqZ_lt by lia. cbn.
    rewrite lookup_take_lt by lia.
    replace (Z.to_nat (0 + Z.of_nat i)) with i by lia.
    rewrite nth_lookup.
    destruct (lookup_lt_is_Some_2 l i ltac:(lia)) as [v ->]. reflexivity.
  - rewrite lookup_seqZ_ge by lia. cbn.
    rewrite lookup_take_ge by lia. reflexivity.
Qed.

Section WarmUpFacts.

Import MarketMaker.

Variables std_log std_sqrt : Q -> Q.

Lemma positives_insert (x : Q) : forall (history : list Q) (i : nat),
  (positives (<[i := x]> history) <= S (positives history))%nat.
Proof.
  induction history as [|p rest IH]; intros i.
  - change (<[i := x]> []) with (@nil Q). cbn. lia.
  - destruct i as [|i].
    + change (<[0%nat := x]> (p :: rest)) with (x :: rest). cbn [positives].
      destruct (Qlt_le_dec 0 x); destruct (Qlt_le_dec 0 p); lia.
    + change (<[S i := x]> (p :: rest)) with (p :: <[i := x]> rest). cbn [positives].
      specialize (IH i). destruct (Qlt_le_dec 0 p); lia.
Qed.

Lemma log_returns_length : forall history : list Q,
  (length (log_returns std_log history) <= pred (positives history))%nat.
Proof.
  induction history as [|prev rest IH]; [cbn; lia|].
  destruct rest as [|cur t]; [cbn; lia|].
  change (log_returns std_log (prev :: cur :: t))
    with (if Qlt_le_dec 0 cur then
            if Qlt_le_dec 0 prev
            then std_log (cur / prev)%Q :: log_returns std_log (cur :: t)
            else log_returns std_log (cur :: t)
          else log_returns std_log (cur :: t)).
  change (positives (prev :: cur :: t))
    with (if Qlt_le_dec 0 prev then S (positives (cur :: t)) else positives (cur :: t)).
  assert (Hc : (if Qlt_le_dec 0 cur then 1 <= positives (cur :: t) else True)%nat).
  { cbn. destruct (Qlt_le_dec 0 cur); [lia | exact I]. }
  destruct (Qlt_le_dec 0 cur); destruct (Qlt_le_dec 0 prev); cbn [length]; lia.
Qed.

Lemma calculateVolatility_few history :
  (positives history <= 2)%nat ->
  calculateVolatility std_log std_sqrt history = 0%Q.
Proof.
  intros H. unfold calculateVolatility.
  pose proof (log_returns_length history) as Hl.
  destruct (Z.ltb_spec (Z.of_nat (length (log_returns std_log history))) 2);
    [reflexivity | lia].
Qed.

End WarmUpFacts.

Section RiskCheckerFacts.

Import MarketMaker.



End RiskCheckerFacts.

Section BatchFacts.

Import MarketMaker.

(** A call with a free slot writes it and moves the counter. *)
Lemma generateQuoteLevel_slot side mid spread level now e :
  0 <= active_quotes_ e < MAX_QUOTES ->
  generateQuoteLevel "BTCUSDT" side mid spread level now e
  = set_quotes
      (<[Z.to_nat (active_quotes_ e) :=
           built_quote (config_ e) (inventory_state_ e) (fun _ _ => now) mid spread level side]>
         (current_quotes_ e))
      (active_quotes_ e + 1) e.
Proof.
  unfold MAX_QUOTES. intros H. unfold generateQuoteLevel, MAX_QUOTES.
  destruct (Z.geb_spec (active_quotes_ e) 20) as [Hge | _]; [lia|].
  unfold wrap64. rewrite Z.mod_small by lia. reflexivity.
Qed.

(** One level of the loop writes the next two slots. *)
Lemma generate_level_slots clock mid spread e level :
  0 <= active_quotes_ e -> active_quotes_ e + 2 <= MAX_QUOTES ->
  let a := Z.to_nat (active_quotes_ e) in
  let e' := generate_level clock mid spread e level in
  active_quotes_ e' = active_quotes_ e + 2 /\
  current_quotes_ e'
  = <[S a := built_quote (config_ e) (inventory_state_ e) clock mid spread level SELL]>
      (<[a := built_quote (config_ e) (inventory_state_ e) clock mid spread level BUY]>
         (current_quotes_ e)) /\
  config_ e' = config_ e /\ inventory_state_ e' = inventory_state_ e /\
  market_state_ e' = market_state_ e /\ quote_buffer_ e' = quote_buffer_ e /\
  quotes_generated_ e' = quotes_generated_ e /\ running_ e' = running_ e.
Proof.
  intros H0 H2 a e'. unfold MAX_QUOTES in H2. unfold e', generate_level.
  rewrite (generateQuoteLevel_slot BUY) by (unfold MAX_QUOTES; lia).
  rewrite (generateQuoteLevel_slot SELL) by (cbn; unfold MAX_QUOTES; lia).
  cbn [set_quotes active_quotes_ current_quotes_ config_ inventory_state_ market_state_
       quote_buffer_ quotes_generated_ running_].
  split; [lia|]. split; [|repeat split].
  replace (Z.to_nat (active_quotes_ e + 1)) with (S a) by (unfold a; lia).
  reflexivity.
Qed.

(** The level loop. *)
Lemma generate_levels_slots clock mid spread levels : forall e,
  0 <= active_quotes_ e ->
  active_quotes_ e + 2 * Z.of_nat (length levels) <= MAX_QUOTES ->
  length (current_quotes_ e) = Z.to_nat MAX_QUOTES ->
  let e' := fold_left (generate_level clock mid spread) levels e in
  active_quotes_ e' = active_quotes_ e + 2 * Z.of_nat (length levels) /\
  length (current_quotes_ e') = Z.to_nat MAX_QUOTES /\
  take (Z.to_nat (active_quotes_ e')) (current_quotes_ e')
  = take (Z.to_nat (active_quotes_ e)) (current_quotes_ e)
    ++ flat_map (fun level =>
                   [built_quote (config_ e) (inventory_state_ e) clock mid spread level BUY;
                    built_quote (config_ e) (inventory_state_ e) clock mid spread level SELL])
         levels /\
  config_ e' = config_ e /\ inventory_state_ e' = inventory_state_ e /\
  market_state_ e' = market_state_ e /\ quote_buffer_ e' = quote_buffer_ e /\
  quotes_generated_ e' = quotes_generated_ e /\ running_ e' = running_ e.
Proof.
  induction levels as [|l levels IH]; intros e H0 H2 Hlen;
    cbn [length] in H2; cbn [fold_left length flat_map].
  - rewrite app_nil_r. repeat split; try assumption. cbn. lia.
  - destruct (generate_level_slots clock mid spread e l H0) as (A & Q & C & I & M & B & G & R).
    { lia. }
    set (e1 := generate_level clock mid spread e l) in *.
    destruct (IH e1) as (A' & L' & T' & C' & I' & M' & B' & G' & R').
    { lia. }
    { lia. }
    { rewrite Q, !length_insert. exact Hlen. }
    split; [lia|]. split; [exact L'|]. split; [|repeat split; congruence].
    rewrite T', C, I. rewrite app_assoc. f_equal.
    rewrite A, Q.
    replace (Z.to_nat (active_quotes_ e + 2)) with (Z.to_nat (active_quotes_ e) + 2)%nat by lia.
    apply take_insert_pair. unfold MAX_QUOTES in *. lia.
Qed.

(** The push loop, while the ring has room. *)
Lemma push_quotes_contents idxs : forall e,
  RingBuffer.inv (quote_buffer_ e) ->
  RingBuffer.size (quote_buffer_ e) + Z.of_nat (length idxs)
  <= RingBuffer.capacity (quote_buffer_ e) - 1 ->
  let e' := fold_left push_quote idxs e in
  RingBuffer.contents zero_quote (quote_buffer_ e')
  = RingBuffer.contents zero_quote (quote_buffer_ e)
    ++ map (fun i => nth (Z.to_nat i) (current_quotes_ e) zero_quote) idxs /\
  current_quotes_ e' = current_quotes_ e /\
  RingBuffer.inv (quote_buffer_ e').
Proof.
  induction idxs as [|i idxs IH]; intros e Hinv Hroom; cbn [fold_left length map].
  - rewrite app_nil_r. split; [reflexivity|]. split; [reflexivity | exact Hinv].
  - set (q := nth (Z.to_nat i) (current_quotes_ e) zero_quote).
    assert (Hok : fst (RingBuffer.push (quote_buffer_ e) q) = true).
    { destruct (fst (RingBuffer.push (quote_buffer_ e) q)) eqn:E; [reflexivity|].
      apply push_false_iff in E; [|exact Hinv]. cbn [length] in Hroom. lia. }
    pose proof (inv_push (quote_buffer_ e) q Hinv) as Hi.
    pose proof (size_push (quote_buffer_ e) q Hinv Hok) as Hs.
    pose proof (contents_push zero_quote (quote_buffer_ e) q Hinv Hok) as Hc.
    pose proof (capacity_push (quote_buffer_ e) q) as Hcap.
    assert (Hb : quote_buffer_ (push_quote e i) = snd (RingBuffer.push (quote_buffer_ e) q)
                 /\ current_quotes_ (push_quote e i) = current_quotes_ e).
    { unfold push_quote. fold q. destruct (RingBuffer.push (quote_buffer_ e) q).
      split; reflexivity. }
    destruct Hb as [Hb Hq].
    destruct (IH (push_quote e i)) as (C' & Q' & I').
    { rewrite Hb. exact Hi. }
    { rewrite Hb, Hs, Hcap. cbn [length] in Hroom. lia. }
    split; [|split; [congruence | exact I']].
    rewrite C', Hb, Hc, Hq, <- app_assoc. reflexivity.
Qed.

End BatchFacts.

Section MarketMakerProperties.

Import MarketMaker.

(** X26. The volatility needs three prices. An update of an engine
    whose price history holds at most one positive price reports
    volatility [0], whatever [std::log] and [std::sqrt] compute: with
    fewer than two returns [calculateVolatility] does not reach them. *)
Theorem updateMarketData_warm_up (std_log std_sqrt : Q -> Q) (symbol : string)
    (bid_price bid_size ask_price ask_size last_price : Q) (now : Z)
    (e : MarketMakerEngine) :
  (positives (price_history_ e) <= 1)%nat ->
  let e' := updateMarketData std_log std_sqrt symbol bid_price bid_size
              ask_price ask_size last_price now e in
  volatility (market_state_ e') = 0%Q /\
  (positives (price_history_ e') <= 2)%nat.
Proof.
  intros H e'.
  pose proof (positives_insert ((bid_price + ask_price) / (2 # 1))%Q (price_history_ e)
                (Z.to_nat (price_index_ e mod PRICE_HISTORY_SIZE))) as Hp.
  split.
  - unfold e', updateMarketData. cbn [market_state_ volatility].
    apply calculateVolatility_few. lia.
  - unfold e', updateMarketData. cbn [price_history_]. lia.
Qed.

(** X27. A call of [generateQuotes] queues its batch in order. With
    the engine running, market data present, at most ten levels
    configured and room in the outbound ring for two quotes per level,
    the call fills the first slots of [current_quotes_] with the bid and
    the ask of level 0, then of level 1, and so on, each with the
    quantity, level, price and clock reading of [generateQuoteLevel],
    and appends exactly these quotes, in this order, behind the quotes
    already waiting in the ring. *)
Theorem generateQuotes_queues_batch (clock : Z -> Side -> Z) (e : MarketMakerEngine) :
  running_ e = true ->
  (0 < mid_price (market_state_ e))%Q ->
  (0 < bid_price (market_state_ e))%Q ->
  (0 < ask_price (market_state_ e))%Q ->
  quote_levels (config_ e) <= 10 ->
  length (current_quotes_ e) = Z.to_nat MAX_QUOTES ->
  RingBuffer.inv (quote_buffer_ e) ->
  RingBuffer.size (quote_buffer_ e) + 2 * Z.max 0 (quote_levels (config_ e))
  <= RingBuffer.capacity (quote_buffer_ e) - 1 ->
  let e' := generateQuotes clock e in
  active_quotes_ e' = 2 * Z.max 0 (quote_levels (config_ e)) /\
  take (Z.to_nat (active_quotes_ e')) (current_quotes_ e') = batch clock e /\
  RingBuffer.contents zero_quote (quote_buffer_ e')
  = RingBuffer.contents zero_quote (quote_buffer_ e) ++ batch clock e.
Proof.
  intros Hr Hm Hb Ha Hl Hlen Hinv Hroom e'. unfold e', generateQuotes.
  rewrite Hr. cbn [negb].
  assert (Hgate : Qle_bool (mid_price (market_state_ e)) 0
                  || Qle_bool (bid_price (market_state_ e)) 0
                  || Qle_bool (ask_price (market_state_ e)) 0 = false).
  { assert (Hn : forall x, (0 < x)%Q -> Qle_bool x 0 = false).
    { intros x Hx. destruct (Qle_bool x 0) eqn:E; [|reflexivity].
      apply Qle_bool_iff in E. lra. }
    now rewrite !Hn. }
  rewrite Hgate. cbv zeta.
  set (e0 := set_quotes (current_quotes_ e) 0 e).
  set (spread := calculateSpread (config_ e) (market_state_ e) (inventory_state_ e)).
  set (levels := seqZ 0 (quote_levels (config_ e0))).
  assert (Hlv : Z.of_nat (length levels) = Z.max 0 (quote_levels (config_ e))).
  { unfold levels. rewrite length_seqZ. cbn. lia. }
  destruct (generate_levels_slots clock (mid_price (market_state_ e)) spread levels e0)
    as (A & L & T & C & I & M & B & G & R).
  { cbn. lia. }
  { cbn. unfold MAX_QUOTES. lia. }
  { exact Hlen. }
  set (e1 := fold_left (generate_level clock (mid_price (market_state_ e)) spread) levels e0)
    in *.
  cbn [active_quotes_ current_quotes_ config_ inventory_state_ quote_buffer_ e0 set_quotes]
    in A, T, C, I, B.
  rewrite Z.add_0_l in A. cbn [Z.to_nat take app] in T.
  destruct (push_quotes_contents (seqZ 0 (active_quotes_ e1)) e1) as (C' & Q' & _).
  { rewrite B. exact Hinv. }
  { rewrite B, length_seqZ, A. lia. }
  assert (Hact : active_quotes_ (fold_left push_quote (seqZ 0 (active_quotes_ e1)) e1)
                 = active_quotes_ e1).
  { generalize (seqZ 0 (active_quotes_ e1)). intros idxs. generalize e1.
    induction idxs as [|i idxs IH]; intros x; cbn [fold_left]; [reflexivity|].
    rewrite IH. apply push_quote_counts. }
  rewrite Hact, Q', C', B.
  rewrite map_nth_seqZ by (rewrite L; unfold MAX_QUOTES; lia).
  rewrite T. split; [lia|]. split; reflexivity.
Qed.

(** X28. The spread stays within the configured limits. With
    [min_spread_bps <= max_spread_bps] the spread of the engine
    ([calculateSpread]) and the spread of [SpreadCalculator::calculate]
    lie between [min_spread_bps / 10000] and [max_spread_bps / 10000]
    for every market state, inventory, volatility and book depth. *)
Theorem spread_within_limits (config : MarketMakerConfig) (market : MarketSnapshot)
    (inventory : InventorySnapshot) (vol inventory_ratio book_depth : Q) :
  (min_spread_bps config <= max_spread_bps config)%Q ->
  (min_spread_bps config / (10000 # 1) <= calculateSpread config market inventory
   <= max_spread_bps config / (10000 # 1))%Q /\
  (min_spread_bps config / (10000 # 1) <= calculate config vol inventory_ratio book_depth
   <= max_spread_bps config / (10000 # 1))%Q.
Proof.
  intros H.
  assert (Hl : (min_spread_bps config / (10000 # 1)
                <= max_spread_bps config / (10000 # 1))%Q).
  { rewrite !Qdiv_10000. lra. }
  unfold calculateSpread, calculate. cbv zeta.
  split; (split; [apply std_clamp | apply std_clamp; exact Hl]).
Qed.

(** X29. [getBidAskSpreads] skews the two sides around the base
    spread. With a non-negative base spread and skew factor a long
    inventory gives [ask_spread <= base_spread <= bid_spread], a short
    one [bid_spread <= base_spread <= ask_spread], and a flat one
    leaves both at the base spread. *)
Theorem getBidAskSpreads_skew (config : MarketMakerConfig)
    (base_spread inventory_ratio : Q) :
  (0 <= base_spread)%Q ->
  (0 <= inventory_skew config)%Q ->
  let '(bid_spread, ask_spread) := getBidAskSpreads config base_spread inventory_ratio in
  ((0 < inventory_ratio)%Q ->
     (ask_spread <= base_spread)%Q /\ (base_spread <= bid_spread)%Q) /\
  ((inventory_ratio < 0)%Q ->
     (bid_spread <= base_spread)%Q /\ (base_spread <= ask_spread)%Q) /\
  ((inventory_ratio == 0)%Q -> bid_spread = base_spread /\ ask_spread = base_spread).
Proof.
  intros Hb Hs. unfold getBidAskSpreads.
  pose proof (Qabs_nonneg inventory_ratio) as Ha. unfold std_abs.
  set (r := Qabs inventory_ratio) in *.
  assert (Hp : (0 <= base_spread * (inventory_skew config * r))%Q).
  { apply Qmult_le_0_compat; [exact Hb|]. apply Qmult_le_0_compat; assumption. }
  set (k := (inventory_skew config * r)%Q) in *.
  destruct (Qlt_le_dec 0 inventory_ratio) as [H1 | H1].
  - split; [intros _; split; nra|]. split; [intros H; lra|].
    intros H. rewrite H in H1. lra.
  - destruct (Qlt_le_dec inventory_ratio 0) as [H2 | H2].
    + split; [intros H; lra|]. split; [intros _; split; nra|].
      intros H. rewrite H in H2. lra.
    + split; [intros H; lra|]. split; [intros H; lra|].
      intros _. split; reflexivity.
Qed.


End MarketMakerProperties.

Lemma updateMarketData_warm_up_witness :
  MarketMaker.volatility
    (MarketMaker.market_state_
       (MarketMaker.updateMarketData (fun x => x) (fun x => x)
          "BTCUSDT" (100 # 1) 1 (102 # 1) 1 (101 # 1) 5500 mm_started))
  = 0%Q.
Proof.
  refine (proj1 (updateMarketData_warm_up (fun x => x) (fun x => x)
                   "BTCUSDT" (100 # 1) 1 (102 # 1) 1 (101 # 1) 5500 mm_started _)).
  vm_compute. constructor.
Defined.

Lemma generateQuotes_queues_batch_witness :
  RingBuffer.contents MarketMaker.zero_quote
    (MarketMaker.quote_buffer_ (MarketMaker.generateQuotes mm_clock mm_started))
  = RingBuffer.contents MarketMaker.zero_quote (MarketMaker.quote_buffer_ mm_started)
    ++ MarketMaker.batch mm_clock mm_started.
Proof.
  refine (proj2 (proj2 (generateQuotes_queues_batch mm_clock mm_started _ _ _ _ _ _ _ _))).
  - vm_compute. reflexivity.
  - vm_compute. reflexivity.
  - vm_compute. reflexivity.
  - vm_compute. reflexivity.
  - vm_compute. discriminate.
  - vm_compute. reflexivity.
  - apply inv_make. unfold MarketMaker.QUOTE_BUFFER_SIZE. lia.
  - vm_compute. discriminate.
Defined.

Lemma spread_within_limits_witness :
  (MarketMaker.min_spread_bps MarketMaker.default_config / (10000 # 1)
   <= MarketMaker.calculate MarketMaker.default_config (1 # 100) (1 # 2) (20 # 1)
   <= MarketMaker.max_spread_bps MarketMaker.default_config / (10000 # 1))%Q.
Proof.
  refine (proj2 (spread_within_limits MarketMaker.default_config
                   MarketMaker.zero_market MarketMaker.zero_inventory
                   (1 # 100) (1 # 2) (20 # 1) _)).
  vm_compute. discriminate.
Defined.

Lemma getBidAskSpreads_skew_witness :
  let '(bid_spread, ask_spread) :=
    MarketMaker.getBidAskSpreads MarketMaker.default_config (1 # 1000) (1 # 2) in
  (ask_spread <= 1 # 1000)%Q /\ (1 # 1000 <= bid_spread)%Q.
Proof.
  pose proof (getBidAskSpreads_skew MarketMaker.default_config (1 # 1000) (1 # 2)) as H.
  destruct (MarketMaker.getBidAskSpreads MarketMaker.default_config (1 # 1000) (1 # 2))
    as [bid_spread ask_spread].
  refine (proj1 (H _ _) _); vm_compute; (discriminate || reflexivity).
Defined.

